(** * mybot: the process-driven session engine of the codex adapter

    A shallow embedding of [internal/adapters/codex] (codex.go, exec.go,
    memory.go) and of the parts of [internal/core/session_manager.go]
    that feed it, followed by the properties the specification states
    about them.

    Conventions.
    - A Go [string] is a sequence of bytes: Rocq's [string].  A [[]byte]
      is a [list byte].
    - A Go [int] is a 64-bit two's complement integer: a [Z] with the
      wrap-around written out ([wrap64]).
    - A Go [map] is a stdpp [gmap]; a map field that can be [nil] is an
      [option (gmap _ _)].
    - Mutable state (adapter, handles, the operating system) is passed
      explicitly.  What the environment decides (the output of a child
      process, the wall clock, which file operations fail) is part of the
      explicit input. *)

From Stdlib Require Import ZArith Lia String Ascii List Bool.
From Stdlib.Strings Require Import Byte.
From Stdlib.Numbers Require DecimalString DecimalZ.
From stdpp Require Import gmap strings list fin_maps option sorting.
From Equations.Prop Require Import Equations Logic.

Open Scope string_scope.
Open Scope list_scope.
Open Scope Z_scope.

(** ** The Go standard library, as far as the adapter uses it *)

Module Go.

(** [int]: 64-bit wrap-around. *)
Definition wrap64 (z : Z) : Z := (z + 2 ^ 63) mod 2 ^ 64 - 2 ^ 63.

Definition len (s : string) : Z := Z.of_nat (String.length s).

(** [s[i:j]] for in-range indices. *)
Definition slice (s : string) (i j : Z) : string :=
  substring (Z.to_nat i) (Z.to_nat (j - i)) s.

(** [strings.HasPrefix]: [len(s) >= len(prefix) && s[:len(prefix)] == prefix]. *)
Definition HasPrefix (s prefix : string) : bool :=
  (len prefix <=? len s) && String.eqb (slice s 0 (len prefix)) prefix.

(** [strings.HasSuffix]: [len(s) >= len(suffix) && s[len(s)-len(suffix):] == suffix]. *)
Definition HasSuffix (s suffix : string) : bool :=
  (len suffix <=? len s) && String.eqb (slice s (len s - len suffix) (len s)) suffix.

(** [strings.TrimPrefix]. *)
Definition TrimPrefix (s prefix : string) : string :=
  if HasPrefix s prefix then slice s (len prefix) (len s) else s.

(** White space.  [asciiSpace] is the table of package strings; the
    remaining code points of [unicode.IsSpace] are listed by their UTF-8
    encodings (U+0085, U+00A0, U+1680, U+2000..U+200A, U+2028, U+2029,
    U+202F, U+205F, U+3000). *)
Definition asciiSpace (c : ascii) : bool :=
  let n := nat_of_ascii c in
  ((9 <=? n) && (n <=? 13) || (n =? 32))%nat.

Definition space2 (c1 c2 : ascii) : bool :=
  let a := nat_of_ascii c1 in
  let b := nat_of_ascii c2 in
  ((a =? 194) && ((b =? 133) || (b =? 160)))%nat.

Definition space3 (c1 c2 c3 : ascii) : bool :=
  let a := nat_of_ascii c1 in
  let b := nat_of_ascii c2 in
  let c := nat_of_ascii c3 in
  ((a =? 225) && (b =? 154) && (c =? 128)
   || (a =? 226) && (b =? 128)
        && ((128 <=? c) && (c <=? 138) || (c =? 168) || (c =? 169) || (c =? 175))
   || (a =? 226) && (b =? 129) && (c =? 159)
   || (a =? 227) && (b =? 128) && (c =? 128))%nat.

(** [strings.TrimLeftFunc(s, unicode.IsSpace)]: drop leading white-space
    runes. *)
Fixpoint trimLeftSpace (s : string) : string :=
  match s with
  | String c1 s1 =>
      if asciiSpace c1 then trimLeftSpace s1
      else
        match s1 with
        | String c2 s2 =>
            if space2 c1 c2 then trimLeftSpace s2
            else
              match s2 with
              | String c3 s3 => if space3 c1 c2 c3 then trimLeftSpace s3 else s
              | EmptyString => s
              end
        | EmptyString => s
        end
  | EmptyString => s
  end.

(** The same from the right end, on the reversed byte sequence. *)
Fixpoint trimLeftSpaceRev (r : string) : string :=
  match r with
  | String c1 r1 =>
      if asciiSpace c1 then trimLeftSpaceRev r1
      else
        match r1 with
        | String c2 r2 =>
            if space2 c2 c1 then trimLeftSpaceRev r2
            else
              match r2 with
              | String c3 r3 => if space3 c3 c2 c1 then trimLeftSpaceRev r3 else r
              | EmptyString => r
              end
        | EmptyString => r
        end
  | EmptyString => r
  end.

Definition trimRightSpace (s : string) : string :=
  String.rev (trimLeftSpaceRev (String.rev s)).

(** [strings.TrimSpace]. *)
Definition TrimSpace (s : string) : string := trimRightSpace (trimLeftSpace s).

(** [strings.ToLower], as far as the ASCII letters of its result go: the
    ASCII capitals are lower-cased, and so are the two other code points
    whose lower case is an ASCII letter, U+0130 (bytes C4 B0, lower case
    [i]) and U+212A (bytes E2 84 AA, lower case [k]); every other byte
    is left as it is.  The lower case of another code point has no
    ASCII byte, so the result agrees with that of [strings.ToLower] on
    every comparison with an ASCII word and on every search for an ASCII
    substring, which is all the adapter does with it. *)
Definition lowerByte (c : ascii) : ascii :=
  let n := nat_of_ascii c in
  if ((65 <=? n) && (n <=? 90))%nat then ascii_of_nat (n + 32) else c.

Fixpoint ToLower (s : string) : string :=
  match s with
  | EmptyString => EmptyString
  | String c1 s1 =>
      match s1 with
      | String c2 s2 =>
          if (nat_of_ascii c1 =? 196)%nat && (nat_of_ascii c2 =? 176)%nat
          then String "i" (ToLower s2)
          else
            match s2 with
            | String c3 s3 =>
                if (nat_of_ascii c1 =? 226)%nat && (nat_of_ascii c2 =? 132)%nat
                   && (nat_of_ascii c3 =? 170)%nat
                then String "k" (ToLower s3)
                else String (lowerByte c1) (ToLower s1)
            | EmptyString => String (lowerByte c1) (ToLower s1)
            end
      | EmptyString => String (lowerByte c1) EmptyString
      end
  end.

(** [strings.Index] / [bytes.Index]: position of the first occurrence, or
    [-1]. *)
Fixpoint isPrefixOf {A} `{EqDecision A} (p l : list A) : bool :=
  match p, l with
  | [], _ => true
  | _ :: _, [] => false
  | x :: p', y :: l' => bool_decide (x = y) && isPrefixOf p' l'
  end.

Fixpoint Index {A} `{EqDecision A} (l sep : list A) : Z :=
  if isPrefixOf sep l then 0
  else
    match l with
    | [] => -1
    | _ :: l' => let i := Index l' sep in if i =? -1 then -1 else i + 1
    end.

Definition bytes (s : string) : list ascii := list_ascii_of_string s.

(** [strings.Contains]. *)
Definition Contains (s substr : string) : bool :=
  0 <=? Index (bytes s) (bytes substr).

(** [strings.IndexByte] and [strings.LastIndexByte]. *)
Definition IndexByte (s : string) (c : ascii) : Z := Index (bytes s) [c].

Fixpoint lastIndexFrom (i : Z) (l : list ascii) (c : ascii) (found : Z) : Z :=
  match l with
  | [] => found
  | x :: l' => lastIndexFrom (i + 1) l' c (if bool_decide (x = c) then i else found)
  end.

Definition LastIndexByte (s : string) (c : ascii) : Z :=
  lastIndexFrom 0 (bytes s) c (-1).

(** [strings.Split(s, sep)] for a non-empty separator: cut at the
    leftmost occurrences, left to right.  [skip] counts the bytes of a
    separator still to be passed over, [cur] collects the current piece
    in reverse. *)
Fixpoint splitFrom (sep : list ascii) (skip : nat) (cur : list ascii) (l : list ascii)
  : list string :=
  match l with
  | [] => [string_of_list_ascii (rev cur)]
  | c :: l' =>
      match skip with
      | S k => splitFrom sep k cur l'
      | O =>
          if isPrefixOf sep l
          then string_of_list_ascii (rev cur) :: splitFrom sep (List.length sep - 1) [] l'
          else splitFrom sep O (c :: cur) l'
      end
  end.

Definition Split (s sep : string) : list string := splitFrom (bytes sep) O [] (bytes s).

(** [filepath.Base] with separator [/]. *)
Fixpoint dropTrailingSlashesRev (r : list ascii) : list ascii :=
  match r with
  | c :: r' => if bool_decide (c = "/"%char) then dropTrailingSlashesRev r' else r
  | [] => []
  end.

Fixpoint takeUntilSlash (r : list ascii) : list ascii :=
  match r with
  | c :: r' => if bool_decide (c = "/"%char) then [] else c :: takeUntilSlash r'
  | [] => []
  end.

Definition Base (path : string) : string :=
  if String.eqb path "" then "."
  else
    match dropTrailingSlashesRev (rev (bytes path)) with
    | [] => "/"
    | r => string_of_list_ascii (rev (takeUntilSlash r))
    end.

(** [strings.Join]. *)
Fixpoint joinSep (sep : string) (l : list string) : string :=
  match l with
  | [] => ""
  | [x] => x
  | x :: l' => x +:+ sep +:+ joinSep sep l'
  end.

(** [filepath.Clean] with separator [/], element by element: [st] holds
    the elements kept so far, the last one first.  Empty elements and
    [.] are left out; [..] removes the element before it, stays when
    there is none to remove and the path is not rooted, and is dropped
    at the root. *)
Definition cleanStep (rooted : bool) (st : list string) (c : string) : list string :=
  if String.eqb c "" || String.eqb c "." then st
  else if String.eqb c ".." then
    match st with
    | top :: rest => if String.eqb top ".." then c :: st else rest
    | [] => if rooted then [] else [c]
    end
  else c :: st.

Definition Clean (path : string) : string :=
  if String.eqb path "" then "."
  else
    let rooted := HasPrefix path "/" in
    let body := joinSep "/" (rev (foldl (cleanStep rooted) [] (Split path "/"))) in
    if rooted then "/" +:+ body
    else if String.eqb body "" then "." else body.

(** [filepath.Join]: the elements from the first one that is not empty
    on, joined by [/] and cleaned; the empty string when all are
    empty. *)
Fixpoint JoinElems (elem : list string) : string :=
  match elem with
  | [] => ""
  | e :: rest => if String.eqb e "" then JoinElems rest else Clean (joinSep "/" elem)
  end.

Definition Join (dir name : string) : string := JoinElems [dir; name].

(** [strconv.Atoi]: an optional sign, then decimal digits; an error
    ([None]) on anything else and on values outside [int]. *)
Definition digit (c : ascii) : option Z :=
  let n := nat_of_ascii c in
  if ((48 <=? n) && (n <=? 57))%nat then Some (Z.of_nat n - 48) else None.

Fixpoint digitsFrom (acc : Z) (l : list ascii) : option Z :=
  match l with
  | [] => Some acc
  | c :: l' =>
      match digit c with
      | Some d => digitsFrom (10 * acc + d) l'
      | None => None
      end
  end.

Definition Atoi (s : string) : option Z :=
  let parse (neg : bool) (l : list ascii) : option Z :=
    match l with
    | [] => None
    | _ =>
        match digitsFrom 0 l with
        | Some n =>
            let v := if neg then - n else n in
            if (- 2 ^ 63 <=? v) && (v <? 2 ^ 63) then Some v else None
        | None => None
        end
    end in
  match bytes s with
  | c :: l' =>
      if bool_decide (c = "-"%char) then parse true l'
      else if bool_decide (c = "+"%char) then parse false l'
      else parse false (c :: l')
  | [] => None
  end.

(** [fmt.Sprintf("%d", n)]. *)
Fixpoint digitsOf (fuel : nat) (n : Z) (acc : list ascii) : list ascii :=
  match fuel with
  | O => acc
  | S fuel' =>
      let acc' := ascii_of_nat (Z.to_nat (n mod 10) + 48) :: acc in
      if n <? 10 then acc' else digitsOf fuel' (n / 10) acc'
  end.

Definition Itoa (n : Z) : string :=
  if n <? 0 then "-" +:+ string_of_list_ascii (digitsOf 20 (- n) [])
  else string_of_list_ascii (digitsOf 20 n []).

(** [utf8.DecodeRuneInString], as far as its callers here look at it:
    the width of the rune that [l] starts with, or [None] where the
    bytes are no UTF-8 encoding (the rune error of width 1).  The ranges
    are those of the table of [unicode/utf8]: no overlong form, no
    surrogate, nothing above U+10FFFF. *)
Definition inRange (lo hi : nat) (c : ascii) : bool :=
  let n := nat_of_ascii c in
  ((lo <=? n) && (n <=? hi))%nat.

Definition runeWidth (l : list ascii) : option nat :=
  match l with
  | [] => None
  | c0 :: l1 =>
      let n := nat_of_ascii c0 in
      if (n <? 128)%nat then Some 1%nat
      else if inRange 194 223 c0 then
        match l1 with
        | c1 :: _ => if inRange 128 191 c1 then Some 2%nat else None
        | _ => None
        end
      else if inRange 224 239 c0 then
        let lo := if (n =? 224)%nat then 160%nat else 128%nat in
        let hi := if (n =? 237)%nat then 159%nat else 191%nat in
        match l1 with
        | c1 :: c2 :: _ =>
            if inRange lo hi c1 && inRange 128 191 c2 then Some 3%nat else None
        | _ => None
        end
      else if inRange 240 244 c0 then
        let lo := if (n =? 240)%nat then 144%nat else 128%nat in
        let hi := if (n =? 244)%nat then 143%nat else 191%nat in
        match l1 with
        | c1 :: c2 :: c3 :: _ =>
            if inRange lo hi c1 && inRange 128 191 c2 && inRange 128 191 c3
            then Some 4%nat else None
        | _ => None
        end
      else None
  end.

(** [utf8.ValidString]; [skip] counts the bytes left of the rune being
    passed over. *)
Fixpoint validFrom (skip : nat) (l : list ascii) : bool :=
  match l with
  | [] => true
  | _ :: l' =>
      match skip with
      | S k => validFrom k l'
      | O =>
          match runeWidth l with
          | Some w => validFrom (Nat.pred w) l'
          | None => false
          end
      end
  end.

Definition ValidString (s : string) : bool := validFrom 0 (bytes s).

(** [time.Time], as far as two times can be told apart: the instant, in
    nanoseconds since the start of 1970 (UTC); the reading of the
    monotonic clock that [time.Now] records with the instant, [None]
    for a time that carries none; and the location.  The zero time is
    the start of the year 1, in UTC, without monotonic reading. *)
Inductive Location :=
| UTC
| Local
| FixedZone (offset : Z).

Record Time := mkTime {
  instant : Z;
  monotonic : option Z;
  location : Location
}.

Definition zeroTime : Time := mkTime (-62135596800 * 10 ^ 9) None UTC.

(** [time.Now] keeps the monotonic reading when the seconds of the wall
    clock, counted from the start of 1885, fit into 33 bits. *)
Definition monotonicFits (wallNano : Z) : bool :=
  let sec := wallNano / 10 ^ 9 + 2682288000 in
  (0 <=? sec) && (sec <? 2 ^ 33).

End Go.

(** ** JSON documents

    [encoding/json] is used at two levels.  Its scanner and printer turn
    text into a document and back; they are taken as given.  Its mapping
    between documents and Go values follows the struct tags of the
    adapter's types and is written out below ([decodeStateFile],
    [encodeMemoryFile], ...). *)

Module JSON.

#[local] Set Warnings "-register-all".

Inductive value : Type :=
| Null
| Bool (b : bool)
| Int (n : Z)                      (* a number literal that is an integer *)
| Real (lit : string)              (* any other number literal *)
| Str (s : string)
| Arr (l : list value)
| Obj (members : list (string * value)).

(** Field names match a key exactly or under the case folding of
    [encoding/json]: ASCII letters, and the two code points that fold to
    ASCII letters, U+017F (to s) and U+212A (to k). *)
Fixpoint foldKey (l : list ascii) : list ascii :=
  match l with
  | [] => []
  | c1 :: l1 =>
      let n1 := nat_of_ascii c1 in
      match l1 with
      | c2 :: l2 =>
          let n2 := nat_of_ascii c2 in
          if ((n1 =? 197) && (n2 =? 191))%nat then "s"%char :: foldKey l2
          else
            match l2 with
            | c3 :: l3 =>
                if ((n1 =? 226) && (n2 =? 132) && (nat_of_ascii c3 =? 170))%nat
                then "k"%char :: foldKey l3
                else Go.lowerByte c1 :: foldKey l1
            | [] => Go.lowerByte c1 :: foldKey l1
            end
      | [] => [Go.lowerByte c1]
      end
  end.

Definition keyIs (tag key : string) : bool :=
  String.eqb key tag
  || bool_decide (foldKey (Go.bytes key) = foldKey (Go.bytes tag)).

(** Decoding into a [string], an [int] and a [[]string] field.  [None]
    is a decoding error; [null] leaves a string or an int as it is and
    makes a slice nil. *)
Definition decodeString (old : string) (v : value) : option string :=
  match v with
  | Null => Some old
  | Str s => Some s
  | _ => None
  end.

Definition decodeInt (old : Z) (v : value) : option Z :=
  match v with
  | Null => Some old
  | Int n => if (- 2 ^ 63 <=? n) && (n <? 2 ^ 63) then Some n else None
  | _ => None
  end.

Fixpoint decodeStrings (l : list value) : option (list string) :=
  match l with
  | [] => Some []
  | v :: l' =>
      match decodeString "" v, decodeStrings l' with
      | Some s, Some r => Some (s :: r)
      | _, _ => None
      end
  end.

Definition decodeStringSlice (v : value) : option (list string) :=
  match v with
  | Null => Some []
  | Arr l => decodeStrings l
  | _ => None
  end.

(** A Go string as [json.Marshal] writes it and a reader of the text
    gets it back: coerced to valid UTF-8, every byte that starts no rune
    replaced by U+FFFD (bytes EF BF BD). *)
Fixpoint coerceFrom (skip : nat) (l : list ascii) : list ascii :=
  match l with
  | [] => []
  | c :: l' =>
      match skip with
      | S k => c :: coerceFrom k l'
      | O =>
          match Go.runeWidth l with
          | Some w => c :: coerceFrom (Nat.pred w) l'
          | None => "239"%char :: "191"%char :: "189"%char :: coerceFrom 0 l'
          end
      end
  end.

Definition coerce (s : string) : string :=
  string_of_list_ascii (coerceFrom 0 (Go.bytes s)).

Definition encodeString (s : string) : value := Str (coerce s).

(** A slice of strings: nil and empty slices are both the empty list;
    every empty slice the adapter builds itself is nil, written [null]. *)
Definition encodeStringSlice (l : list string) : value :=
  match l with
  | [] => Null
  | _ => Arr (encodeString <$> l)
  end.

(** The entries of a Go map in the order [json.Marshal] writes them,
    sorted by key ([strings.Compare], byte-wise). *)
Definition keyLe {V} (x y : string * V) : Prop := String.leb x.1 y.1 = true.

#[global] Instance keyLe_dec {V} : RelDecision (@keyLe V) :=
  fun x y => decide (String.leb x.1 y.1 = true).

Definition sortedEntries {V} (m : gmap string V) : list (string * V) :=
  merge_sort keyLe (map_to_list m).

End JSON.

(** ** The operating system *)

Module OS.

(** A file is a text log or a JSON document. *)
Inductive file :=
| Text (s : string)
| Doc (d : JSON.value).

Record t := mk {
  files : gmap string file;
  faulty : gset string;          (* paths on which file operations fail *)
  env : gmap string string;      (* the process environment *)
  wall : nat -> Z;               (* successive readings of the wall clock *)
  mono : nat -> Z;               (* the readings of the monotonic clock taken with them *)
  tick : nat;                    (* readings taken so far *)
  spawned : list (string * list string)   (* commands run through os/exec, oldest first *)
}.

Definition setFiles (os : t) (f : gmap string file) : t :=
  mk f (faulty os) (env os) (wall os) (mono os) (tick os) (spawned os).

(** [os.Getenv]. *)
Definition Getenv (os : t) (key : string) : string := default "" (env os !! key).

(** [time.Now()], where only the instant is used: its [UnixNano]. *)
Definition Now (os : t) : Z * t :=
  (wall os (tick os),
   mk (files os) (faulty os) (env os) (wall os) (mono os) (S (tick os)) (spawned os)).

(** [time.Now()], where the time itself is stored: in the local zone,
    with the reading of the monotonic clock. *)
Definition NowTime (os : t) : Go.Time * t :=
  let w := wall os (tick os) in
  (Go.mkTime w (if Go.monotonicFits w then Some (mono os (tick os)) else None) Go.Local,
   (Now os).2).

(** [os.ReadFile]. *)
Definition ReadFile (os : t) (path : string) : option file :=
  if decide (path ∈ faulty os) then None else files os !! path.

(** [os.WriteFile]: the new state and whether it succeeded. *)
Definition WriteFile (os : t) (path : string) (c : file) : t * bool :=
  if decide (path ∈ faulty os) then (os, false)
  else (setFiles os (<[path := c]> (files os)), true).

(** [os.Rename]. *)
Definition Rename (os : t) (src dst : string) : t * bool :=
  if decide (src ∈ faulty os) then (os, false)
  else if decide (dst ∈ faulty os) then (os, false)
  else
    match files os !! src with
    | Some c => (setFiles os (<[dst := c]> (delete src (files os))), true)
    | None => (os, false)
    end.

(** [os.OpenFile(path, O_CREATE|O_APPEND|O_WRONLY)] followed by
    [WriteString] and [Close]. *)
Definition AppendFile (os : t) (path : string) (s : string) : t :=
  if decide (path ∈ faulty os) then os
  else
    match files os !! path with
    | None => setFiles os (<[path := Text s]> (files os))
    | Some (Text old) => setFiles os (<[path := Text (old +:+ s)]> (files os))
    | Some (Doc _) => os
    end.

(** [exec.Cmd.Start] and [exec.Cmd.Run], as far as the record of commands goes. *)
Definition Start (os : t) (cmd : string) (argv : list string) : t :=
  mk (files os) (faulty os) (env os) (wall os) (mono os) (tick os)
    (spawned os ++ [(cmd, argv)]).

End OS.

(** ** internal/core: events *)

Inductive EventType := EventStdout | EventStderr | EventExit | EventStatus.

Record Event := mkEvent {
  evType : EventType;
  evText : string;
  evTime : Z;
  evCode : Z
}.

(** ** internal/adapters/codex: types *)

(** [codexItem] and [codexJSON] (exec.go), with their JSON tags [type],
    [text] and [type], [thread_id], [item]. *)
Record codexItem := mkItem {
  itemType : string;
  itemText : string
}.

Record codexJSON := mkJSON {
  jsonType : string;
  jsonThreadID : string;
  jsonItem : option codexItem      (* [*codexItem]; [None] is nil *)
}.

(** [chatMemory] and [compactResult] (memory.go). *)
Record chatMemory := mkMem {
  Summary : string;
  Rules : list string;
  Prefs : list string;
  UpdatedAt : Go.Time;
  CompactedAt : Go.Time;
  TokensSinceCompact : Z;
  TurnsSinceCompact : Z;
  SkillIdeas : list string
}.

Record compactResult := mkResult {
  resSummary : string;
  resRules : list string;
  resPrefs : list string;
  resSkillIdeas : list string
}.

(** [codexUsage]: its declaration is not part of memory.go; the fields
    are those [onTurnCompleted] reads. *)
Record codexUsage := mkUsage {
  InputTokens : Z;
  OutputTokens : Z
}.

(** The text level of [encoding/json] and of [time.Time]'s JSON methods.
    [unmarshalCompactResult text] is what [json.Unmarshal] leaves in a
    zero [compactResult] and whether it returned an error.
    [MarshalJSON] writes the instant of a time as an RFC 3339 string
    with nanoseconds, at the offset its location has then
    ([zoneOffset], in seconds; the local zone is that of the process),
    or returns an error ([None]), as it does for a year outside 0..9999;
    the monotonic reading is not written.  [UnmarshalJSON] reads an
    instant and a location from such a string.  The string has hours
    and minutes for the offset, so it carries the instant when the
    offset is a whole number of minutes. *)
Class TextJSON := {
  unmarshalCompactResult : string -> compactResult * bool;
  zoneOffset : Z -> Go.Location -> Z;
  timeMarshalJSON : Z -> Go.Location -> option string;
  timeUnmarshalJSON : string -> option (Z * Go.Location);
  time_json_roundtrip :
    forall i l s,
      timeMarshalJSON i l = Some s -> zoneOffset i l mod 60 = 0 ->
      exists l', timeUnmarshalJSON s = Some (i, l')
}.

(** [Adapter] (codex.go).  The fields [mem] and [compacting] are the
    ones memory.go uses under [memMu] and [compactMu]; the mutexes
    themselves have no counterpart: every function below is one critical
    section or a sequence of them. *)
Record Adapter := mkAdapter {
  cmd : string;
  args : list string;
  dir : string;
  logDir : string;
  fixed : list string;
  mode : string;
  skipGitRepoCheck : bool;
  statePath : string;
  threads : option (gmap string string);
  mem : option (gmap string (option chatMemory));
  compacting : option (gmap string bool)
}.

Definition setThreads (a : Adapter) (t : option (gmap string string)) : Adapter :=
  mkAdapter (cmd a) (args a) (dir a) (logDir a) (fixed a) (mode a)
    (skipGitRepoCheck a) (statePath a) t (mem a) (compacting a).

Definition setMem (a : Adapter) (m : option (gmap string (option chatMemory))) : Adapter :=
  mkAdapter (cmd a) (args a) (dir a) (logDir a) (fixed a) (mode a)
    (skipGitRepoCheck a) (statePath a) (threads a) m (compacting a).

Definition setCompacting (a : Adapter) (c : option (gmap string bool)) : Adapter :=
  mkAdapter (cmd a) (args a) (dir a) (logDir a) (fixed a) (mode a)
    (skipGitRepoCheck a) (statePath a) (threads a) (mem a) c.

(** [handle] (codex.go), the interactive variant, as far as
    [handleTermQueries] touches it: [stdin] is [None] for a nil writer
    and otherwise the writes made so far, oldest first. *)
Record handle := mkHandle {
  hSessionID : string;
  hLogDir : string;
  stdin : option (list (list byte))
}.

(** [handleExec] (exec.go).  [running] tells whether a command is
    recorded as running; [events] is the content of the buffered channel
    (capacity 256), oldest first; [hasAdapter] is [adapter != nil]. *)
Record handleExec := mkExec {
  sessionID : string;
  chatKey : string;
  xLogDir : string;
  cmdPath : string;
  globalArgs : list string;
  xSkipGitRepoCheck : bool;
  threadID : string;
  running : bool;
  events : list Event;
  hasAdapter : bool
}.

Definition eventsCap : nat := 256.

(** A [core.Handle] as the adapter tells them apart. *)
Inductive Handle :=
| ExecHandle (h : handleExec)
| PtyHandle (h : handle)
| OtherHandle.

Definition setThreadID (h : handleExec) (tid : string) : handleExec :=
  mkExec (sessionID h) (chatKey h) (xLogDir h) (cmdPath h) (globalArgs h)
    (xSkipGitRepoCheck h) tid (running h) (events h) (hasAdapter h).

Definition setRunning (h : handleExec) (r : bool) : handleExec :=
  mkExec (sessionID h) (chatKey h) (xLogDir h) (cmdPath h) (globalArgs h)
    (xSkipGitRepoCheck h) (threadID h) r (events h) (hasAdapter h).

Definition setEvents (h : handleExec) (es : list Event) : handleExec :=
  mkExec (sessionID h) (chatKey h) (xLogDir h) (cmdPath h) (globalArgs h)
    (xSkipGitRepoCheck h) (threadID h) (running h) es (hasAdapter h).

(** ** codex.go: the interactive variant's terminal queries *)

#[global] Instance byte_eq_decision : EqDecision byte := byte_eq_dec.

Definition dsrCursor : list byte := [x1b; x5b; x36; x6e].         (* ESC [ 6 n *)
Definition dsrCursorQ : list byte := [x1b; x5b; x3f; x36; x6e].   (* ESC [ ? 6 n *)
Definition cursorReply : list byte := [x1b; x5b; x31; x3b; x31; x52].   (* ESC [ 1 ; 1 R *)

(** [h.stdin.Write(p)] under [if h.stdin != nil]. *)
Definition writeStdin (h : handle) (p : list byte) : handle :=
  match stdin h with
  | Some w => mkHandle (hSessionID h) (hLogDir h) (Some (w ++ [p]))
  | None => h
  end.

(** The earliest match: its position [k] and length [n]. *)
Definition earliest (i j : Z) : Z * Z :=
  let k := i in
  let n := Z.of_nat (length dsrCursor) in
  if (k =? -1) || (negb (j =? -1) && (j <? k))
  then (j, Z.of_nat (length dsrCursorQ))
  else (k, n).

(** [append(b[:k], b[k+n:]...)]. *)
Definition cut (b : list byte) (k n : Z) : list byte :=
  take (Z.to_nat k) b ++ drop (Z.to_nat (k + n)) b.

Lemma isPrefixOf_length {A} `{EqDecision A} (p l : list A) :
  Go.isPrefixOf p l = true -> (length p <= length l)%nat.
Proof.
  revert l; induction p as [|x p IH]; intros [|y l]; simpl; try lia; try discriminate.
  intros Hp. apply andb_prop in Hp as [_ Hp]. specialize (IH _ Hp). lia.
Qed.

Lemma Index_bounds {A} `{EqDecision A} (l sep : list A) :
  Go.Index l sep <> -1 ->
  0 <= Go.Index l sep /\ Go.Index l sep + Z.of_nat (length sep) <= Z.of_nat (length l).
Proof.
  induction l as [|x l IH]; simpl.
  - destruct (Go.isPrefixOf sep []) eqn:E; [|congruence].
    intros _. apply isPrefixOf_length in E. simpl in E. lia.
  - destruct (Go.isPrefixOf sep (x :: l)) eqn:E.
    + intros _. apply isPrefixOf_length in E. simpl in E. lia.
    + destruct (Go.Index l sep =? -1) eqn:E1; [congruence|].
      intros _. apply Z.eqb_neq in E1. specialize (IH E1). lia.
Qed.

Lemma cut_shorter (b : list byte) (i j : Z) :
  i = Go.Index b dsrCursor -> j = Go.Index b dsrCursorQ ->
  (i =? -1) && (j =? -1) = false ->
  (length (cut b (earliest i j).1 (earliest i j).2) < length b)%nat.
Proof.
  intros Hi Hj Hnone.
  pose proof (Index_bounds b dsrCursor) as Bi.
  pose proof (Index_bounds b dsrCursorQ) as Bj.
  rewrite <- Hi in Bi. rewrite <- Hj in Bj.
  unfold cut, earliest. simpl length in *.
  destruct (i =? -1) eqn:Ei, (j =? -1) eqn:Ej; simpl in Hnone; try discriminate;
    try apply Z.eqb_neq in Ei; try apply Z.eqb_neq in Ej; simpl.
  - specialize (Bj Ej). rewrite length_app, length_take, length_drop. lia.
  - specialize (Bi Ei). rewrite length_app, length_take, length_drop. lia.
  - specialize (Bi Ei). specialize (Bj Ej).
    destruct (j <? i); simpl; rewrite length_app, length_take, length_drop; lia.
Qed.

(** [handleTermQueries]: the loop ends because every round removes a
    query of four or five bytes. *)
Equations handleTermQueries (h : handle) (b : list byte) : handle * list byte
  by wf (length b) lt :=
  handleTermQueries h b
    with inspect ((Go.Index b dsrCursor =? -1) && (Go.Index b dsrCursorQ =? -1)) := {
    | exist _ true _ => (h, b)
    | exist _ false e =>
        handleTermQueries (writeStdin h cursorReply)
          (cut b (earliest (Go.Index b dsrCursor) (Go.Index b dsrCursorQ)).1
                 (earliest (Go.Index b dsrCursor) (Go.Index b dsrCursorQ)).2) }.
Next Obligation. intros. apply cut_shorter; auto. Defined.

(** ** codex.go: the thread store *)

Definition nl : string := String "010"%char "".

(** [parseChatKey]. *)
Definition parseChatKey (sessionID : string) : string * bool :=
  let chatKey :=
    if Go.HasPrefix sessionID "chat-" then
      let rest := Go.TrimPrefix sessionID "chat-" in
      let parts := Go.Split rest "-" in
      match parts with
      | p0 :: _ :: _ => if String.eqb p0 "" then "" else p0
      | _ => ""
      end
    else "" in
  let fresh := Go.HasSuffix sessionID "-fresh" in
  (chatKey, fresh).

(** [stateFile], tag [threads]: the document [json.MarshalIndent] writes
    for it and what [json.Unmarshal] reads from a document into a zero
    [stateFile].  The outer [None] is a decoding error, the inner one a
    nil map. *)
Definition encodeStateFile (t : option (gmap string string)) : JSON.value :=
  JSON.Obj
    [("threads",
      match t with
      | None => JSON.Null
      | Some m =>
          JSON.Obj ((fun kv => (JSON.coerce kv.1, JSON.encodeString kv.2))
                      <$> JSON.sortedEntries m)
      end)].

Fixpoint decodeStringMap (acc : gmap string string) (ms : list (string * JSON.value))
  : option (gmap string string) :=
  match ms with
  | [] => Some acc
  | (k, v) :: ms' =>
      match JSON.decodeString "" v with
      | Some s => decodeStringMap (<[k := s]> acc) ms'
      | None => None
      end
  end.

Fixpoint decodeStateMembers (t : option (gmap string string))
    (ms : list (string * JSON.value)) : option (option (gmap string string)) :=
  match ms with
  | [] => Some t
  | (k, v) :: ms' =>
      if JSON.keyIs "threads" k then
        match v with
        | JSON.Null => decodeStateMembers None ms'
        | JSON.Obj es =>
            match decodeStringMap (default ∅ t) es with
            | Some m => decodeStateMembers (Some m) ms'
            | None => None
            end
        | _ => None
        end
      else decodeStateMembers t ms'
  end.

Definition decodeStateFile (d : JSON.value) : option (option (gmap string string)) :=
  match d with
  | JSON.Null => Some None
  | JSON.Obj ms => decodeStateMembers None ms
  | _ => None
  end.

(** [loadState]. *)
Definition loadState (a : Adapter) (os : OS.t) : Adapter :=
  match OS.ReadFile os (statePath a) with
  | Some (OS.Doc d) =>
      match decodeStateFile d with
      | Some (Some m) => setThreads a (Some m)
      | _ => a
      end
  | _ => a
  end.

(** [saveStateLocked]: write the temporary file, rename it over the
    state file; every error is dropped. *)
Definition saveStateLocked (a : Adapter) (os : OS.t) : OS.t :=
  let b := OS.Doc (encodeStateFile (threads a)) in
  let tmp := statePath a +:+ ".tmp" in
  let os1 := (OS.WriteFile os tmp b).1 in
  (OS.Rename os1 tmp (statePath a)).1.

(** [a.threads[chatKey]], also on a nil map. *)
Definition threadOf (t : option (gmap string string)) (chatKey : string) : string :=
  match t with
  | Some m => default "" (m !! chatKey)
  | None => ""
  end.

(** [getThread]. *)
Definition getThread (a : Adapter) (chatKey : string) : string :=
  if String.eqb chatKey "" then "" else threadOf (threads a) chatKey.

(** [setThread]. *)
Definition setThread (a : Adapter) (os : OS.t) (chatKey threadID : string)
  : Adapter * OS.t :=
  if String.eqb chatKey "" || String.eqb threadID "" then (a, os)
  else
    let m := default ∅ (threads a) in
    let a1 := setThreads a (Some m) in
    if String.eqb (threadOf (threads a1) chatKey) threadID then (a1, os)
    else
      let a2 := setThreads a1 (Some (<[chatKey := threadID]> m)) in
      (a2, saveStateLocked a2 os).

(** [clearThread]. *)
Definition clearThread (a : Adapter) (os : OS.t) (chatKey : string) : Adapter * OS.t :=
  if String.eqb chatKey "" then (a, os)
  else
    match threads a with
    | Some m =>
        match m !! chatKey with
        | Some _ =>
            let a1 := setThreads a (Some (delete chatKey m)) in
            (a1, saveStateLocked a1 os)
        | None => (a, os)
        end
    | None => (a, os)
    end.

(** Modelled from the spec: [dropThread], which [compactChat] calls and
    whose definition is not part of the sources.  "After a successful
    compaction, the persisted continuation identifier for the
    conversation is cleared": the entry of the conversation leaves the
    thread map and the map is persisted. *)
Definition dropThread (a : Adapter) (os : OS.t) (chatKey : string) : Adapter * OS.t :=
  match threads a with
  | Some m =>
      let a1 := setThreads a (Some (delete chatKey m)) in
      (a1, saveStateLocked a1 os)
  | None => (a, saveStateLocked a os)
  end.

(** ** exec.go: the structured variant *)

(** What [json.Unmarshal] reads from a document into a zero [codexJSON];
    [None] is a decoding error. *)
Fixpoint decodeItemMembers (it : codexItem) (ms : list (string * JSON.value))
  : option codexItem :=
  match ms with
  | [] => Some it
  | (k, v) :: ms' =>
      if JSON.keyIs "type" k then
        match JSON.decodeString (itemType it) v with
        | Some s => decodeItemMembers (mkItem s (itemText it)) ms'
        | None => None
        end
      else if JSON.keyIs "text" k then
        match JSON.decodeString (itemText it) v with
        | Some s => decodeItemMembers (mkItem (itemType it) s) ms'
        | None => None
        end
      else decodeItemMembers it ms'
  end.

Fixpoint decodeCodexMembers (ev : codexJSON) (ms : list (string * JSON.value))
  : option codexJSON :=
  match ms with
  | [] => Some ev
  | (k, v) :: ms' =>
      if JSON.keyIs "type" k then
        match JSON.decodeString (jsonType ev) v with
        | Some s => decodeCodexMembers (mkJSON s (jsonThreadID ev) (jsonItem ev)) ms'
        | None => None
        end
      else if JSON.keyIs "thread_id" k then
        match JSON.decodeString (jsonThreadID ev) v with
        | Some s => decodeCodexMembers (mkJSON (jsonType ev) s (jsonItem ev)) ms'
        | None => None
        end
      else if JSON.keyIs "item" k then
        match v with
        | JSON.Null => decodeCodexMembers (mkJSON (jsonType ev) (jsonThreadID ev) None) ms'
        | JSON.Obj ims =>
            match decodeItemMembers (default (mkItem "" "") (jsonItem ev)) ims with
            | Some it =>
                decodeCodexMembers (mkJSON (jsonType ev) (jsonThreadID ev) (Some it)) ms'
            | None => None
            end
        | _ => None
        end
      else decodeCodexMembers ev ms'
  end.

Definition decodeCodexJSON (d : JSON.value) : option codexJSON :=
  match d with
  | JSON.Null => Some (mkJSON "" "" None)
  | JSON.Obj ms => decodeCodexMembers (mkJSON "" "" None) ms
  | _ => None
  end.

(** A line of standard output as the scanner delivers it: the document
    it holds ([None] when it is not JSON) and the text of the error
    [json.Unmarshal] reports when it fails on the line. *)
Record line := mkLine {
  lineDoc : option JSON.value;
  lineErr : string
}.

Definition unmarshalLine (l : line) : option codexJSON :=
  match lineDoc l with
  | Some d => decodeCodexJSON d
  | None => None
  end.

(** [emit]: a non-blocking send; the event is dropped when the buffer is
    full.  The clock is read in both cases. *)
Definition emit (h : handleExec) (os : OS.t) (typ : EventType) (text : string)
  : handleExec * OS.t :=
  let '(now, os1) := OS.Now os in
  if (length (events h) <? eventsCap)%nat
  then (setEvents h (events h ++ [mkEvent typ text now 0]), os1)
  else (h, os1).

(** [h.events <- e] on a buffer that has room, as in [startExec]. *)
Definition send (h : handleExec) (os : OS.t) (typ : EventType) (text : string)
  : handleExec * OS.t :=
  let '(now, os1) := OS.Now os in
  (setEvents h (events h ++ [mkEvent typ text now 0]), os1).

Definition transcriptPath (base sid : string) : string :=
  Go.JoinElems [base; "sessions"; sid +:+ ".log"].

(** [appendTranscript]. *)
Definition appendTranscript (h : handleExec) (os : OS.t) (s : string) : OS.t :=
  OS.AppendFile os (transcriptPath (xLogDir h) (sessionID h)) s.

(** [startExec]. *)
Definition startExec (a : Adapter) (os : OS.t) (sid : string)
  : handleExec * Adapter * OS.t :=
  let '(key, fresh) := parseChatKey sid in
  let '(a1, os1) :=
    if fresh && negb (String.eqb key "") then clearThread a os key else (a, os) in
  let h := mkExec sid key (logDir a1) (cmd a1) (args a1) (skipGitRepoCheck a1)
             "" false [] true in
  let '(h1, os2) :=
    if negb (String.eqb key "") then
      let tid := getThread a1 key in
      if negb (String.eqb tid "")
      then send (setThreadID h tid) os1 EventStatus ("resumed thread_id=" +:+ tid +:+ nl)
      else (h, os1)
    else (h, os1) in
  let '(h2, os3) := send h1 os2 EventStatus ("started mode=exec" +:+ nl) in
  (h2, a1, os3).

(** The body of the loop of [readJSONL] for one scanned line. *)
Definition readJSONLLine (h : handleExec) (a : Adapter) (os : OS.t) (l : line)
  : handleExec * Adapter * OS.t :=
  match unmarshalLine l with
  | None =>
      let '(h1, os1) := emit h os EventStderr ("bad json: " +:+ lineErr l +:+ nl) in
      (h1, a, os1)
  | Some ev =>
      if String.eqb (jsonType ev) "thread.started" then
        if negb (String.eqb (jsonThreadID ev) "") then
          let '(toPersist, key, h1) :=
            if String.eqb (threadID h) ""
            then (jsonThreadID ev, chatKey h, setThreadID h (jsonThreadID ev))
            else ("", "", h) in
          if negb (String.eqb toPersist "") && negb (String.eqb key "") && hasAdapter h1
          then
            let '(a1, os1) := setThread a os key toPersist in
            (h1, a1, appendTranscript h1 os1 ("[resume thread_id " +:+ toPersist +:+ "]" +:+ nl))
          else (h1, a, os)
        else (h, a, os)
      else if String.eqb (jsonType ev) "item.completed" then
        match jsonItem ev with
        | Some it =>
            if String.eqb (itemType it) "agent_message" && negb (String.eqb (itemText it) "")
            then
              let txt := itemText it in
              let txt := if negb (Go.HasSuffix txt nl) then txt +:+ nl else txt in
              let os1 := appendTranscript h os txt in
              let '(h1, os2) := emit h os1 EventStdout txt in
              (h1, a, os2)
            else (h, a, os)
        | None => (h, a, os)
        end
      else if String.eqb (jsonType ev) "turn.completed" then
        (h, a, os)      (* ignore *)
      else
        (h, a, os)      (* ignore other event types for now *)
  end.

(** [readJSONL]: the scanned lines in order, then the scanner's error,
    if it ended on one. *)
Definition readJSONL (h : handleExec) (a : Adapter) (os : OS.t)
    (ls : list line) (scanErr : option string) : handleExec * Adapter * OS.t :=
  let '(h1, a1, os1) :=
    foldl (fun st l => let '(h, a, os) := st in readJSONLLine h a os l) (h, a, os) ls in
  match scanErr with
  | Some e =>
      let '(h2, os2) := emit h1 os1 EventStderr ("jsonl read error: " +:+ e +:+ nl) in
      (h2, a1, os2)
  | None => (h1, a1, os1)
  end.

(** [isNoisyCodexStderr]. *)
Definition isNoisyCodexStderr (l : string) : bool :=
  let s := Go.ToLower l in
  Go.Contains s "codex_core::rollout::list" && Go.Contains s "missing rollout path".

(** The body of the loop of [readStderr] for one scanned line. *)
Definition readStderrLine (h : handleExec) (os : OS.t) (text : string)
  : handleExec * OS.t :=
  let l := text +:+ nl in
  if isNoisyCodexStderr l then (h, appendTranscript h os ("[filtered stderr] " +:+ l))
  else emit h (appendTranscript h os l) EventStderr l.

(** What the child process of one turn and the consumer of the events
    do, in the order in which it happens: the scanner of standard output
    delivers a line, the scanner of standard error delivers a line, or
    the consumer takes the oldest event out of the buffer. *)
Inductive step :=
| StdoutLine (l : line)
| StderrLine (text : string)
| Receive.

Record child := mkChild {
  startErr : option string;     (* [StdoutPipe], [StderrPipe] or [Start] failed *)
  schedule : list step;
  scanErr : option string;      (* [sc.Err()] of the scanner of standard output *)
  waitErr : option string       (* [cmd.Wait()] *)
}.

Definition doStep (st : handleExec * Adapter * OS.t) (s : step)
  : handleExec * Adapter * OS.t :=
  let '(h, a, os) := st in
  match s with
  | StdoutLine l => readJSONLLine h a os l
  | StderrLine text => let '(h1, os1) := readStderrLine h os text in (h1, a, os1)
  | Receive => (setEvents h (tail (events h)), a, os)
  end.

(** The argument vector [sendExec] builds. *)
Definition execArgv (h : handleExec) (tid prompt : string) : list string :=
  let argv := globalArgs h in
  let argv := argv ++ ["exec"] in
  let argv := if negb (String.eqb tid "") then argv ++ ["resume"] else argv in
  let argv := argv ++ ["--json"] in
  let argv := if xSkipGitRepoCheck h then argv ++ ["--skip-git-repo-check"] else argv in
  if negb (String.eqb tid "") then argv ++ [tid; prompt] else argv ++ [prompt].

(** [sendExec]: one turn.  The result is the returned error ([None] is
    nil) and the state the turn leaves. *)
Definition sendExec (a : Adapter) (h : handleExec) (os : OS.t) (input : string)
    (c : child) : option string * handleExec * Adapter * OS.t :=
  let prompt := Go.TrimSpace input in
  if String.eqb prompt "" then (None, h, a, os)
  else
    let tid := threadID h in
    let argv := execArgv h tid prompt in
    match startErr c with
    | Some e => (Some e, h, a, os)
    | None =>
        let os1 := OS.Start os (cmdPath h) argv in
        let h1 := setRunning h true in
        let os2 := appendTranscript h1 os1 (nl +:+ "> " +:+ prompt +:+ nl) in
        let '(h2, a2, os3) := foldl doStep (h1, a, os2) (schedule c) in
        let '(h3, os4) :=
          match scanErr c with
          | Some e => emit h2 os3 EventStderr ("jsonl read error: " +:+ e +:+ nl)
          | None => (h2, os3)
          end in
        (waitErr c, setRunning h3 false, a2, os4)
    end.

(** [Adapter.Start] takes the structured variant under this condition. *)
Definition usesExec (a : Adapter) : bool :=
  String.eqb (mode a) "exec" && String.eqb (Go.Base (cmd a)) "codex".

(** What starting the child process of the interactive variant meets:
    the error of [pty.Start], the step of the fallback to pipes that
    fails, with its error, and the process identifier of the child. *)
Inductive pipeStep := StdinPipe | StdoutPipe | StderrPipe | PipeStart.

Definition pipeStepName (s : pipeStep) : string :=
  match s with
  | StdinPipe => "StdinPipe"
  | StdoutPipe => "StdoutPipe"
  | StderrPipe => "StderrPipe"
  | PipeStart => "Start"
  end.

Record spawn := mkSpawn {
  ptyErr : option string;
  pipeErr : option (pipeStep * string);
  pid : Z
}.

(** [startInteractive]: an error ([inl]), or the handle and the content
    of its event channel when the function returns.  The thread store
    is not used. *)
Definition startInteractive (a : Adapter) (os : OS.t) (sid : string) (sp : spawn)
  : (string + handle * list Event) * OS.t :=
  if String.eqb (Go.TrimSpace (cmd a)) "" then (inl "empty adapter cmd", os)
  else
    let started (ptyMode : bool) :=
      let os1 := OS.Start os (cmd a) (args a) in
      let h := mkHandle sid (logDir a) (Some []) in
      let mode := if ptyMode then "pty" else "pipes" in
      let '(now, os2) := OS.Now os1 in
      (inr (h, [mkEvent EventStatus
                  ("started pid=" +:+ Go.Itoa (pid sp) +:+ " mode=" +:+ mode
                   +:+ " cmd=" +:+ cmd a) now 0]), os2) in
    match ptyErr sp with
    | None => started true
    | Some pe =>
        match pipeErr sp with
        | Some (s, e) =>
            (inl ("pty.Start: " +:+ pe +:+ "; " +:+ pipeStepName s +:+ ": " +:+ e), os)
        | None => started false
        end
    end.

(** [Adapter.Start]: an error, or the handle and the content of its
    event channel when the function returns. *)
Definition Start (a : Adapter) (os : OS.t) (sid : string) (sp : spawn)
  : (string + Handle * list Event) * Adapter * OS.t :=
  if usesExec a then
    let '(h, a1, os1) := startExec a os sid in
    (inr (ExecHandle h, events h), a1, os1)
  else
    match startInteractive a os sid sp with
    | (inl e, os1) => (inl e, a, os1)
    | (inr (h, evs), os1) => (inr (PtyHandle h, evs), a, os1)
    end.

(** ** internal/core/session_manager.go *)

(** The session identifier of [NewFresh] and of [NewResume];
    [time.Now().UnixNano()] is the clock reading. *)
Definition freshID (chatID : Z) (os : OS.t) : string * OS.t :=
  let '(now, os1) := OS.Now os in
  ("chat-" +:+ Go.Itoa chatID +:+ "-" +:+ Go.Itoa now +:+ "-fresh", os1).

Definition resumeID (chatID : Z) (os : OS.t) : string * OS.t :=
  let '(now, os1) := OS.Now os in
  ("chat-" +:+ Go.Itoa chatID +:+ "-" +:+ Go.Itoa now, os1).

(** [NewFresh] and [NewResume], as far as the adapter goes: what
    [newWithID] obtains from [Adapter.Start] for the identifier. *)
Definition NewFresh (a : Adapter) (os : OS.t) (chatID : Z) (sp : spawn)
  : (string + Handle * list Event) * Adapter * OS.t :=
  let '(sid, os1) := freshID chatID os in
  Start a os1 sid sp.

Definition NewResume (a : Adapter) (os : OS.t) (chatID : Z) (sp : spawn)
  : (string + Handle * list Event) * Adapter * OS.t :=
  let '(sid, os1) := resumeID chatID os in
  Start a os1 sid sp.

(** ** memory.go: the memory and compaction engine *)

(** [envBool] (codex.go). *)
Definition envBool (os : OS.t) (key : string) (def : bool) : bool :=
  let v := Go.TrimSpace (OS.Getenv os key) in
  if String.eqb v "" then def
  else
    let l := Go.ToLower v in
    if bool_decide (l ∈ ["1"; "true"; "yes"; "y"; "on"]) then true
    else if bool_decide (l ∈ ["0"; "false"; "no"; "n"; "off"]) then false
    else def.

(** Modelled from the spec: [envInt] of package codex, which is not part
    of the sources.  The thresholds are "configurable" with a default;
    the definition is that of [envInt] in internal/config/dotenv.go: the
    default unless the variable holds a positive decimal integer. *)
Definition envInt (os : OS.t) (key : string) (def : Z) : Z :=
  let s := Go.TrimSpace (OS.Getenv os key) in
  if String.eqb s "" then def
  else
    match Go.Atoi s with
    | Some n => if n <=? 0 then def else n
    | None => def
    end.

Definition memoryEnabled (a : Adapter) (os : OS.t) : bool :=
  envBool os "MEMORY_ENABLE" true
  && String.eqb (Go.Base (cmd a)) "codex"
  && String.eqb (mode a) "exec".

Definition memoryTokenThreshold (os : OS.t) : Z := envInt os "MEMORY_TOKEN_THRESHOLD" 60000.

Definition memoryTurnThreshold (os : OS.t) : Z := envInt os "MEMORY_TURN_THRESHOLD" 40.

Definition memoryPath (a : Adapter) : string := Go.Join (logDir a) "memory.json".

Definition zeroMemory : chatMemory := mkMem "" [] [] Go.zeroTime Go.zeroTime 0 0 [].

(** [memoryFile], tag [chats], and [chatMemory] with its eight tags: the
    document written and the value read, as for [stateFile].  Encoding
    fails ([None]) where a time cannot be written. *)
Definition marshalTime `{TextJSON} (t : Go.Time) : option string :=
  timeMarshalJSON (Go.instant t) (Go.location t).

Definition encodeChatMemory `{TextJSON} (m : chatMemory) : option JSON.value :=
  match marshalTime (UpdatedAt m), marshalTime (CompactedAt m) with
  | Some up, Some co =>
      Some (JSON.Obj
              [("summary", JSON.encodeString (Summary m));
               ("rules", JSON.encodeStringSlice (Rules m));
               ("prefs", JSON.encodeStringSlice (Prefs m));
               ("updated_at", JSON.Str up);
               ("compacted_at", JSON.Str co);
               ("tokens_since_compact", JSON.Int (TokensSinceCompact m));
               ("turns_since_compact", JSON.Int (TurnsSinceCompact m));
               ("skill_ideas", JSON.encodeStringSlice (SkillIdeas m))])
  | _, _ => None
  end.

Fixpoint encodeChats `{TextJSON} (l : list (string * option chatMemory))
  : option (list (string * JSON.value)) :=
  match l with
  | [] => Some []
  | (k, cm) :: l' =>
      let v := match cm with
               | None => Some JSON.Null
               | Some m => encodeChatMemory m
               end in
      match v, encodeChats l' with
      | Some d, Some r => Some ((JSON.coerce k, d) :: r)
      | _, _ => None
      end
  end.

Definition encodeMemoryFile `{TextJSON} (c : option (gmap string (option chatMemory)))
  : option JSON.value :=
  match c with
  | None => Some (JSON.Obj [("chats", JSON.Null)])
  | Some m =>
      match encodeChats (JSON.sortedEntries m) with
      | Some ms => Some (JSON.Obj [("chats", JSON.Obj ms)])
      | None => None
      end
  end.

Definition decodeTime `{TextJSON} (old : Go.Time) (v : JSON.value) : option Go.Time :=
  match v with
  | JSON.Null => Some old
  | JSON.Str s => (fun il : Z * Go.Location => Go.mkTime il.1 None il.2) <$> timeUnmarshalJSON s
  | _ => None
  end.

Fixpoint decodeChatMembers `{TextJSON} (m : chatMemory) (ms : list (string * JSON.value))
  : option chatMemory :=
  match ms with
  | [] => Some m
  | (k, v) :: ms' =>
      let next (r : option chatMemory) :=
        match r with
        | Some m' => decodeChatMembers m' ms'
        | None => None
        end in
      let '(mkMem su ru pr up co to tu sk) := m in
      if JSON.keyIs "summary" k then
        next ((fun x => mkMem x ru pr up co to tu sk) <$> JSON.decodeString su v)
      else if JSON.keyIs "rules" k then
        next ((fun x => mkMem su x pr up co to tu sk) <$> JSON.decodeStringSlice v)
      else if JSON.keyIs "prefs" k then
        next ((fun x => mkMem su ru x up co to tu sk) <$> JSON.decodeStringSlice v)
      else if JSON.keyIs "updated_at" k then
        next ((fun x => mkMem su ru pr x co to tu sk) <$> decodeTime up v)
      else if JSON.keyIs "compacted_at" k then
        next ((fun x => mkMem su ru pr up x to tu sk) <$> decodeTime co v)
      else if JSON.keyIs "tokens_since_compact" k then
        next ((fun x => mkMem su ru pr up co x tu sk) <$> JSON.decodeInt to v)
      else if JSON.keyIs "turns_since_compact" k then
        next ((fun x => mkMem su ru pr up co to x sk) <$> JSON.decodeInt tu v)
      else if JSON.keyIs "skill_ideas" k then
        next ((fun x => mkMem su ru pr up co to tu x) <$> JSON.decodeStringSlice v)
      else decodeChatMembers m ms'
  end.

Fixpoint decodeChatMap `{TextJSON} (acc : gmap string (option chatMemory))
    (ms : list (string * JSON.value)) : option (gmap string (option chatMemory)) :=
  match ms with
  | [] => Some acc
  | (k, v) :: ms' =>
      match v with
      | JSON.Null => decodeChatMap (<[k := None]> acc) ms'
      | JSON.Obj cms =>
          match decodeChatMembers zeroMemory cms with
          | Some cm => decodeChatMap (<[k := Some cm]> acc) ms'
          | None => None
          end
      | _ => None
      end
  end.

Fixpoint decodeMemoryMembers `{TextJSON} (c : option (gmap string (option chatMemory)))
    (ms : list (string * JSON.value))
  : option (option (gmap string (option chatMemory))) :=
  match ms with
  | [] => Some c
  | (k, v) :: ms' =>
      if JSON.keyIs "chats" k then
        match v with
        | JSON.Null => decodeMemoryMembers None ms'
        | JSON.Obj es =>
            match decodeChatMap (default ∅ c) es with
            | Some m => decodeMemoryMembers (Some m) ms'
            | None => None
            end
        | _ => None
        end
      else decodeMemoryMembers c ms'
  end.

Definition decodeMemoryFile `{TextJSON} (d : JSON.value)
  : option (option (gmap string (option chatMemory))) :=
  match d with
  | JSON.Null => Some None
  | JSON.Obj ms => decodeMemoryMembers None ms
  | _ => None
  end.

(** [loadMemory]. *)
Definition loadMemory `{TextJSON} (a : Adapter) (os : OS.t) : Adapter :=
  match OS.ReadFile os (memoryPath a) with
  | Some (OS.Doc d) =>
      match decodeMemoryFile d with
      | Some (Some m) => setMem a (Some m)
      | _ => a
      end
  | _ => a
  end.

(** [saveMemoryLocked]: nothing is written when the memory cannot be
    encoded; the errors of the two file operations are dropped. *)
Definition saveMemoryLocked `{TextJSON} (a : Adapter) (os : OS.t) : OS.t :=
  match encodeMemoryFile (mem a) with
  | None => os
  | Some d =>
      let tmp := memoryPath a +:+ ".tmp" in
      let os1 := (OS.WriteFile os tmp (OS.Doc d)).1 in
      (OS.Rename os1 tmp (memoryPath a)).1
  end.

(** [a.mem[chatKey]], also on a nil map; a nil pointer is [None]. *)
Definition memOf (c : option (gmap string (option chatMemory))) (chatKey : string)
  : option chatMemory :=
  match c with
  | Some m => default None (m !! chatKey)
  | None => None
  end.

(** [getMem]: the entry of the conversation, created when it is missing.
    The pointer the Go function returns is the entry under [chatKey] of
    the adapter returned here; [None] is the nil result. *)
Definition getMem (a : Adapter) (chatKey : string) : option chatMemory * Adapter :=
  if String.eqb chatKey "" then (None, a)
  else
    let c := default ∅ (mem a) in
    match default None (c !! chatKey) with
    | Some m => (Some m, setMem a (Some c))
    | None => (Some zeroMemory, setMem a (Some (<[chatKey := Some zeroMemory]> c)))
    end.

(** [mergeUnique]. *)
Definition push (st : gmap string bool * list string) (s : string)
  : gmap string bool * list string :=
  let '(seen, out) := st in
  let s := Go.TrimSpace s in
  if String.eqb s "" then st
  else if default false (seen !! s) then st
  else (<[s := true]> seen, out ++ [s]).

Definition mergeUnique (base add : list string) (limit : Z) : list string :=
  let st := foldl push (∅, []) base in
  let st := foldl push st add in
  let out := st.2 in
  if (0 <? limit) && (limit <? Z.of_nat (length out)) then take (Z.to_nat limit) out
  else out.

(** [trimList]. *)
Definition trimList (l : list string) (limit : Z) : list string :=
  let out :=
    foldl (fun out s =>
             let s := Go.TrimSpace s in
             if String.eqb s "" then out else out ++ [s]) [] l in
  if (0 <? limit) && (limit <? Z.of_nat (length out)) then take (Z.to_nat limit) out
  else out.

(** [extractJSON]. *)
Definition extractJSON (s : string) : string :=
  let s := Go.TrimSpace s in
  if String.eqb s "" then s
  else
    let i := Go.IndexByte s "{"%char in
    let j := Go.LastIndexByte s "}"%char in
    if (0 <=? i) && (i <? j) then Go.slice s i (j + 1) else s.

(** What the child process of a compaction leaves in the two buffers of
    [runCodexResumeJSON].  The scanner reads the buffer of standard
    output itself, so that what [stdout.String()] returns after the loop
    is the part the scanner has not read: nothing when it has reached
    the end of the output ([unread] is [None]), and what lies beyond the
    part read when it has given up on a line that does not fit into its
    buffer. *)
Record capture := mkCapture {
  runErr : option string;       (* [cmd.Run()] *)
  outLines : list line;         (* the lines of standard output the scanner delivers *)
  unread : option string;       (* what it leaves unread when it stops before the end *)
  errText : string              (* [stderr.String()] *)
}.

(** [runCodexResumeJSON]: an error ([inl]) or the reply ([inr]). *)
Definition runCodexResumeJSON (a : Adapter) (os : OS.t) (tid prompt : string)
    (c : capture) : (string + string) * OS.t :=
  if String.eqb tid "" then (inl "empty threadID", os)
  else
    let argv := args a ++ ["exec"; "resume"; "--json"] in
    let argv := if skipGitRepoCheck a then argv ++ ["--skip-git-repo-check"] else argv in
    let argv := argv ++ [tid; prompt] in
    let os1 := OS.Start os (cmd a) argv in
    match runErr c with
    | Some e =>
        (inl ("compact run failed: " +:+ e +:+ ": " +:+ Go.TrimSpace (errText c)), os1)
    | None =>
        let last :=
          foldl (fun last l =>
                   match unmarshalLine l with
                   | Some ev =>
                       match jsonItem ev with
                       | Some it =>
                           if String.eqb (jsonType ev) "item.completed"
                              && String.eqb (itemType it) "agent_message"
                           then itemText it else last
                       | None => last
                       end
                   | None => last
                   end) "" (outLines c) in
        if String.eqb (Go.TrimSpace last) "" then (inr (default "" (unread c)), os1)
        else (inr last, os1)
    end.

(** The prompt of [compactChat]. *)
Definition q : string := String "034"%char "".

Definition compactPrompt : string :=
  "请你把我们到目前为止的对话内容进行“压缩整理”，并输出严格 JSON（不要 markdown，不要代码块），格式：" +:+ nl +:+
  "{" +:+ nl +:+
  "  " +:+ q +:+ "summary" +:+ q +:+ ": " +:+ q +:+ "...（200-600字中文摘要）..." +:+ q +:+ "," +:+ nl +:+
  "  " +:+ q +:+ "durable_rules" +:+ q +:+ ": [" +:+ q +:+ "...长期规则..." +:+ q +:+ "]," +:+ nl +:+
  "  " +:+ q +:+ "user_prefs" +:+ q +:+ ": [" +:+ q +:+ "...偏好..." +:+ q +:+ "]," +:+ nl +:+
  "  " +:+ q +:+ "skill_ideas" +:+ q +:+ ": [" +:+ q
    +:+ "...可考虑沉淀为 skill 的提示/流程（可选）..." +:+ q +:+ "]" +:+ nl +:+
  "}" +:+ nl +:+
  "要求：" +:+ nl +:+
  "- summary 聚焦事实、结论、待办" +:+ nl +:+
  "- durable_rules 只保留用户明确、多次强调、长期适用的规则（最多 20 条）" +:+ nl +:+
  "- user_prefs 只保留写作/格式/交互偏好（最多 20 条）" +:+ nl +:+
  "- skill_ideas 给出 0-5 条可升级沉淀的方向" +:+ nl.

(** [compactChat]: the returned error ([None] is nil) and the state it
    leaves. *)
Definition compactChat `{TextJSON} (a : Adapter) (os : OS.t) (key tid : string)
    (c : capture) : option string * Adapter * OS.t :=
  match runCodexResumeJSON a os tid compactPrompt c with
  | (inl err, os1) => (Some err, a, os1)
  | (inr text, os1) =>
      let '(res, failed) := unmarshalCompactResult (extractJSON text) in
      let res :=
        if failed
        then mkResult (Go.TrimSpace text) (resRules res) (resPrefs res) (resSkillIdeas res)
        else res in
      let cm := default ∅ (mem a) in
      let m := default zeroMemory (default None (cm !! key)) in
      let '(compactedAt, os2) := OS.NowTime os1 in
      let '(updatedAt, os3) := OS.NowTime os2 in
      let m1 :=
        mkMem (Go.TrimSpace (resSummary res))
          (mergeUnique (Rules m) (resRules res) 20)
          (mergeUnique (Prefs m) (resPrefs res) 20)
          updatedAt compactedAt 0 0
          (trimList (resSkillIdeas res) 5) in
      let a1 := setMem a (Some (<[key := Some m1]> cm)) in
      let os4 := saveMemoryLocked a1 os3 in
      let '(a2, os5) := dropThread a1 os4 key in
      (None, a2, os5)
  end.

(** A compaction that [onTurnCompleted] has started in the background:
    the arguments its closure captured. *)
Record task := mkTask {
  taskKey : string;
  taskThread : string;
  tokensNow : Z;
  turnsNow : Z
}.

(** [onTurnCompleted], up to the [go] statement: the state it leaves and
    the compaction it started, if any. *)
Definition onTurnCompleted `{TextJSON} (a : Adapter) (os : OS.t) (key tid : string)
    (usage : codexUsage) : Adapter * OS.t * option task :=
  if negb (memoryEnabled a os) || String.eqb key "" then (a, os, None)
  else
    match getMem a key with
    | (None, a1) => (a1, os, None)
    | (Some m, a1) =>
        let turns := Go.wrap64 (TurnsSinceCompact m + 1) in
        let tokens :=
          Go.wrap64 (TokensSinceCompact m
                     + Go.wrap64 (InputTokens usage + OutputTokens usage)) in
        let '(now, os1) := OS.NowTime os in
        let m1 :=
          mkMem (Summary m) (Rules m) (Prefs m) now (CompactedAt m) tokens turns
            (SkillIdeas m) in
        let need :=
          (memoryTokenThreshold os1 <=? tokens) || (memoryTurnThreshold os1 <=? turns) in
        let a2 := setMem a1 (Some (<[key := Some m1]> (default ∅ (mem a1)))) in
        let os2 := saveMemoryLocked a2 os1 in
        if negb need || String.eqb tid "" then (a2, os2, None)
        else
          let c := default ∅ (compacting a2) in
          let a3 := setCompacting a2 (Some c) in
          if default false (c !! key) then (a3, os2, None)
          else (setCompacting a3 (Some (<[key := true]> c)), os2,
                Some (mkTask key tid tokens turns))
    end.

(** The body of the goroutine of [onTurnCompleted], run to its end on
    the state it finds: the texts passed to [notify] (none when [notify]
    is nil) and the state it leaves. *)
Definition ideaLines (ideas : list string) : string :=
  foldl (fun msg it =>
           let it := Go.TrimSpace it in
           if String.eqb it "" then msg else msg +:+ "- " +:+ it +:+ nl) "" ideas.

Definition compactionTask `{TextJSON} (a : Adapter) (os : OS.t) (t : task)
    (notify : bool) (c : capture) : list string * Adapter * OS.t :=
  let started :=
    "已达到压缩阈值（tokens=" +:+ Go.Itoa (tokensNow t) +:+ " turns=" +:+ Go.Itoa (turnsNow t)
    +:+ "），开始整理对话摘要与持久记忆..." +:+ nl in
  let release (a : Adapter) :=
    setCompacting a (Some (<[taskKey t := false]> (default ∅ (compacting a)))) in
  match compactChat a os (taskKey t) (taskThread t) c with
  | (Some err, a1, os1) =>
      let failed := "对话压缩失败（将继续使用原会话）： " +:+ err +:+ nl in
      (if notify then [started; failed] else [], release a1, os1)
  | (None, a1, os1) =>
      if notify then
        let '(m, a2) := getMem a1 (taskKey t) in
        let rn := match m with Some m => Z.of_nat (length (Rules m)) | None => 0 end in
        let ideas := match m with Some m => SkillIdeas m | None => [] end in
        let msg := "已完成对话压缩：已生成摘要；持久规则 " +:+ Go.Itoa rn +:+ " 条。" in
        let msg :=
          match ideas with
          | [] => msg
          | _ => msg +:+ nl +:+ "可考虑沉淀为 skills 的方向：" +:+ nl +:+ ideaLines ideas
          end in
        ([started; msg], release a2, os1)
      else ([], release a1, os1)
  end.

(** [readLoopPTY], one round of its loop on a chunk of [n > 0] bytes
    read from the terminal.  [pending] is empty whenever a round starts:
    a round that leaves it non-empty forwards and empties it.  The send
    on the channel blocks while the buffer is full, so nothing is
    dropped; the log file is the session's transcript. *)
Definition readLoopPTYRound (h : handle) (events : list Event) (os : OS.t)
    (chunk : list byte) : handle * list Event * OS.t :=
  let pending := [] ++ chunk in
  let '(h1, pending) := handleTermQueries h pending in
  match pending with
  | [] => (h1, events, os)
  | _ =>
      let s := string_of_list_byte pending in
      let os1 := OS.AppendFile os (transcriptPath (hLogDir h1) (hSessionID h1)) s in
      let '(now, os2) := OS.Now os1 in
      (h1, events ++ [mkEvent EventStdout s now 0], os2)
  end.

(** ** Concrete values used in examples *)

Module Sample.

(** A stand-in for the text level: every reply of a compaction is
    rejected as JSON; the local zone is UTC, and an instant is written
    as the decimal number of its nanoseconds when its year is one of
    0..9999. *)
Definition writeInstant (i : Z) : option string :=
  if (-62167219200 * 10 ^ 9 <=? i) && (i <? 253402300800 * 10 ^ 9)
  then Some (DecimalString.NilEmpty.string_of_int (Z.to_int i)) else None.

Definition readInstant (s : string) : option (Z * Go.Location) :=
  (fun d => (Z.of_int d, Go.UTC)) <$> DecimalString.NilEmpty.int_of_string s.

Lemma readInstant_writeInstant (i : Z) (s : string) :
  writeInstant i = Some s -> readInstant s = Some (i, Go.UTC).
Proof.
  unfold writeInstant, readInstant. destruct (_ && _); [| discriminate].
  intros [= <-]. rewrite DecimalString.NilEmpty.isi. simpl. f_equal. f_equal.
  apply DecimalZ.of_to.
Qed.

#[local] Instance textJSON : TextJSON := {|
  unmarshalCompactResult := fun _ => (mkResult "" [] [] [], true);
  zoneOffset := fun _ l => match l with Go.FixedZone o => o | _ => 0 end;
  timeMarshalJSON := fun i _ => writeInstant i;
  timeUnmarshalJSON := readInstant;
  time_json_roundtrip := fun i l s E _ =>
    ex_intro _ Go.UTC (readInstant_writeInstant i s E)
|}.

(** The reply of a compaction used in examples, and a stand-in for the
    text level that reads this reply as [json.Unmarshal] does and
    rejects every other text. *)
Definition reply : string :=
  "{" +:+ q +:+ "summary" +:+ q +:+ ": " +:+ q +:+ " done " +:+ q +:+ ", "
  +:+ q +:+ "durable_rules" +:+ q +:+ ": [" +:+ q +:+ "b" +:+ q +:+ ", " +:+ q +:+ " c"
  +:+ q +:+ "], "
  +:+ q +:+ "user_prefs" +:+ q +:+ ": [" +:+ q +:+ "short" +:+ q +:+ "], "
  +:+ q +:+ "skill_ideas" +:+ q +:+ ": [" +:+ q +:+ "idea" +:+ q +:+ ", " +:+ q +:+ q
  +:+ "]}".

Definition replyResult : compactResult :=
  mkResult " done " ["b"; " c"] ["short"] ["idea"; ""].

#[local] Instance replyJSON : TextJSON := {|
  unmarshalCompactResult := fun s =>
    if String.eqb s reply then (replyResult, false) else (mkResult "" [] [] [], true);
  zoneOffset := fun _ l => match l with Go.FixedZone o => o | _ => 0 end;
  timeMarshalJSON := fun i _ => writeInstant i;
  timeUnmarshalJSON := readInstant;
  time_json_roundtrip := fun i l s E _ =>
    ex_intro _ Go.UTC (readInstant_writeInstant i s E)
|}.

(** Nothing on disk, no fault, an empty environment, a clock that counts
    its readings. *)
Definition os0 : OS.t :=
  OS.mk ∅ ∅ ∅ (fun n => Z.of_nat n) (fun n => 1000 + Z.of_nat n) 0 [].

Definition withEnv (os : OS.t) (key value : string) : OS.t :=
  OS.mk (OS.files os) (OS.faulty os) (<[key := value]> (OS.env os)) (OS.wall os)
    (OS.mono os) (OS.tick os) (OS.spawned os).

Definition a0 : Adapter :=
  mkAdapter "codex" ["--cd"; "/work"] "/work" "logs" [] "exec" true "logs/state.json"
    (Some ∅) None None.

(** The adapter with a thread and a memory for conversation 42. *)
Definition mem42 : chatMemory :=
  mkMem "old summary" ["a"; "b"] ["p"] Go.zeroTime Go.zeroTime 70000 3 ["old idea"].

Definition a42 : Adapter :=
  setMem (setThreads a0 (Some {[ "42" := "T1" ]})) (Some {[ "42" := Some mem42 ]}).


Definition h0 : handleExec :=
  mkExec "chat-42-1700000000" "42" "logs" "codex" ["--cd"; "/work"] true "" false [] true.

Definition threadStarted (tid : string) : line :=
  mkLine (Some (JSON.Obj [("type", JSON.Str "thread.started"); ("thread_id", JSON.Str tid)]))
    "".

Definition agentMessage (text : string) : line :=
  mkLine
    (Some (JSON.Obj
             [("type", JSON.Str "item.completed");
              ("item", JSON.Obj [("type", JSON.Str "agent_message"); ("text", JSON.Str text)])]))
    "".

Definition turnCompleted (input output : Z) : line :=
  mkLine
    (Some (JSON.Obj
             [("type", JSON.Str "turn.completed");
              ("usage", JSON.Obj [("input_tokens", JSON.Int input);
                                  ("output_tokens", JSON.Int output)])]))
    "".

(** A handle whose event buffer is full. *)
Definition hFull : handleExec :=
  setEvents h0 (replicate eventsCap (mkEvent EventStatus "tick" 0 0)).

End Sample.

(** ** memory.go: the prefix of a prompt *)

(** The loop of [memoryPrefix] over rules or preferences: one line
    [- entry] per entry that is not blank, written to the builder. *)
Definition writeBullets (b : string) (l : list string) : string :=
  foldl (fun b r =>
           let r := Go.TrimSpace r in
           if String.eqb r "" then b else b +:+ "- " +:+ r +:+ nl) b l.

(** [memoryPrefix]: the text it returns and the adapter it leaves
    ([getMem] registers a conversation it does not know). *)
Definition memoryPrefix (a : Adapter) (os : OS.t) (chatKey : string) : string * Adapter :=
  if negb (memoryEnabled a os) then ("", a)
  else
    match getMem a chatKey with
    | (None, a1) => ("", a1)
    | (Some m, a1) =>
        let b := "" in
        let b :=
          match Rules m with
          | [] => b
          | _ =>
              writeBullets (b +:+ "持久记忆规则（长期生效，优先遵守）：" +:+ nl) (Rules m)
              +:+ nl
          end in
        let b :=
          if negb (String.eqb (Summary m) "")
          then b +:+ "对话摘要（用于续聊）：" +:+ nl +:+ Summary m +:+ nl +:+ nl
          else b in
        let b :=
          match Prefs m with
          | [] => b
          | _ => writeBullets (b +:+ "偏好（尽量遵守）：" +:+ nl) (Prefs m) +:+ nl
          end in
        (if (String.length b =? 0)%nat then "" else b, a1)
    end.

(** ** codex.go: building the adapter *)

(** [hasCdFlag] and [hasFlag]. *)
Fixpoint hasCdFlag (args : list string) : bool :=
  match args with
  | [] => false
  | x :: rest => if String.eqb x "-C" || String.eqb x "--cd" then true else hasCdFlag rest
  end.

Fixpoint hasFlag (args : list string) (want : string) : bool :=
  match args with
  | [] => false
  | x :: rest => if String.eqb x want then true else hasFlag rest want
  end.

(** [detectFixedArgs], from [help], the lower-cased text
    [strings.ToLower(readHelp(cmd))] of the command's help.  The last
    loop removes duplicates in place, keeping first occurrences. *)
Definition detectFixedArgs (help : string) : list string :=
  if String.eqb help "" then []
  else
    let out := [] in
    let out :=
      if Go.Contains help "--no-color" then out ++ ["--no-color"]
      else if Go.Contains help "--color" && Go.Contains help "never"
           then out ++ ["--color=never"]
           else out in
    let out :=
      if Go.Contains help "--no-ansi" then out ++ ["--no-ansi"]
      else if Go.Contains help "--ansi" && Go.Contains help "never"
           then out ++ ["--ansi=never"]
           else out in
    let out := if Go.Contains help "--no-progress" then out ++ ["--no-progress"] else out in
    (foldl (fun (st : gset string * list string) a =>
              if bool_decide (a ∈ st.1) then st else ({[a]} ∪ st.1, st.2 ++ [a]))
       (∅, []) out).2.

(** [New].  [help] is the lower-cased help text [detectFixedArgs] works
    on; the command run for it is recorded. *)
Definition New (os : OS.t) (help : string) (cmd : string) (args : list string)
    (dir logDir : string) : Adapter * OS.t :=
  let logDir := if String.eqb (Go.TrimSpace logDir) "" then "logs" else logDir in
  let mode := Go.ToLower (Go.TrimSpace (OS.Getenv os "CODEX_DRIVER")) in
  let mode :=
    if String.eqb mode ""
    then if String.eqb (Go.Base cmd) "codex" then "exec" else "interactive"
    else mode in
  let mode :=
    if negb (String.eqb mode "exec") && negb (String.eqb mode "interactive")
    then "interactive" else mode in
  let skipGit := envBool os "CODEX_SKIP_GIT_REPO_CHECK" (String.eqb (Go.Base cmd) "codex") in
  let enableSearch := envBool os "CODEX_ENABLE_SEARCH" false in
  let os1 := OS.Start os cmd ["--help"] in
  let fixed := detectFixedArgs help in
  let merged := fixed ++ args in
  let merged :=
    if negb (String.eqb dir "") && String.eqb (Go.Base cmd) "codex" && negb (hasCdFlag merged)
    then ["--cd"; dir] ++ merged else merged in
  let merged :=
    if enableSearch && String.eqb (Go.Base cmd) "codex" && negb (hasFlag merged "--search")
    then ["--search"] ++ merged else merged in
  let a :=
    mkAdapter cmd merged dir logDir fixed mode skipGit (Go.Join logDir "state.json")
      (Some ∅) None None in
  (loadState a os1, os1).

(** ** codex.go: sending to a session *)

(** [Adapter.Send].  For the structured variant [c] is the child process
    of the turn; for the interactive variant [werr] is the error of the
    write to the child's input, and the write is recorded with the bytes
    passed to it. *)
Definition Send (a : Adapter) (os : OS.t) (h : Handle) (input : string) (c : child)
    (werr : option string) : option string * Handle * Adapter * OS.t :=
  match h with
  | ExecHandle hh =>
      let '(e, hh1, a1, os1) := sendExec a hh os input c in
      (e, ExecHandle hh1, a1, os1)
  | PtyHandle hh =>
      match stdin hh with
      | None => (Some "session not started", h, a, os)
      | Some w =>
          let input := if negb (Go.HasSuffix input nl) then input +:+ nl else input in
          (werr,
           PtyHandle (mkHandle (hSessionID hh) (hLogDir hh)
                        (Some (w ++ [list_byte_of_string input]))),
           a, os)
      end
  | OtherHandle => (Some "unknown handle type", h, a, os)
  end.

(** ** internal/core: the session manager *)

Module Core.

(** The result of a call that returns a value and an [error]; the error
    is kept as its message. *)
Inductive result (T : Type) :=
| Ok (x : T)
| Err (e : string).
Arguments Ok {T} x.
Arguments Err {T} e.

(** The interface [Adapter], over the state [A] of the adapter, the
    handles [H] it gives out (never nil with a nil error) and the
    channels [Ch] of events.  A handle is a reference: what it refers
    to belongs to the state of the adapter, which a call may change
    together with the operating system. *)
Class AdapterOps (A H Ch : Type) := {
  adapterStart : A -> OS.t -> string -> result H * A * OS.t;
  adapterStop : A -> OS.t -> H -> option string * A * OS.t;
  adapterSend : A -> OS.t -> H -> string -> option string * A * OS.t;
  adapterEvents : H -> Ch
}.

Section Manager.
Context {A H Ch : Type} `{!AdapterOps A H Ch}.

(** [Session]; times are instants in nanoseconds. *)
Record Session := mkSession {
  ChatID : Z;
  SessionID : string;
  CreatedAt : Z;
  h : H;
  events : Ch;
  lastErr : string;
  lastSeen : Z;
  running : bool
}.

Definition setLastSeen (t : Z) (s : Session) : Session :=
  mkSession (ChatID s) (SessionID s) (CreatedAt s) (h s) (events s) (lastErr s) t (running s).

Definition setLastErr (e : string) (s : Session) : Session :=
  mkSession (ChatID s) (SessionID s) (CreatedAt s) (h s) (events s) e (lastSeen s) (running s).

Definition setRunning (v : bool) (s : Session) : Session :=
  mkSession (ChatID s) (SessionID s) (CreatedAt s) (h s) (events s) (lastErr s) (lastSeen s) v.

(** [SessionManager]: the map [sessions] holds pointers, and a pointer
    is the position of its [Session] among the sessions allocated so
    far.  Methods run one after the other. *)
Record SessionManager := mkManager {
  heap : list Session;
  sessions : gmap Z nat
}.

(** [NewSessionManager]. *)
Definition NewSessionManager : SessionManager := mkManager [] ∅.

(** [m.sessions[chatID]]: the pointer and the session it points to, or
    nil. *)
Definition lookupSession (m : SessionManager) (chatID : Z) : option (nat * Session) :=
  match sessions m !! chatID with
  | Some p =>
      match heap m !! p with
      | Some s => Some (p, s)
      | None => None
      end
  | None => None
  end.

(** A write through the pointer [p]. *)
Definition update (m : SessionManager) (p : nat) (f : Session -> Session) : SessionManager :=
  mkManager (alter f p (heap m)) (sessions m).

(** [newWithID]: the pointer to the new session and the session, or the
    error of [Start]. *)
Definition newWithID (m : SessionManager) (a : A) (os : OS.t) (chatID : Z) (sid : string)
  : result (nat * Session) * SessionManager * A * OS.t :=
  match adapterStart a os sid with
  | (Err e, a1, os1) => (Err e, m, a1, os1)
  | (Ok hd, a1, os1) =>
      let '(created, os2) := OS.Now os1 in
      let '(seen, os3) := OS.Now os2 in
      let s := mkSession chatID sid created hd (adapterEvents hd) "" seen false in
      let s := setRunning true s in
      let old := (fun ps : nat * Session => h ps.2) <$> lookupSession m chatID in
      let m1 := mkManager (heap m ++ [s]) (<[chatID := length (heap m)]> (sessions m)) in
      match old with
      | Some oh =>
          let '(_, a2, os4) := adapterStop a1 os3 oh in
          (Ok (length (heap m), s), m1, a2, os4)
      | None => (Ok (length (heap m), s), m1, a1, os3)
      end
  end.

(** [NewFresh] and [NewResume]. *)
Definition NewFresh (m : SessionManager) (a : A) (os : OS.t) (chatID : Z)
  : result (nat * Session) * SessionManager * A * OS.t :=
  let '(sid, os1) := freshID chatID os in
  newWithID m a os1 chatID sid.

Definition NewResume (m : SessionManager) (a : A) (os : OS.t) (chatID : Z)
  : result (nat * Session) * SessionManager * A * OS.t :=
  let '(sid, os1) := resumeID chatID os in
  newWithID m a os1 chatID sid.

(** [GetOrCreate]. *)
Definition GetOrCreate (m : SessionManager) (a : A) (os : OS.t) (chatID : Z)
  : result (nat * Session) * SessionManager * A * OS.t :=
  match lookupSession m chatID with
  | Some ps => (Ok ps, m, a, os)
  | None => NewResume m a os chatID
  end.

(** [Send]: the session and the error it returns. *)
Definition Send (m : SessionManager) (a : A) (os : OS.t) (chatID : Z) (input : string)
  : option (nat * Session) * option string * SessionManager * A * OS.t :=
  match GetOrCreate m a os chatID with
  | (Err e, m1, a1, os1) => (None, Some e, m1, a1, os1)
  | (Ok (p, s), m1, a1, os1) =>
      let '(now, os2) := OS.Now os1 in
      let m2 := update m1 p (setLastSeen now) in
      let s := setLastSeen now s in
      match (if negb (running s) then NewResume m2 a1 os2 chatID
             else (Ok (p, s), m2, a1, os2)) with
      | (Err e, m3, a3, os3) => (None, Some e, m3, a3, os3)
      | (Ok (q, s2), m3, a3, os3) =>
          match adapterSend a3 os3 (h s2) input with
          | (Some e, a4, os4) =>
              (Some (q, setLastErr e s2), Some e, update m3 q (setLastErr e), a4, os4)
          | (None, a4, os4) => (Some (q, s2), None, m3, a4, os4)
          end
      end
  end.

(** [Cancel]. *)
Definition Cancel (m : SessionManager) (a : A) (os : OS.t) (chatID : Z)
  : option string * A * OS.t :=
  match lookupSession m chatID with
  | Some (_, s) => adapterStop a os (h s)
  | None => (None, a, os)
  end.

(** [Status]. *)
Definition Status (m : SessionManager) (chatID : Z) : string * bool :=
  match lookupSession m chatID with
  | None => ("no session", false)
  | Some (_, s) =>
      let r := if running s then "running" else "stopped" in
      if negb (String.eqb (lastErr s) "")
      then (SessionID s +:+ " (" +:+ r +:+ ") lastErr=" +:+ lastErr s, true)
      else (SessionID s +:+ " (" +:+ r +:+ ")", true)
  end.

(** [Session.IsRunning] and [Session.MarkStopped], through a pointer. *)
Definition IsRunning (m : SessionManager) (p : nat) : bool :=
  match heap m !! p with
  | Some s => running s
  | None => false
  end.

Definition MarkStopped (m : SessionManager) (p : nat) (reason : string) : SessionManager :=
  update m p (fun s =>
                let s := setRunning false s in
                if negb (String.eqb reason "") then setLastErr reason s else s).

End Manager.

Arguments Session : clear implicits.
Arguments SessionManager : clear implicits.

End Core.

(** An adapter that records the calls made to it: its handles are the
    session identifiers, and it refuses to start a session without
    one. *)
Module CoreSample.

#[global] Instance recorder : Core.AdapterOps (list string) string unit := {|
  Core.adapterStart := fun a os sid =>
    if String.eqb sid "" then (Core.Err "no id", a, os)
    else (Core.Ok sid, a ++ ["start " +:+ sid], os);
  Core.adapterStop := fun a os hd => (None, a ++ ["stop " +:+ hd], os);
  Core.adapterSend := fun a os hd input => (None, a ++ ["send " +:+ hd +:+ " " +:+ input], os);
  Core.adapterEvents := fun _ => tt
|}.

(** A manager without sessions, one with a running session, and one
    whose session has stopped. *)
Definition m0 : Core.SessionManager string unit := Core.NewSessionManager.

Definition s1 : Core.Session string unit :=
  Core.mkSession 42 "chat-42-7" 7 "chat-42-7" tt "" 8 true.

Definition m1 : Core.SessionManager string unit := Core.mkManager [s1] {[42 := 0%nat]}.

Definition s2 : Core.Session string unit :=
  Core.mkSession 42 "chat-42-7" 7 "chat-42-7" tt "exit" 8 false.

Definition m2 : Core.SessionManager string unit := Core.mkManager [s2] {[42 := 0%nat]}.

End CoreSample.

(** ** internal/config: the loader of the .env file *)

Module Config.

Definition dquote : ascii := "034"%char.
Definition squote : ascii := "039"%char.
Definition NUL : ascii := "000"%char.

(** [strings.Cut]. *)
Definition Cut (s sep : string) : string * string * bool :=
  let i := Go.Index (Go.bytes s) (Go.bytes sep) in
  if 0 <=? i then (Go.slice s 0 i, Go.slice s (i + Go.len sep) (Go.len s), true)
  else (s, "", false).

(** [stripInlineComment]. *)
Definition stripInlineComment (v : string) : string :=
  let v := Go.TrimSpace v in
  match v with
  | EmptyString => v
  | String c _ =>
      if Ascii.eqb c dquote || Ascii.eqb c squote then v
      else
        let i := Go.IndexByte v "#" in
        if 0 <=? i then Go.TrimSpace (Go.slice v 0 i) else v
  end.

(** [trimQuotes]. *)
Definition trimQuotes (s : string) : string :=
  if 2 <=? Go.len s then
    let first := String.get 0 s in
    let last := String.get (String.length s - 1) s in
    if bool_decide (first = Some dquote) && bool_decide (last = Some dquote)
       || bool_decide (first = Some squote) && bool_decide (last = Some squote)
    then Go.slice s 1 (Go.len s - 1)
    else s
  else s.

(** [os.Setenv] on the environment: it fails, and changes nothing, on an
    empty key, on a key with [=] or a zero byte and on a value with a
    zero byte. *)
Definition hasByte (s : string) (c : ascii) : bool := 0 <=? Go.IndexByte s c.

Definition validSetenv (k v : string) : bool :=
  negb (String.eqb k "") && negb (hasByte k "=") && negb (hasByte k NUL)
  && negb (hasByte v NUL).

Definition Setenv (env : gmap string string) (k v : string) : gmap string string :=
  if validSetenv k v then <[k := v]> env else env.

(** The body of the loop of [LoadDotEnv] on one line of the file. *)
Definition loadLine (override : bool) (env : gmap string string) (text : string)
  : gmap string string :=
  let line := Go.TrimSpace text in
  if String.eqb line "" || Go.HasPrefix line "#" then env
  else
    let line :=
      if Go.HasPrefix line "export " then Go.TrimSpace (Go.TrimPrefix line "export ")
      else line in
    let '(k, v, ok) := Cut line "=" in
    if negb ok then env
    else
      let k := Go.TrimSpace k in
      if String.eqb k "" then env
      else if negb override && bool_decide (is_Some (env !! k)) then env
      else
        let env := if override then delete k env else env in
        if bool_decide (is_Some (env !! k)) && negb override then env
        else
          let v := Go.TrimSpace v in
          let v := stripInlineComment v in
          let v := trimQuotes v in
          Setenv env k v.

(** [bufio.Scanner] with [ScanLines] and the buffer [LoadDotEnv] gives
    it: the lines, without their end-of-line markers, up to the first
    one that does not fit into 1024*1024 bytes, and whether there is
    such a line.  [cur] is the current line in reverse, [n] its
    length. *)
Definition maxTokenSize : Z := 1024 * 1024.

Definition dropCR (cur : list ascii) : list ascii :=
  match cur with
  | c :: r => if Ascii.eqb c "013" then r else cur
  | [] => cur
  end.

Fixpoint scanFrom (cur : list ascii) (n : Z) (l : list ascii) : list string * bool :=
  match l with
  | [] =>
      match cur with
      | [] => ([], false)
      | _ => ([string_of_list_ascii (rev (dropCR cur))], false)
      end
  | c :: l' =>
      if Ascii.eqb c "010" then
        let '(ls, e) := scanFrom [] 0 l' in
        (string_of_list_ascii (rev (dropCR cur)) :: ls, e)
      else if maxTokenSize <=? n + 1 then ([], true)
      else scanFrom (c :: cur) (n + 1) l'
  end.

Definition scanLines (s : string) : list string * bool := scanFrom [] 0 (Go.bytes s).

Definition setEnv (os : OS.t) (e : gmap string string) : OS.t :=
  OS.mk (OS.files os) (OS.faulty os) e (OS.wall os) (OS.mono os) (OS.tick os)
    (OS.spawned os).

(** The errors [LoadDotEnv] returns. *)
Inductive loadError :=
| OpenFailed
| TokenTooLong.

Section DotEnv.

(** [filepath.Clean], and the bytes of a file that holds a document. *)
Variable Clean : string -> string.
Variable textOf : JSON.value -> string.

(** [LoadDotEnv]. *)
Definition LoadDotEnv (os : OS.t) (path : string) : option loadError * OS.t :=
  let path := if String.eqb (Go.TrimSpace path) "" then ".env" else path in
  let override := envBool os "DOTENV_OVERRIDE" false in
  if bool_decide (Clean path ∈ OS.faulty os) then (Some OpenFailed, os)
  else
    match OS.files os !! Clean path with
    | None => (None, os)
    | Some f =>
        let s := match f with OS.Text s => s | OS.Doc d => textOf d end in
        let '(lines, long) := scanLines s in
        (if long then Some TokenTooLong else None,
         setEnv os (foldl (loadLine override) (OS.env os) lines))
    end.

End DotEnv.

End Config.

(** A .env file with three assignments, two of them to the same key, in
    an environment that sets one of the keys. *)
Module ConfigSample.

Definition dotenv : string :=
  "# settings" +:+ nl +:+ "export A=1 # first" +:+ nl +:+ "B='x y'" +:+ nl +:+ "A=2" +:+ nl.

Definition os1 : OS.t :=
  OS.mk {[".env" := OS.Text dotenv]} ∅ {["B" := "0"]} (fun n => Z.of_nat n)
    (fun n => Z.of_nat n) 0 [].

End ConfigSample.

(** * Notions the statements use *)

(** Strings, thread maps and memories that [encoding/json] carries:
    strings and keys that are valid UTF-8, counters that are values of
    Go's [int], times that [MarshalJSON] accepts and whose offset is a
    whole number of minutes. *)
Definition validString (s : string) : Prop := Go.ValidString s = true.

Definition validThreads (t : gmap string string) : Prop :=
  forall k v, t !! k = Some v -> validString k /\ validString v.

Definition validInt (n : Z) : Prop := - 2 ^ 63 <= n < 2 ^ 63.

Definition writableTime `{TextJSON} (t : Go.Time) : Prop :=
  is_Some (marshalTime t) /\ zoneOffset (Go.instant t) (Go.location t) mod 60 = 0.

Definition validMemory `{TextJSON} (m : chatMemory) : Prop :=
  validString (Summary m)
  /\ Forall validString (Rules m)
  /\ Forall validString (Prefs m)
  /\ Forall validString (SkillIdeas m)
  /\ writableTime (UpdatedAt m)
  /\ writableTime (CompactedAt m)
  /\ validInt (TokensSinceCompact m)
  /\ validInt (TurnsSinceCompact m).

(** What a reader of the memory file gets for a time and for a memory
    that was saved: the instant of the time, without monotonic reading
    and in the location the text names; the memory with every other
    field as it was. *)
Definition sameInstant (t t' : Go.Time) : Prop :=
  Go.instant t' = Go.instant t /\ Go.monotonic t' = None.

Definition reloaded (m m' : chatMemory) : Prop :=
  Summary m' = Summary m /\ Rules m' = Rules m /\ Prefs m' = Prefs m
  /\ SkillIdeas m' = SkillIdeas m
  /\ TokensSinceCompact m' = TokensSinceCompact m
  /\ TurnsSinceCompact m' = TurnsSinceCompact m
  /\ sameInstant (UpdatedAt m) (UpdatedAt m')
  /\ sameInstant (CompactedAt m) (CompactedAt m').

Definition reloadedMap (c c' : gmap string (option chatMemory)) : Prop :=
  forall k, option_Forall2 (option_Forall2 reloaded) (c !! k) (c' !! k).

Definition validEntry `{TextJSON} (kv : string * option chatMemory) : Prop :=
  validString kv.1 /\ match kv.2 with Some m => validMemory m | None => True end.

Definition validMemories `{TextJSON} (c : gmap string (option chatMemory)) : Prop :=
  forall k m, c !! k = Some m -> validEntry (k, m).

(** The part of the operating system that the thread store, the memory
    and the started commands do not depend on: clock and transcripts. *)
Record sameOutside (keep : string -> Prop) (os os' : OS.t) : Prop := {
  same_faulty : OS.faulty os' = OS.faulty os;
  same_env : OS.env os' = OS.env os;
  same_spawned : OS.spawned os' = OS.spawned os;
  same_wall : OS.wall os' = OS.wall os;
  same_files : forall p, keep p -> OS.files os' !! p = OS.files os !! p
}.

Definition sameIdentity (h h' : handleExec) : Prop :=
  sessionID h' = sessionID h /\ chatKey h' = chatKey h /\ xLogDir h' = xLogDir h
  /\ cmdPath h' = cmdPath h /\ globalArgs h' = globalArgs h
  /\ xSkipGitRepoCheck h' = xSkipGitRepoCheck h /\ hasAdapter h' = hasAdapter h.

(** Every file but the transcript of the handle. *)
Definition notTranscript (h : handleExec) (p : string) : Prop :=
  p <> transcriptPath (xLogDir h) (sessionID h).

(** A step is quiet when it leaves the identity and the thread of the
    handle alone and writes to no file but the transcript. *)
Definition quiet (h : handleExec) (os : OS.t) (h' : handleExec) (os' : OS.t) : Prop :=
  sameIdentity h h' /\ threadID h' = threadID h /\ sameOutside (notTranscript h) os os'.

(** A line that announces no thread: it does not decode to a
    [thread.started] record with a non-empty identifier. *)
Definition announcesNoThread (l : line) : Prop :=
  forall ev, unmarshalLine l = Some ev -> jsonType ev = "thread.started" ->
             jsonThreadID ev = "".

(** A step announces no thread unless it is a line of standard output
    that does. *)
Definition stepAnnouncesNoThread (s : step) : Prop :=
  match s with
  | StdoutLine l => announcesNoThread l
  | _ => True
  end.

(** The counters of a conversation, zero when it has no memory yet, and
    its compaction-in-progress flag. *)
Definition counters (a : Adapter) (key : string) : Z * Z :=
  let m := default zeroMemory (memOf (mem a) key) in
  (TokensSinceCompact m, TurnsSinceCompact m).

Definition isCompacting (a : Adapter) (key : string) : bool :=
  default false (default ∅ (compacting a) !! key).

(** Turns that complete one after the other while no compaction ends in
    between: the compactions started, turn by turn, and the final
    state. *)
Fixpoint completeTurns `{TextJSON} (a : Adapter) (os : OS.t) (key tid : string)
    (us : list codexUsage) : list (option task) * Adapter * OS.t :=
  match us with
  | [] => ([], a, os)
  | u :: us' =>
      let '(a1, os1, t) := onTurnCompleted a os key tid u in
      let '(ts, a2, os2) := completeTurns a1 os1 key tid us' in
      (t :: ts, a2, os2)
  end.

(** The entries that count: trimmed, the empty ones left out. *)
Definition normalise (l : list string) : list string :=
  filter (fun s => s <> "") (Go.TrimSpace <$> l).

(** Duplicates removed, every entry staying at its first occurrence. *)
Fixpoint dedup (l : list string) : list string :=
  match l with
  | [] => []
  | x :: l' => x :: filter (fun y => y <> x) (dedup l')
  end.

(** The merge as the claim words it: the new entries appended to the
    existing ones, exact duplicates removed, cut at the cap. *)
Definition mergeAsClaimed (base add : list string) (cap : Z) : list string :=
  take (Z.to_nat cap) (dedup (base ++ add)).

(** [push], entry by entry: [seen] holds exactly the entries of [out]. *)
Definition seenIs (seen : gmap string bool) (out : list string) : Prop :=
  forall s, default false (seen !! s) = true <-> s ∈ out.

(** [strips n b out]: [out] is [b] with [n] cursor-position queries
    removed, one after the other. *)
Inductive strips : nat -> list byte -> list byte -> Prop :=
| strips_none (b : list byte) : strips 0 b b
| strips_query (n : nat) (pre q post out : list byte) :
    q = dsrCursor \/ q = dsrCursorQ ->
    strips n (pre ++ post) out ->
    strips (S n) (pre ++ q ++ post) out.

(** [q] occurs in [b]. *)
Definition occursIn (q b : list byte) : Prop := exists pre post, b = pre ++ q ++ post.

(** What a line of standard output adds to the event buffer, when the
    buffer has room: the type and the text of the event. *)
Definition lineEvent (l : line) : option (EventType * string) :=
  match unmarshalLine l with
  | None => Some (EventStderr, "bad json: " +:+ lineErr l +:+ nl)
  | Some ev =>
      match jsonItem ev with
      | Some it =>
          if String.eqb (jsonType ev) "item.completed"
             && String.eqb (itemType it) "agent_message"
             && negb (String.eqb (itemText it) "")
          then Some (EventStdout,
                     if Go.HasSuffix (itemText it) nl then itemText it
                     else itemText it +:+ nl)
          else None
      | None => None
      end
  end.

(** Type and text of an event. *)
Definition kindOf (e : Event) : EventType * string := (evType e, evText e).

(** The text of a log file, empty while the file does not exist, and
    what makes a path usable as a log: file operations on it succeed and
    it holds no JSON document. *)
Definition textAt (os : OS.t) (p : string) : string :=
  match OS.files os !! p with
  | Some (OS.Text s) => s
  | _ => ""
  end.

Definition isLog (os : OS.t) (p : string) : Prop :=
  (p ∉ OS.faulty os) /\ forall d, OS.files os !! p <> Some (OS.Doc d).

(** The log at [p] has only grown from [os] to [os']. *)
Definition grows (p : string) (os os' : OS.t) : Prop :=
  isLog os' p /\ exists s, textAt os' p = textAt os p +:+ s.

(** A step is calm when it leaves the identity of the handle alone and
    writes to no file but the transcript; the thread of the handle may
    change. *)
Definition calm (h : handleExec) (os : OS.t) (h' : handleExec) (os' : OS.t) : Prop :=
  sameIdentity h h' /\ sameOutside (notTranscript h) os os'.

(** A line of standard output that carries an agent message with the
    text [t], and a line that carries none. *)
Definition isAgentMessage (l : line) (t : string) : Prop :=
  exists ev it,
    unmarshalLine l = Some ev /\ jsonType ev = "item.completed"
    /\ jsonItem ev = Some it /\ itemType it = "agent_message" /\ itemText it = t.

Definition noAgentMessage (l : line) : Prop := forall t, ~ isAgentMessage l t.

(** The sessions map of a manager is in order: every pointer in it is
    allocated and points to a session made for that conversation. *)
Definition registered {H Ch : Type} (m : Core.SessionManager H Ch) : Prop :=
  forall c p, Core.sessions m !! c = Some p ->
    exists s, Core.heap m !! p = Some s /\ Core.ChatID s = c.

(** The assignment a line of a .env file stands for, if any: its key
    and its value; and the values the lines of a file give to a key, in
    the order of the lines. *)
Definition assignment (text : string) : option (string * string) :=
  let line := Go.TrimSpace text in
  if String.eqb line "" || Go.HasPrefix line "#" then None
  else
    let line :=
      if Go.HasPrefix line "export " then Go.TrimSpace (Go.TrimPrefix line "export ")
      else line in
    let '(k, v, ok) := Config.Cut line "=" in
    if negb ok then None
    else
      let k := Go.TrimSpace k in
      if String.eqb k "" then None
      else Some (k, Config.trimQuotes (Config.stripInlineComment (Go.TrimSpace v))).

Definition valueFor (k : string) (text : string) : option string :=
  match assignment text with
  | Some (k', v) => if String.eqb k' k then Some v else None
  | None => None
  end.

Definition valuesFor (k : string) (lines : list string) : list string :=
  omap (valueFor k) lines.

(** * Properties *)

(** ** Facts about the string functions *)

Lemma append_cons (x : ascii) (a b : string) : String x a +:+ b = String x (a +:+ b).
Proof. reflexivity. Qed.

Lemma append_nil (b : string) : "" +:+ b = b.
Proof. reflexivity. Qed.

Lemma length_append (a b : string) :
  String.length (a +:+ b) = (String.length a + String.length b)%nat.
Proof.
  induction a as [|c a IH]; [reflexivity |].
  rewrite append_cons. simpl. now rewrite IH.
Qed.

Lemma substring_all (s : string) : substring 0 (String.length s) s = s.
Proof. induction s as [|c s IH]; simpl; [reflexivity | now rewrite IH]. Qed.

Lemma substring_skip (a b : string) (n : nat) :
  substring (String.length a) n (a +:+ b) = substring 0 n b.
Proof.
  induction a as [|c a IH]; [reflexivity |].
  rewrite append_cons. simpl. exact IH.
Qed.

Lemma substring_split (s : string) (n : nat) :
  (n <= String.length s)%nat ->
  s = substring 0 n s +:+ substring n (String.length s - n) s.
Proof.
  revert n; induction s as [|c s IH]; intros [|n] Hn; simpl in *; try lia.
  - reflexivity.
  - now rewrite substring_all.
  - rewrite append_cons. f_equal. apply IH. lia.
Qed.

Lemma append_assoc (a b c : string) : (a +:+ b) +:+ c = a +:+ (b +:+ c).
Proof.
  induction a as [|x a IH]; [reflexivity |].
  rewrite !append_cons. now rewrite IH.
Qed.

Lemma HasSuffix_app (a s : string) : Go.HasSuffix (a +:+ s) s = true.
Proof.
  unfold Go.HasSuffix, Go.slice, Go.len. rewrite length_append.
  apply andb_true_intro; split; [apply Z.leb_le; lia |].
  replace (Z.to_nat (Z.of_nat (String.length a + String.length s) - Z.of_nat (String.length s)))
    with (String.length a) by lia.
  replace (Z.to_nat (Z.of_nat (String.length a + String.length s)
                     - (Z.of_nat (String.length a + String.length s)
                        - Z.of_nat (String.length s))))
    with (String.length s) by lia.
  rewrite substring_skip, substring_all. apply String.eqb_refl.
Qed.

Lemma HasSuffix_inv (x s : string) :
  Go.HasSuffix x s = true -> exists p, x = p +:+ s.
Proof.
  unfold Go.HasSuffix, Go.slice, Go.len. intros H.
  apply andb_prop in H as [Hlen Heq]. apply Z.leb_le in Hlen. apply String.eqb_eq in Heq.
  exists (substring 0 (String.length x - String.length s) x).
  rewrite (substring_split x (String.length x - String.length s)) at 1 by lia.
  f_equal. rewrite <- Heq at 3. f_equal; lia.
Qed.

Lemma HasSuffix_prepend (a x s : string) :
  Go.HasSuffix x s = true -> Go.HasSuffix (a +:+ x) s = true.
Proof.
  intros H. apply HasSuffix_inv in H as [p ->].
  rewrite <- append_assoc. apply HasSuffix_app.
Qed.

(** ** Send on an empty prompt *)

(** C10.  For every call of [sendExec] whose input trims to the empty
    string, the result is nil and the handle, the adapter (thread state,
    memory) and the operating system (files, transcript, started
    commands, clock) are exactly those it was called on: no command is
    started and no event is emitted. *)
Theorem sendExec_empty_prompt (a : Adapter) (h : handleExec) (os : OS.t)
    (input : string) (c : child) :
  Go.TrimSpace input = "" ->
  sendExec a h os input c = (None, h, a, os).
Proof. intros H. unfold sendExec. rewrite H. reflexivity. Qed.

(** ** Lines of the structured protocol *)

(** C1 (as amended).  A line that decodes to a record of type
    [turn.completed] is ignored by [readJSONL]: handle, adapter and
    operating system are left as they are; no event is emitted and no
    counter of the memory moves. *)
Theorem turn_completed_ignored (h : handleExec) (a : Adapter) (os : OS.t)
    (l : line) (ev : codexJSON) :
  unmarshalLine l = Some ev ->
  jsonType ev = "turn.completed" ->
  readJSONLLine h a os l = (h, a, os).
Proof.
  intros Hl Ht. unfold readJSONLLine. rewrite Hl, Ht. reflexivity.
Qed.

(** The text [readJSONL] forwards for an agent message: the text of the
    message, with a newline appended unless it ends in one. *)
Lemma forwarded_text_ends_in_newline (txt : string) :
  Go.HasSuffix (if negb (Go.HasSuffix txt nl) then txt +:+ nl else txt) nl = true.
Proof.
  destruct (Go.HasSuffix txt nl) eqn:E; simpl; [exact E | apply HasSuffix_app].
Qed.

(** C2 (as amended).  A line that decodes to [item.completed] with an
    item of type [agent_message] and a non-empty text appends the text,
    ending in exactly the newline it had or was given, to the transcript
    and, when the event buffer holds fewer than 256 events, adds exactly
    one event to it, of type stdout with that text.  When the buffer is
    full the event is dropped: the buffer is left as it is. *)
Theorem agent_message_forwarded (h : handleExec) (a : Adapter) (os : OS.t)
    (l : line) (ev : codexJSON) (it : codexItem) :
  unmarshalLine l = Some ev ->
  jsonType ev = "item.completed" ->
  jsonItem ev = Some it ->
  itemType it = "agent_message" ->
  itemText it <> "" ->
  let txt := if Go.HasSuffix (itemText it) nl then itemText it else itemText it +:+ nl in
  let '(h1, a1, os1) := readJSONLLine h a os l in
  a1 = a
  /\ Go.HasSuffix txt nl = true
  /\ os1 = (OS.Now (appendTranscript h os txt)).2
  /\ ((length (events h) < eventsCap)%nat ->
      h1 = setEvents h (events h ++ [mkEvent EventStdout txt (OS.wall os (OS.tick os)) 0]))
  /\ ((eventsCap <= length (events h))%nat -> h1 = h).
Proof.
  intros Hl Ht Hi Hty Htx txt. unfold readJSONLLine. rewrite Hl, Ht, Hi, Hty.
  apply String.eqb_neq in Htx. rewrite Htx.
  change (String.eqb "item.completed" "thread.started") with false.
  rewrite String.eqb_refl. cbn [negb andb].
  rewrite String.eqb_refl. cbn [negb andb].
  assert (Etxt : (if negb (Go.HasSuffix (itemText it) nl) then itemText it +:+ nl
                  else itemText it) = txt).
  { subst txt. destruct (Go.HasSuffix (itemText it) nl); reflexivity. }
  rewrite Etxt. unfold emit, OS.Now.
  assert (Etick : OS.wall (appendTranscript h os txt) (OS.tick (appendTranscript h os txt))
                  = OS.wall os (OS.tick os)).
  { unfold appendTranscript, OS.AppendFile.
    destruct (decide _); [reflexivity |].
    destruct (OS.files os !! _) as [[|]|]; reflexivity. }
  rewrite Etick.
  destruct (length (events h) <? eventsCap)%nat eqn:E.
  - apply Nat.ltb_lt in E. repeat split; try reflexivity.
    + rewrite <- Etxt. apply forwarded_text_ends_in_newline.
    + intros; lia.
  - apply Nat.ltb_ge in E. repeat split; try reflexivity.
    + rewrite <- Etxt. apply forwarded_text_ends_in_newline.
    + intros; lia.
Qed.

Lemma agent_message_forwarded_witness :
  let '(h1, a1, os1) :=
    readJSONLLine Sample.h0 Sample.a0 Sample.os0 (Sample.agentMessage "hello") in
  a1 = Sample.a0
  /\ Go.HasSuffix ("hello" +:+ nl) nl = true
  /\ os1 = (OS.Now (appendTranscript Sample.h0 Sample.os0 ("hello" +:+ nl))).2
  /\ ((length (events Sample.h0) < eventsCap)%nat ->
      h1 = setEvents Sample.h0
             (events Sample.h0 ++ [mkEvent EventStdout ("hello" +:+ nl) 0 0]))
  /\ ((eventsCap <= length (events Sample.h0))%nat -> h1 = Sample.h0).
Proof.
  apply (agent_message_forwarded Sample.h0 Sample.a0 Sample.os0
           (Sample.agentMessage "hello")
           (mkJSON "item.completed" "" (Some (mkItem "agent_message" "hello")))
           (mkItem "agent_message" "hello"));
    [reflexivity | reflexivity | reflexivity | reflexivity | discriminate].
Defined.

(** C2, the claim as stated fails: with 256 events waiting in the buffer,
    the line carrying the agent message "hello" adds no event. *)
Lemma agent_message_dropped_when_full :
  let r := readJSONLLine Sample.hFull Sample.a0 Sample.os0 (Sample.agentMessage "hello") in
  length (events Sample.hFull) = 256%nat
  /\ events r.1.1 = events Sample.hFull
  /\ Forall (fun e => evText e <> "hello" +:+ nl) (events r.1.1).
Proof.
  assert (E : events (readJSONLLine Sample.hFull Sample.a0 Sample.os0
                        (Sample.agentMessage "hello")).1.1 = events Sample.hFull)
    by (vm_compute; reflexivity).
  cbv zeta. rewrite E. split; [reflexivity | split; [reflexivity |]].
  apply Forall_replicate. discriminate.
Qed.

Lemma sendExec_empty_prompt_witness :
  sendExec Sample.a0 Sample.h0 Sample.os0 "   " (mkChild None [] None None)
  = (None, Sample.h0, Sample.a0, Sample.os0).
Proof. apply (sendExec_empty_prompt _ _ _ "   "). reflexivity. Defined.

Lemma turn_completed_ignored_witness :
  readJSONLLine Sample.h0 Sample.a0 Sample.os0 (Sample.turnCompleted 100 50)
  = (Sample.h0, Sample.a0, Sample.os0).
Proof.
  apply (turn_completed_ignored _ _ _ (Sample.turnCompleted 100 50)
           (mkJSON "turn.completed" "" None)); reflexivity.
Defined.

(** C1, the claim as stated fails: the line of a completed turn that
    reports 100 input and 50 output tokens leaves the memory without any
    counter, where the usage hook, had it been called with these counts,
    would have left 150 tokens and one turn. *)
Lemma turn_completed_not_accounted :
  let h := setThreadID Sample.h0 "T1" in
  let r := readJSONL h Sample.a0 Sample.os0 [Sample.turnCompleted 100 50] None in
  let hook :=
    @onTurnCompleted Sample.textJSON Sample.a0 Sample.os0 "42" "T1" (mkUsage 100 50) in
  unmarshalLine (Sample.turnCompleted 100 50) = Some (mkJSON "turn.completed" "" None)
  /\ r = (h, Sample.a0, Sample.os0)
  /\ memOf (mem r.1.2) "42" = None
  /\ TokensSinceCompact <$> memOf (mem hook.1.1) "42" = Some 150
  /\ TurnsSinceCompact <$> memOf (mem hook.1.1) "42" = Some 1.
Proof.
  cbv zeta. split; [reflexivity |]. split; [reflexivity |].
  repeat split; vm_compute; reflexivity.
Qed.

(** ** Persistence *)

Lemma coerceFrom_valid (l : list ascii) :
  forall k, Go.validFrom k l = true -> JSON.coerceFrom k l = l.
Proof.
  induction l as [|c l IH]; intros k Hv; [reflexivity |].
  destruct k as [|k]; cbn [Go.validFrom JSON.coerceFrom] in *.
  - destruct (Go.runeWidth (c :: l)) as [w|]; [| discriminate].
    f_equal. now apply IH.
  - f_equal. now apply IH.
Qed.

Lemma coerce_valid (s : string) : validString s -> JSON.coerce s = s.
Proof.
  unfold validString, Go.ValidString, JSON.coerce, Go.bytes. intros Hv.
  rewrite coerceFrom_valid by exact Hv. apply string_of_list_ascii_of_string.
Qed.

Lemma foldl_insert_list_to_map {V} (l : list (string * V)) (acc : gmap string V) :
  foldl (fun m kv => <[kv.1 := kv.2]> m) acc l = list_to_map (reverse l) ∪ acc.
Proof.
  revert acc; induction l as [|[k v] l IH]; intros acc; simpl.
  - now rewrite (left_id_L ∅ (∪)).
  - rewrite IH, reverse_cons, list_to_map_app. simpl.
    rewrite insert_empty, <- (assoc_L (∪)), <- insert_union_singleton_l. reflexivity.
Qed.

Lemma foldl_insert_sortedEntries {V} (m : gmap string V) :
  foldl (fun m kv => <[kv.1 := kv.2]> m) ∅ (JSON.sortedEntries m) = m.
Proof.
  rewrite foldl_insert_list_to_map, (right_id_L ∅ (∪)).
  symmetry. apply list_to_map_flip. unfold JSON.sortedEntries.
  rewrite reverse_Permutation. symmetry. apply merge_sort_Permutation.
Qed.

Lemma elem_of_sortedEntries {V} (m : gmap string V) (k : string) (v : V) :
  (k, v) ∈ JSON.sortedEntries m <-> m !! k = Some v.
Proof.
  unfold JSON.sortedEntries. rewrite merge_sort_Permutation.
  apply elem_of_map_to_list.
Qed.


Lemma decodeStringMap_encode (l : list (string * string)) (acc : gmap string string) :
  Forall (fun kv => validString kv.1 /\ validString kv.2) l ->
  decodeStringMap acc ((fun kv => (JSON.coerce kv.1, JSON.encodeString kv.2)) <$> l)
  = Some (foldl (fun m kv => <[kv.1 := kv.2]> m) acc l).
Proof.
  intros Hv. revert acc. induction Hv as [|[k v] l [Hk Hs] _ IH]; intros acc;
    [reflexivity |].
  rewrite fmap_cons. unfold JSON.encodeString. cbn [fst snd] in *.
  rewrite (coerce_valid k Hk), (coerce_valid v Hs). apply IH.
Qed.

Lemma decodeStateFile_encode (m : gmap string string) :
  validThreads m ->
  decodeStateFile (encodeStateFile (Some m)) = Some (Some m).
Proof.
  intros Hv. unfold decodeStateFile, encodeStateFile, decodeStateMembers.
  change (JSON.keyIs "threads" "threads") with true. cbn iota.
  rewrite decodeStringMap_encode.
  - simpl default. now rewrite foldl_insert_sortedEntries.
  - apply Forall_forall. intros [k v] Hin. apply (Hv k v).
    now apply elem_of_sortedEntries.
Qed.

Lemma save_then_read (os : OS.t) (path : string) (b : OS.file) :
  path ∉ OS.faulty os -> path +:+ ".tmp" ∉ OS.faulty os ->
  OS.ReadFile (OS.Rename (OS.WriteFile os (path +:+ ".tmp") b).1 (path +:+ ".tmp") path).1 path
  = Some b.
Proof.
  intros Hp Ht. unfold OS.WriteFile. rewrite decide_False by exact Ht. simpl.
  unfold OS.Rename. simpl. rewrite !decide_False by assumption.
  rewrite lookup_insert_eq. simpl.
  unfold OS.ReadFile. simpl. rewrite decide_False by exact Hp.
  apply lookup_insert_eq.
Qed.

Lemma loadState_saveState (a a' : Adapter) (os : OS.t) (m : gmap string string) :
  threads a = Some m ->
  validThreads m ->
  statePath a' = statePath a ->
  statePath a ∉ OS.faulty os ->
  statePath a +:+ ".tmp" ∉ OS.faulty os ->
  threads (loadState a' (saveStateLocked a os)) = Some m.
Proof.
  intros Hm Hv Hp Hf Ht. unfold loadState, saveStateLocked. rewrite Hp.
  rewrite save_then_read by assumption.
  rewrite Hm, decodeStateFile_encode by exact Hv. reflexivity.
Qed.

Lemma decodeInt_valid (old n : Z) : validInt n -> JSON.decodeInt old (JSON.Int n) = Some n.
Proof.
  intros [H1 H2]. unfold JSON.decodeInt.
  destruct (- 2 ^ 63 <=? n) eqn:E1; [| apply Z.leb_gt in E1; lia].
  destruct (n <? 2 ^ 63) eqn:E2; [reflexivity | apply Z.ltb_ge in E2; lia].
Qed.

Lemma decodeStrings_encode (l : list string) :
  Forall validString l ->
  JSON.decodeStrings (JSON.encodeString <$> l) = Some l.
Proof.
  induction 1 as [|s l Hs _ IH]; [reflexivity |].
  rewrite fmap_cons. unfold JSON.encodeString at 1.
  cbn [JSON.decodeStrings JSON.decodeString]. now rewrite IH, (coerce_valid s Hs).
Qed.

Lemma decodeStringSlice_encode (l : list string) :
  Forall validString l ->
  JSON.decodeStringSlice (JSON.encodeStringSlice l) = Some l.
Proof.
  intros Hv. destruct l as [|s l]; [reflexivity |].
  unfold JSON.encodeStringSlice, JSON.decodeStringSlice. now apply decodeStrings_encode.
Qed.

Ltac eval_keys :=
  repeat match goal with
         | |- context [JSON.keyIs ?t ?k] =>
             let v := eval vm_compute in (JSON.keyIs t k) in
             change (JSON.keyIs t k) with v
         end.

Lemma decodeChatMembers_cons `{TextJSON} (m : chatMemory) (k : string) (v : JSON.value)
    (ms : list (string * JSON.value)) :
  decodeChatMembers m ((k, v) :: ms)
  = let next (r : option chatMemory) :=
      match r with
      | Some m' => decodeChatMembers m' ms
      | None => None
      end in
    let '(mkMem su ru pr up co to tu sk) := m in
    if JSON.keyIs "summary" k then
      next ((fun x => mkMem x ru pr up co to tu sk) <$> JSON.decodeString su v)
    else if JSON.keyIs "rules" k then
      next ((fun x => mkMem su x pr up co to tu sk) <$> JSON.decodeStringSlice v)
    else if JSON.keyIs "prefs" k then
      next ((fun x => mkMem su ru x up co to tu sk) <$> JSON.decodeStringSlice v)
    else if JSON.keyIs "updated_at" k then
      next ((fun x => mkMem su ru pr x co to tu sk) <$> decodeTime up v)
    else if JSON.keyIs "compacted_at" k then
      next ((fun x => mkMem su ru pr up x to tu sk) <$> decodeTime co v)
    else if JSON.keyIs "tokens_since_compact" k then
      next ((fun x => mkMem su ru pr up co x tu sk) <$> JSON.decodeInt to v)
    else if JSON.keyIs "turns_since_compact" k then
      next ((fun x => mkMem su ru pr up co to x sk) <$> JSON.decodeInt tu v)
    else if JSON.keyIs "skill_ideas" k then
      next ((fun x => mkMem su ru pr up co to tu x) <$> JSON.decodeStringSlice v)
    else decodeChatMembers m ms.
Proof. reflexivity. Qed.

Ltac decode_member :=
  rewrite decodeChatMembers_cons; eval_keys; cbv beta iota zeta;
  cbn [JSON.decodeString decodeTime fmap option_fmap option_map].

Lemma decodeTime_marshal `{TextJSON} (old t : Go.Time) (s : string) :
  marshalTime t = Some s -> zoneOffset (Go.instant t) (Go.location t) mod 60 = 0 ->
  exists t', decodeTime old (JSON.Str s) = Some t' /\ sameInstant t t'.
Proof.
  intros Hs Ho. destruct (time_json_roundtrip _ _ _ Hs Ho) as [l' E].
  exists (Go.mkTime (Go.instant t) None l'). unfold decodeTime. rewrite E.
  now repeat split.
Qed.

Lemma decodeChatMembers_encode `{TextJSON} (m : chatMemory) :
  validMemory m ->
  exists ms m', encodeChatMemory m = Some (JSON.Obj ms)
                /\ decodeChatMembers zeroMemory ms = Some m'
                /\ reloaded m m'.
Proof.
  intros (Hsu & Hru & Hpr & Hsk & [[up' Hup] Oup] & [[co' Hco] Oco] & Hto & Htu).
  destruct m as [su ru pr up co to tu sk].
  cbn [Summary Rules Prefs UpdatedAt CompactedAt TokensSinceCompact TurnsSinceCompact
       SkillIdeas] in *.
  destruct (decodeTime_marshal Go.zeroTime up up' Hup Oup) as (up2 & Dup & Sup).
  destruct (decodeTime_marshal Go.zeroTime co co' Hco Oco) as (co2 & Dco & Sco).
  unfold encodeChatMemory.
  cbn [Summary Rules Prefs UpdatedAt CompactedAt TokensSinceCompact TurnsSinceCompact
       SkillIdeas].
  rewrite Hup, Hco. eexists. exists (mkMem su ru pr up2 co2 to tu sk).
  split; [reflexivity |].
  split; [| unfold reloaded, sameInstant in *; cbn; tauto].
  unfold zeroMemory, JSON.encodeString. rewrite (coerce_valid su Hsu).
  decode_member.
  decode_member. rewrite (decodeStringSlice_encode ru Hru).
  cbn [fmap option_fmap option_map].
  decode_member. rewrite (decodeStringSlice_encode pr Hpr).
  cbn [fmap option_fmap option_map].
  rewrite decodeChatMembers_cons; eval_keys; cbv beta iota zeta. rewrite Dup.
  cbn [fmap option_fmap option_map].
  rewrite decodeChatMembers_cons; eval_keys; cbv beta iota zeta. rewrite Dco.
  cbn [fmap option_fmap option_map].
  decode_member. rewrite (decodeInt_valid _ to Hto). cbn [fmap option_fmap option_map].
  decode_member. rewrite (decodeInt_valid _ tu Htu). cbn [fmap option_fmap option_map].
  decode_member. rewrite (decodeStringSlice_encode sk Hsk).
  cbn [fmap option_fmap option_map].
  reflexivity.
Qed.

Lemma reloadedMap_insert (c c' : gmap string (option chatMemory)) (k : string)
    (x y : option chatMemory) :
  reloadedMap c c' -> option_Forall2 reloaded x y ->
  reloadedMap (<[k := x]> c) (<[k := y]> c').
Proof.
  intros Hc Hxy k'. destruct (decide (k' = k)) as [->|Hne].
  - rewrite !lookup_insert_eq. now constructor.
  - rewrite !lookup_insert_ne by congruence. apply Hc.
Qed.

Lemma decodeChatMap_encode `{TextJSON} (l : list (string * option chatMemory)) :
  Forall validEntry l ->
  forall acc acc2, reloadedMap acc acc2 ->
  exists ms acc',
    encodeChats l = Some ms
    /\ decodeChatMap acc2 ms = Some acc'
    /\ reloadedMap (foldl (fun m kv => <[kv.1 := kv.2]> m) acc l) acc'.
Proof.
  induction 1 as [|[k [cm|]] l [Hk Hm] _ IH]; intros acc acc2 Hacc; cbn [fst snd] in *.
  - exists [], acc2. now repeat split.
  - destruct (decodeChatMembers_encode cm Hm) as (cms & cm' & E1 & E2 & R).
    destruct (IH (<[k := Some cm]> acc) (<[k := Some cm']> acc2)) as (ms & acc' & E3 & E4 & R').
    { apply reloadedMap_insert; [exact Hacc | now constructor]. }
    exists ((k, JSON.Obj cms) :: ms), acc'. cbn [encodeChats].
    rewrite E1, E3, (coerce_valid k Hk). split; [reflexivity |].
    cbn [decodeChatMap foldl fst snd]. rewrite E2. now split.
  - destruct (IH (<[k := None]> acc) (<[k := None]> acc2)) as (ms & acc' & E3 & E4 & R').
    { apply reloadedMap_insert; [exact Hacc | constructor]. }
    exists ((k, JSON.Null) :: ms), acc'. cbn [encodeChats].
    rewrite E3, (coerce_valid k Hk). split; [reflexivity |]. now split.
Qed.

Lemma decodeMemoryFile_encode `{TextJSON} (c : gmap string (option chatMemory)) :
  validMemories c ->
  exists d c', encodeMemoryFile (Some c) = Some d
               /\ decodeMemoryFile d = Some (Some c')
               /\ reloadedMap c c'.
Proof.
  intros Hv. unfold encodeMemoryFile.
  destruct (decodeChatMap_encode (JSON.sortedEntries c)) with
    (acc := (∅ : gmap string (option chatMemory)))
    (acc2 := (∅ : gmap string (option chatMemory)))
    as (ms & c' & E1 & E2 & R).
  { apply Forall_forall. intros [k m] Hin. apply (Hv k m).
    now apply elem_of_sortedEntries. }
  { intros k. rewrite lookup_empty. constructor. }
  rewrite E1. eexists. exists c'. split; [reflexivity |].
  rewrite foldl_insert_sortedEntries in R. split; [| exact R].
  unfold decodeMemoryFile, decodeMemoryMembers.
  change (JSON.keyIs "chats" "chats") with true. cbn iota.
  simpl default. now rewrite E2.
Qed.

Lemma loadMemory_saveMemory `{TextJSON} (a a' : Adapter) (os : OS.t)
    (c : gmap string (option chatMemory)) :
  mem a = Some c ->
  validMemories c ->
  memoryPath a' = memoryPath a ->
  memoryPath a ∉ OS.faulty os ->
  memoryPath a +:+ ".tmp" ∉ OS.faulty os ->
  exists c', mem (loadMemory a' (saveMemoryLocked a os)) = Some c' /\ reloadedMap c c'.
Proof.
  intros Hm Hv Hp Hf Ht. unfold loadMemory, saveMemoryLocked. rewrite Hp, Hm.
  destruct (decodeMemoryFile_encode c Hv) as (d & c' & E1 & E2 & R). rewrite E1.
  rewrite save_then_read by assumption. rewrite E2. now exists c'.
Qed.

Lemma loadState_saveState_nil (a a' : Adapter) (os : OS.t) :
  threads a = None ->
  statePath a' = statePath a ->
  statePath a ∉ OS.faulty os ->
  statePath a +:+ ".tmp" ∉ OS.faulty os ->
  loadState a' (saveStateLocked a os) = a'.
Proof.
  intros Hm Hp Hf Ht. unfold loadState, saveStateLocked. rewrite Hp.
  rewrite save_then_read by assumption. now rewrite Hm.
Qed.

Lemma loadMemory_saveMemory_nil `{TextJSON} (a a' : Adapter) (os : OS.t) :
  mem a = None ->
  memoryPath a' = memoryPath a ->
  memoryPath a ∉ OS.faulty os ->
  memoryPath a +:+ ".tmp" ∉ OS.faulty os ->
  loadMemory a' (saveMemoryLocked a os) = a'.
Proof.
  intros Hm Hp Hf Ht. unfold loadMemory, saveMemoryLocked. rewrite Hp, Hm.
  cbn [encodeMemoryFile]. now rewrite save_then_read by assumption.
Qed.

(** A memory that carries a monotonic reading is not what a reader of
    the file gets. *)
Lemma reloadedMap_differs (c c' : gmap string (option chatMemory)) (k : string)
    (m : chatMemory) :
  reloadedMap c c' -> c !! k = Some (Some m) ->
  Go.monotonic (UpdatedAt m) <> None \/ Go.monotonic (CompactedAt m) <> None ->
  c' <> c.
Proof.
  intros R Hk Hm ->. specialize (R k). rewrite Hk in R.
  inversion R as [x y Hxy |]; subst. inversion Hxy as [m1 m2 Hr |]; subst.
  destruct Hr as (_ & _ & _ & _ & _ & _ & [_ U] & [_ C]). tauto.
Qed.

(** The stamp [onTurnCompleted] stores is a [time.Now()]. *)
Lemma onTurnCompleted_stamp `{TextJSON} (a : Adapter) (os : OS.t) (key tid : string)
    (usage : codexUsage) :
  memoryEnabled a os = true -> key <> "" ->
  exists m, memOf (mem (onTurnCompleted a os key tid usage).1.1) key = Some m
            /\ UpdatedAt m = (OS.NowTime os).1.
Proof.
  intros Hen Hk. unfold onTurnCompleted. rewrite Hen.
  apply String.eqb_neq in Hk. rewrite Hk. cbn [negb orb].
  unfold getMem. rewrite Hk.
  destruct (default None (default ∅ (mem a) !! key)) as [m|];
    (destruct (OS.NowTime os) as [now os1]; cbn [fst];
     eexists; split;
     [ destruct (_ || _); [| destruct (default false _)]; cbn [fst mem setMem setCompacting memOf];
       rewrite lookup_insert_eq; reflexivity
     | reflexivity ]).
Qed.

(** C7 (as amended).  What a reload gives back of what was saved, the
    two file operations of the save taken to succeed (the code drops
    their errors) and the loading adapter using the same paths.  A
    thread map whose keys and identifiers are valid UTF-8 comes back
    identical, whatever the loading adapter held before; a nil map is
    written as [null] and leaves the loading adapter as it was.  A chat
    memory map whose keys and strings are valid UTF-8, whose counters
    are values of Go's [int] and whose times [time.Time] can write
    comes back with the same conversations and, for each of them, the
    same summary, rules, preferences, skill ideas and counters, and with
    its times at the same instants but without monotonic reading; a nil
    map leaves the loading adapter as it was.  So a map with a time that
    carries a monotonic reading does not come back identical, and the
    time [onTurnCompleted] stores is a [time.Now()], which carries one
    whenever the clock shows a year from 1885 to 2156. *)
Theorem persistence_round_trip `{TextJSON} (a a' : Adapter) (os : OS.t) :
  statePath a' = statePath a ->
  memoryPath a' = memoryPath a ->
  statePath a ∉ OS.faulty os -> statePath a +:+ ".tmp" ∉ OS.faulty os ->
  memoryPath a ∉ OS.faulty os -> memoryPath a +:+ ".tmp" ∉ OS.faulty os ->
  match threads a with
  | Some t => validThreads t -> threads (loadState a' (saveStateLocked a os)) = Some t
  | None => loadState a' (saveStateLocked a os) = a'
  end
  /\ match mem a with
     | Some c =>
         validMemories c ->
         exists c',
           mem (loadMemory a' (saveMemoryLocked a os)) = Some c'
           /\ reloadedMap c c'
           /\ (forall k m, c !! k = Some (Some m) ->
                  Go.monotonic (UpdatedAt m) <> None \/ Go.monotonic (CompactedAt m) <> None ->
                  c' <> c)
     | None => loadMemory a' (saveMemoryLocked a os) = a'
     end
  /\ (forall a0 os0 key tid usage,
        memoryEnabled a0 os0 = true -> key <> "" ->
        Go.monotonicFits (OS.wall os0 (OS.tick os0)) = true ->
        exists m, memOf (mem (onTurnCompleted a0 os0 key tid usage).1.1) key = Some m
                  /\ Go.monotonic (UpdatedAt m) = Some (OS.mono os0 (OS.tick os0))).
Proof.
  intros Hs Hm Hf1 Hf2 Hf3 Hf4. split; [| split].
  - destruct (threads a) as [t|] eqn:Et.
    + intros Hvt. now apply loadState_saveState.
    + now apply loadState_saveState_nil.
  - destruct (mem a) as [c|] eqn:Ec.
    + intros Hv. destruct (loadMemory_saveMemory a a' os c Ec Hv Hm Hf3 Hf4) as (c' & E & R).
      exists c'. split; [exact E |]. split; [exact R |].
      intros k m Hk Hmono. exact (reloadedMap_differs c c' k m R Hk Hmono).
    + now apply loadMemory_saveMemory_nil.
  - intros a0 os0 key tid usage Hen Hk Hfit.
    destruct (onTurnCompleted_stamp a0 os0 key tid usage Hen Hk) as (m & E & U).
    exists m. split; [exact E |]. rewrite U. unfold OS.NowTime. cbn [fst Go.monotonic].
    now rewrite Hfit.
Qed.

Lemma persistence_round_trip_witness :
  let m := mkMem "summary" ["rule"] [] (Go.mkTime 7 (Some 3) Go.Local) Go.zeroTime 150 1
             ["idea"] in
  let a := setMem (setThreads Sample.a0 (Some {[ "42" := "T1" ]}))
             (Some {[ "42" := Some m ]}) in
  threads (loadState Sample.a0 (saveStateLocked a Sample.os0)) = Some {[ "42" := "T1" ]}
  /\ exists c',
       mem (@loadMemory Sample.textJSON Sample.a0
              (@saveMemoryLocked Sample.textJSON a Sample.os0)) = Some c'
       /\ reloadedMap {[ "42" := Some m ]} c'
       /\ c' <> {[ "42" := Some m ]}.
Proof.
  cbv zeta.
  destruct (@persistence_round_trip Sample.textJSON
              (setMem (setThreads Sample.a0 (Some {[ "42" := "T1" ]}))
                 (Some {[ "42" := Some (mkMem "summary" ["rule"] []
                                          (Go.mkTime 7 (Some 3) Go.Local) Go.zeroTime 150 1
                                          ["idea"]) ]}))
              Sample.a0 Sample.os0) as (W1 & W2 & _).
  - reflexivity.
  - reflexivity.
  - apply not_elem_of_empty.
  - apply not_elem_of_empty.
  - apply not_elem_of_empty.
  - apply not_elem_of_empty.
  - cbn [threads mem setMem setThreads] in W1, W2. split.
    + apply W1. intros k v Hkv. apply lookup_singleton_Some in Hkv as [<- <-]. now split.
    + destruct W2 as (c' & E & R & D).
      * intros k m Hkm. apply lookup_singleton_Some in Hkm as [<- <-].
        split; [reflexivity |]. cbn [snd].
        split; [reflexivity |]. split; [repeat constructor |].
        split; [constructor |]. split; [repeat constructor |].
        split; [split; [eexists; reflexivity | reflexivity] |].
        split; [split; [eexists; reflexivity | reflexivity] |].
        split; unfold validInt; cbn [TokensSinceCompact TurnsSinceCompact]; lia.
      * exists c'. split; [exact E |]. split; [exact R |].
        apply (D "42" (mkMem "summary" ["rule"] [] (Go.mkTime 7 (Some 3) Go.Local)
                         Go.zeroTime 150 1 ["idea"])).
        -- apply lookup_singleton_eq.
        -- left. discriminate.
Defined.

(** C7, the claim as stated fails: the memory [onTurnCompleted] has
    stored and saved for a conversation is not the memory a reader of
    the file gets, because the time of the update has lost its
    monotonic reading. *)
Lemma stamped_memory_not_round_tripped :
  let r := @onTurnCompleted Sample.textJSON Sample.a0 Sample.os0 "42" "T1" (mkUsage 100 50) in
  let a1 := r.1.1 in
  let a2 := @loadMemory Sample.textJSON Sample.a0 r.1.2 in
  (UpdatedAt <$> memOf (mem a1) "42") = Some (Go.mkTime 0 (Some 1000) Go.Local)
  /\ (UpdatedAt <$> memOf (mem a2) "42") = Some (Go.mkTime 0 None Go.UTC)
  /\ (TokensSinceCompact <$> memOf (mem a2) "42") = Some 150
  /\ mem a2 <> mem a1.
Proof.
  cbv zeta. split; [vm_compute; reflexivity |]. split; [vm_compute; reflexivity |].
  split; [vm_compute; reflexivity |].
  intros E. apply (f_equal (fun c => UpdatedAt <$> memOf c "42")) in E.
  vm_compute in E. discriminate E.
Qed.

(** ** What the operations leave alone *)

Lemma Now_frame (os : OS.t) :
  OS.files (OS.Now os).2 = OS.files os /\ OS.faulty (OS.Now os).2 = OS.faulty os
  /\ OS.env (OS.Now os).2 = OS.env os /\ OS.spawned (OS.Now os).2 = OS.spawned os
  /\ OS.wall (OS.Now os).2 = OS.wall os.
Proof. repeat split. Qed.

Lemma AppendFile_frame (os : OS.t) (p s : string) :
  OS.faulty (OS.AppendFile os p s) = OS.faulty os
  /\ OS.env (OS.AppendFile os p s) = OS.env os
  /\ OS.spawned (OS.AppendFile os p s) = OS.spawned os
  /\ OS.wall (OS.AppendFile os p s) = OS.wall os
  /\ OS.tick (OS.AppendFile os p s) = OS.tick os
  /\ forall p', p' <> p -> OS.files (OS.AppendFile os p s) !! p' = OS.files os !! p'.
Proof.
  unfold OS.AppendFile. destruct (decide _); [repeat split |].
  destruct (OS.files os !! p) as [[old|d]|] eqn:E; repeat split; simpl;
    intros p' Hp; now rewrite lookup_insert_ne.
Qed.

Lemma WriteFile_frame (os : OS.t) (p : string) (c : OS.file) :
  OS.faulty (OS.WriteFile os p c).1 = OS.faulty os
  /\ OS.env (OS.WriteFile os p c).1 = OS.env os
  /\ OS.spawned (OS.WriteFile os p c).1 = OS.spawned os
  /\ OS.wall (OS.WriteFile os p c).1 = OS.wall os
  /\ OS.tick (OS.WriteFile os p c).1 = OS.tick os
  /\ forall p', p' <> p -> OS.files (OS.WriteFile os p c).1 !! p' = OS.files os !! p'.
Proof.
  unfold OS.WriteFile. destruct (decide _); repeat split; simpl.
  intros p' Hp; now rewrite lookup_insert_ne.
Qed.

Lemma Rename_frame (os : OS.t) (src dst : string) :
  OS.faulty (OS.Rename os src dst).1 = OS.faulty os
  /\ OS.env (OS.Rename os src dst).1 = OS.env os
  /\ OS.spawned (OS.Rename os src dst).1 = OS.spawned os
  /\ OS.wall (OS.Rename os src dst).1 = OS.wall os
  /\ OS.tick (OS.Rename os src dst).1 = OS.tick os
  /\ forall p', p' <> src -> p' <> dst ->
       OS.files (OS.Rename os src dst).1 !! p' = OS.files os !! p'.
Proof.
  unfold OS.Rename. destruct (decide _); [repeat split |].
  destruct (decide _); [repeat split |].
  destruct (OS.files os !! src) eqn:E; repeat split; simpl.
  intros p' H1 H2. now rewrite lookup_insert_ne, lookup_delete_ne.
Qed.

(** A save touches the file and its temporary companion only. *)
Lemma save_frame (os : OS.t) (path : string) (b : OS.file) :
  let os' := (OS.Rename (OS.WriteFile os (path +:+ ".tmp") b).1 (path +:+ ".tmp") path).1 in
  OS.faulty os' = OS.faulty os
  /\ OS.env os' = OS.env os
  /\ OS.spawned os' = OS.spawned os
  /\ OS.wall os' = OS.wall os
  /\ OS.tick os' = OS.tick os
  /\ forall p', p' <> path -> p' <> path +:+ ".tmp" -> OS.files os' !! p' = OS.files os !! p'.
Proof.
  cbv zeta.
  destruct (Rename_frame (OS.WriteFile os (path +:+ ".tmp") b).1 (path +:+ ".tmp") path)
    as (R1 & R2 & R3 & R4 & R5 & R6).
  destruct (WriteFile_frame os (path +:+ ".tmp") b) as (W1 & W2 & W3 & W4 & W5 & W6).
  rewrite R1, R2, R3, R4, R5, W1, W2, W3, W4, W5. repeat split.
  intros p' H1 H2. rewrite R6, W6 by auto. reflexivity.
Qed.

Lemma sameOutside_refl (keep : string -> Prop) (os : OS.t) : sameOutside keep os os.
Proof. now split. Qed.

Lemma sameOutside_trans (keep : string -> Prop) (os1 os2 os3 : OS.t) :
  sameOutside keep os1 os2 -> sameOutside keep os2 os3 -> sameOutside keep os1 os3.
Proof.
  intros [A1 A2 A3 A4 A5] [B1 B2 B3 B4 B5]. split; try congruence.
  intros p Hp. rewrite B5, A5 by exact Hp. reflexivity.
Qed.

Lemma sameOutside_Now (keep : string -> Prop) (os : OS.t) : sameOutside keep os (OS.Now os).2.
Proof. now split. Qed.

Lemma sameOutside_AppendFile (keep : string -> Prop) (os : OS.t) (p s : string) :
  ~ keep p -> sameOutside keep os (OS.AppendFile os p s).
Proof.
  intros Hp. destruct (AppendFile_frame os p s) as (A1 & A2 & A3 & A4 & A5 & A6).
  split; auto. intros p' Hk. apply A6. intros ->. contradiction.
Qed.

(** ** Steps that do not touch the thread *)

Lemma quiet_refl (h : handleExec) (os : OS.t) : quiet h os h os.
Proof. repeat split. Qed.

Lemma quiet_trans (h1 h2 h3 : handleExec) (os1 os2 os3 : OS.t) :
  quiet h1 os1 h2 os2 -> quiet h2 os2 h3 os3 -> quiet h1 os1 h3 os3.
Proof.
  intros (I1 & T1 & S1) (I2 & T2 & S2).
  destruct I1 as (A1 & A2 & A3 & A4 & A5 & A6 & A7).
  destruct I2 as (B1 & B2 & B3 & B4 & B5 & B6 & B7).
  split; [repeat split; congruence | split; [congruence |]].
  apply (sameOutside_trans _ _ _ _ S1).
  unfold notTranscript in *. now rewrite A3, A1 in S2.
Qed.

Lemma emit_quiet (h : handleExec) (os : OS.t) (typ : EventType) (text : string) :
  quiet h os (emit h os typ text).1 (emit h os typ text).2.
Proof.
  unfold emit. simpl. destruct (_ <? _)%nat; simpl; repeat split.
Qed.

Lemma appendTranscript_quiet (h : handleExec) (os : OS.t) (s : string) :
  quiet h os h (appendTranscript h os s).
Proof.
  split; [repeat split | split; [reflexivity |]].
  apply sameOutside_AppendFile. unfold notTranscript. tauto.
Qed.

Lemma receive_quiet (h : handleExec) (os : OS.t) : quiet h os (setEvents h (tail (events h))) os.
Proof. repeat split. Qed.

Lemma readStderrLine_quiet (h : handleExec) (os : OS.t) (text : string) :
  quiet h os (readStderrLine h os text).1 (readStderrLine h os text).2.
Proof.
  unfold readStderrLine. destruct (isNoisyCodexStderr _); simpl.
  - apply appendTranscript_quiet.
  - eapply quiet_trans; [apply appendTranscript_quiet | apply emit_quiet].
Qed.

Lemma readJSONLLine_quiet (h : handleExec) (a : Adapter) (os : OS.t) (l : line) :
  threadID h <> "" \/ announcesNoThread l ->
  (readJSONLLine h a os l).1.2 = a
  /\ quiet h os (readJSONLLine h a os l).1.1 (readJSONLLine h a os l).2.
Proof.
  intros Hq. unfold readJSONLLine.
  destruct (unmarshalLine l) as [ev|] eqn:El.
  2: { destruct (emit h os EventStderr _) as [h1 os1] eqn:Ee. simpl.
       split; [reflexivity |].
       pose proof (emit_quiet h os EventStderr ("bad json: " +:+ lineErr l +:+ nl)) as Q.
       now rewrite Ee in Q. }
  destruct (String.eqb (jsonType ev) "thread.started") eqn:Et.
  - destruct (String.eqb (jsonThreadID ev) "") eqn:Ei; simpl;
      [split; [reflexivity | apply quiet_refl] |].
    destruct (String.eqb (threadID h) "") eqn:Eh.
    + exfalso. apply String.eqb_eq in Et, Eh. apply String.eqb_neq in Ei.
      destruct Hq as [Hq | Hq]; [contradiction | exact (Ei (Hq ev El Et))].
    + simpl. split; [reflexivity | apply quiet_refl].
  - destruct (String.eqb (jsonType ev) "item.completed").
    + destruct (jsonItem ev) as [it|]; [| split; [reflexivity | apply quiet_refl]].
      destruct (_ && _); [| split; [reflexivity | apply quiet_refl]].
      set (txt := if negb (Go.HasSuffix (itemText it) nl) then _ else _).
      destruct (emit h (appendTranscript h os txt) EventStdout txt) as [h1 os1] eqn:Ee.
      simpl. split; [reflexivity |].
      pose proof (emit_quiet h (appendTranscript h os txt) EventStdout txt) as Q.
      rewrite Ee in Q. simpl in Q.
      eapply quiet_trans; [apply appendTranscript_quiet | exact Q].
    + destruct (String.eqb (jsonType ev) "turn.completed");
        (split; [reflexivity | apply quiet_refl]).
Qed.

Lemma doStep_quiet (h : handleExec) (a : Adapter) (os : OS.t) (s : step) :
  threadID h <> "" \/ stepAnnouncesNoThread s ->
  (doStep (h, a, os) s).1.2 = a
  /\ quiet h os (doStep (h, a, os) s).1.1 (doStep (h, a, os) s).2.
Proof.
  intros Hh. destruct s as [l | text |]; simpl.
  - apply readJSONLLine_quiet. exact Hh.
  - pose proof (readStderrLine_quiet h os text) as Q.
    destruct (readStderrLine h os text) as [h1 os1]. simpl in *. now split.
  - split; [reflexivity | apply receive_quiet].
Qed.

Lemma steps_quiet (ss : list step) (h : handleExec) (a : Adapter) (os : OS.t) :
  threadID h <> "" \/ Forall stepAnnouncesNoThread ss ->
  (foldl doStep (h, a, os) ss).1.2 = a
  /\ quiet h os (foldl doStep (h, a, os) ss).1.1 (foldl doStep (h, a, os) ss).2.
Proof.
  revert h a os; induction ss as [|s ss IH]; intros h a os Hh; cbn [foldl].
  - split; [reflexivity | apply quiet_refl].
  - assert (Hs : threadID h <> "" \/ stepAnnouncesNoThread s).
    { destruct Hh as [Hh | Hh]; [now left | right; now inversion Hh]. }
    destruct (doStep_quiet h a os s Hs) as [Ea Q].
    destruct (doStep (h, a, os) s) as [[h1 a1] os1]. simpl in Ea, Q. subst a1.
    assert (Hh1 : threadID h1 <> "" \/ Forall stepAnnouncesNoThread ss).
    { destruct Hh as [Hh | Hh]; [left | right; now inversion Hh].
      destruct Q as (_ & -> & _); exact Hh. }
    destruct (IH h1 a os1 Hh1) as [Ea' Q'].
    split; [exact Ea' | eapply quiet_trans; eassumption].
Qed.

Lemma readJSONL_steps (h : handleExec) (a : Adapter) (os : OS.t) (ls : list line)
    (err : option string) :
  readJSONL h a os ls err
  = let '(h1, a1, os1) := foldl doStep (h, a, os) (StdoutLine <$> ls) in
    match err with
    | Some e =>
        let '(h2, os2) := emit h1 os1 EventStderr ("jsonl read error: " +:+ e +:+ nl) in
        (h2, a1, os2)
    | None => (h1, a1, os1)
    end.
Proof.
  unfold readJSONL. f_equal.
  generalize (h, a, os). induction ls as [|l ls IH]; intros st; [reflexivity |].
  rewrite fmap_cons. cbn [foldl]. rewrite IH. destruct st as [[h0 a0] os0]. reflexivity.
Qed.

(** ** The thread store *)

Lemma getThread_clearThread (a : Adapter) (os : OS.t) (key : string) :
  getThread (clearThread a os key).1 key = "".
Proof.
  unfold clearThread, getThread. destruct (String.eqb key "") eqn:Ek; [reflexivity |].
  destruct (threads a) as [m|] eqn:Em.
  - destruct (m !! key) eqn:El; cbn [fst threads setThreads threadOf].
    + now rewrite lookup_delete_eq.
    + rewrite Em. cbn [threadOf]. now rewrite El.
  - cbn [fst]. now rewrite Em.
Qed.

Lemma setThread_store (a : Adapter) (os : OS.t) (key tid : string) :
  key <> "" -> tid <> "" ->
  threads (setThread a os key tid).1 = Some (<[key := tid]> (default ∅ (threads a)))
  /\ getThread (setThread a os key tid).1 key = tid.
Proof.
  intros Hk Ht. unfold setThread, getThread.
  apply String.eqb_neq in Hk, Ht. rewrite Hk, Ht. simpl.
  destruct (String.eqb (default "" (default ∅ (threads a) !! key)) tid) eqn:E; simpl.
  - apply String.eqb_eq in E.
    destruct (default ∅ (threads a) !! key) as [t|] eqn:El; simpl in E.
    + subst t. rewrite insert_id by exact El. now split.
    + subst tid. discriminate.
  - rewrite lookup_insert_eq. now split.
Qed.

Lemma setThread_saves (a : Adapter) (os : OS.t) (key tid : string) :
  key <> "" -> tid <> "" -> threadOf (threads a) key <> tid ->
  (setThread a os key tid).2
  = saveStateLocked (setThreads a (Some (<[key := tid]> (default ∅ (threads a))))) os.
Proof.
  intros Hk Ht Hne. unfold setThread.
  apply String.eqb_neq in Hk, Ht. rewrite Hk, Ht. simpl.
  assert (E : String.eqb (default "" (default ∅ (threads a) !! key)) tid = false).
  { apply String.eqb_neq. intros E. apply Hne. unfold threadOf.
    destruct (threads a) as [m|]; simpl in *; [exact E |].
    now rewrite lookup_empty in E. }
  rewrite E. reflexivity.
Qed.

Lemma setThread_adapter (a : Adapter) (os : OS.t) (key tid : string) :
  key <> "" -> tid <> "" ->
  (setThread a os key tid).1 = setThreads a (Some (<[key := tid]> (default ∅ (threads a)))).
Proof.
  intros Hk Ht. unfold setThread.
  apply String.eqb_neq in Hk, Ht. rewrite Hk, Ht. simpl.
  destruct (String.eqb (default "" (default ∅ (threads a) !! key)) tid) eqn:E; simpl.
  - apply String.eqb_eq in E.
    destruct (default ∅ (threads a) !! key) as [t|] eqn:El; simpl in E.
    + subst t. now rewrite insert_id by exact El.
    + subst tid. discriminate.
  - reflexivity.
Qed.

Lemma adoption (h : handleExec) (a : Adapter) (os : OS.t) (l : line) (ev : codexJSON) :
  threadID h = "" -> chatKey h <> "" -> hasAdapter h = true ->
  unmarshalLine l = Some ev -> jsonType ev = "thread.started" -> jsonThreadID ev <> "" ->
  readJSONLLine h a os l
  = (setThreadID h (jsonThreadID ev),
     (setThread a os (chatKey h) (jsonThreadID ev)).1,
     appendTranscript (setThreadID h (jsonThreadID ev))
       (setThread a os (chatKey h) (jsonThreadID ev)).2
       ("[resume thread_id " +:+ jsonThreadID ev +:+ "]" +:+ nl)).
Proof.
  intros Hh Hk Ha Hl Ht Hi. unfold readJSONLLine. rewrite Hl, Ht.
  rewrite String.eqb_refl. apply String.eqb_neq in Hk, Hi. rewrite Hi. cbn [negb].
  rewrite Hh, String.eqb_refl, Hi, Hk. cbn [negb andb hasAdapter setThreadID].
  rewrite Ha. destruct (setThread a os (chatKey h) (jsonThreadID ev)). reflexivity.
Qed.

Lemma sendExec_keeps_thread (a : Adapter) (h : handleExec) (os : OS.t) (input : string)
    (c : child) :
  threadID h <> "" ->
  threadID (sendExec a h os input c).1.1.2 = threadID h
  /\ (sendExec a h os input c).1.2 = a.
Proof.
  intros Hh. unfold sendExec.
  destruct (String.eqb (Go.TrimSpace input) ""); [now split |].
  destruct (startErr c); [now split |].
  set (h1 := setRunning h true).
  set (os2 := appendTranscript h1 _ _).
  assert (Hh1 : threadID h1 <> "" \/ Forall stepAnnouncesNoThread (schedule c)) by now left.
  destruct (steps_quiet (schedule c) h1 a os2 Hh1) as [Ea (_ & Et & _)].
  destruct (foldl doStep (h1, a, os2) (schedule c)) as [[h2 a2] os3].
  simpl in Ea, Et. subst a2.
  destruct (scanErr c) as [e|].
  - pose proof (emit_quiet h2 os3 EventStderr ("jsonl read error: " +:+ e +:+ nl))
      as (_ & Et' & _).
    destruct (emit h2 os3 EventStderr _) as [h3 os4]. simpl in *.
    split; [congruence | reflexivity].
  - simpl. split; [congruence | reflexivity].
Qed.

(** The first announced thread, under every interleaving of the two
    readers and the consumer of events. *)
Lemma first_thread_steps (h : handleExec) (a : Adapter) (os : OS.t)
    (pre post : list step) (l1 : line) (ev1 : codexJSON) :
  threadID h = "" -> chatKey h <> "" -> hasAdapter h = true ->
  Forall stepAnnouncesNoThread pre ->
  unmarshalLine l1 = Some ev1 -> jsonType ev1 = "thread.started" -> jsonThreadID ev1 <> "" ->
  let r := foldl doStep (h, a, os) (pre ++ StdoutLine l1 :: post) in
  threadID r.1.1 = jsonThreadID ev1
  /\ sameIdentity h r.1.1
  /\ r.1.2 = setThreads a (Some (<[chatKey h := jsonThreadID ev1]> (default ∅ (threads a))))
  /\ OS.faulty r.2 = OS.faulty os
  /\ (statePath a ∉ OS.faulty os -> statePath a +:+ ".tmp" ∉ OS.faulty os ->
      statePath a <> transcriptPath (xLogDir h) (sessionID h) ->
      threadOf (threads a) (chatKey h) <> jsonThreadID ev1 ->
      OS.files r.2 !! statePath a = Some (OS.Doc (encodeStateFile (threads r.1.2)))).
Proof.
  intros Hh Hk Ha Hpre Hl Ht Hi. cbv zeta. rewrite foldl_app. cbn [foldl].
  destruct (steps_quiet pre h a os (or_intror Hpre)) as [Ea Q].
  destruct (foldl doStep (h, a, os) pre) as [[hp ap] osp]. simpl in Ea, Q. subst ap.
  destruct Q as (Ip & Tp & Sp).
  assert (Ip' := Ip). destruct Ip' as (P1 & P2 & P3 & P4 & P5 & P6 & P7).
  change (doStep (hp, a, osp) (StdoutLine l1)) with (readJSONLLine hp a osp l1).
  rewrite (adoption hp a osp l1 ev1) by congruence.
  rewrite P2. set (T1 := jsonThreadID ev1) in *.
  set (h1 := setThreadID hp T1).
  set (os1 := appendTranscript h1 (setThread a osp (chatKey h) T1).2 _).
  rewrite setThread_adapter by assumption.
  set (a1 := setThreads a _).
  assert (Hh1 : threadID h1 <> "" \/ Forall stepAnnouncesNoThread post) by (left; exact Hi).
  destruct (steps_quiet post h1 a1 os1 Hh1) as [Ea1 Q1].
  destruct (foldl doStep (h1, a1, os1) post) as [[hf af] osf]. simpl in Ea1, Q1. subst af.
  destruct Q1 as (If & Tf & Sf). cbn [fst snd].
  assert (I1 : sameIdentity h h1) by exact Ip.
  assert (Ihf : sameIdentity h hf).
  { destruct I1 as (E1 & E2 & E3 & E4 & E5 & E6 & E7).
    destruct If as (F1 & F2 & F3 & F4 & F5 & F6 & F7). repeat split; congruence. }
  assert (Efa : OS.faulty os1 = OS.faulty osp).
  { subst os1. unfold appendTranscript.
    destruct (AppendFile_frame (setThread a osp (chatKey h) T1).2
                (transcriptPath (xLogDir h1) (sessionID h1))
                ("[resume thread_id " +:+ T1 +:+ "]" +:+ nl)) as (A1 & _).
    rewrite A1. unfold setThread.
    destruct (_ || _); [reflexivity |]. destruct (String.eqb _ T1); [reflexivity |].
    unfold saveStateLocked. cbn [snd].
    now destruct (save_frame osp (statePath a)
                    (OS.Doc (encodeStateFile
                       (Some (<[chatKey h := T1]> (default ∅ (threads a))))))) as (B1 & _). }
  split; [exact Tf |]. split; [exact Ihf |]. split; [reflexivity |].
  split; [rewrite (same_faulty _ _ _ Sf), Efa; apply (same_faulty _ _ _ Sp) |].
  intros Hf1 Hf2 Hnt Hne.
  assert (Hnt1 : notTranscript h1 (statePath a)).
  { unfold notTranscript. destruct I1 as (E1 & _ & E3 & _). now rewrite E3, E1. }
  rewrite (same_files _ _ _ Sf) by exact Hnt1.
  subst os1. unfold appendTranscript.
  destruct (AppendFile_frame (setThread a osp (chatKey h) T1).2
              (transcriptPath (xLogDir h1) (sessionID h1))
              ("[resume thread_id " +:+ T1 +:+ "]" +:+ nl)) as (_ & _ & _ & _ & _ & A6).
  rewrite A6 by exact Hnt1.
  rewrite setThread_saves by assumption.
  pose proof (save_then_read osp (statePath a)
                (OS.Doc (encodeStateFile (threads a1)))) as R.
  rewrite (same_faulty _ _ _ Sp) in R. specialize (R Hf1 Hf2).
  unfold OS.ReadFile in R. rewrite decide_False in R.
  - exact R.
  - destruct (save_frame osp (statePath a) (OS.Doc (encodeStateFile (threads a1))))
      as (B1 & _). cbv zeta in B1. rewrite B1, (same_faulty _ _ _ Sp). exact Hf1.
Qed.

(** On a handle that knows no thread identifier yet and has a
    conversation key, the first [thread.started] record with a non-empty
    identifier is adopted and stored. *)
Lemma first_thread_stored (h : handleExec) (a : Adapter) (os : OS.t)
    (pre post : list line) (l1 : line) (ev1 : codexJSON) (err : option string) :
  threadID h = "" -> chatKey h <> "" -> hasAdapter h = true ->
  Forall announcesNoThread pre ->
  unmarshalLine l1 = Some ev1 -> jsonType ev1 = "thread.started" -> jsonThreadID ev1 <> "" ->
  let '(h', a', os') := readJSONL h a os (pre ++ l1 :: post) err in
  threadID h' = jsonThreadID ev1
  /\ getThread a' (chatKey h) = jsonThreadID ev1
  /\ (forall a0,
        statePath a0 = statePath a ->
        statePath a ∉ OS.faulty os -> statePath a +:+ ".tmp" ∉ OS.faulty os ->
        statePath a <> transcriptPath (xLogDir h) (sessionID h) ->
        threadOf (threads a) (chatKey h) <> jsonThreadID ev1 ->
        validThreads (<[chatKey h := jsonThreadID ev1]> (default ∅ (threads a))) ->
        getThread (loadState a0 os') (chatKey h) = jsonThreadID ev1)
  /\ (forall input c,
        let '(_, h2, a2, _) := sendExec a' h' os' input c in
        threadID h2 = jsonThreadID ev1 /\ getThread a2 (chatKey h) = jsonThreadID ev1).
Proof.
  intros Hh Hk Ha Hpre Hl Ht Hi. rewrite readJSONL_steps, fmap_app, fmap_cons.
  assert (Hpre' : Forall stepAnnouncesNoThread (StdoutLine <$> pre))
    by (apply Forall_fmap; exact Hpre).
  destruct (first_thread_steps h a os (StdoutLine <$> pre) (StdoutLine <$> post) l1 ev1
              Hh Hk Ha Hpre' Hl Ht Hi) as (R1 & R2 & R3 & R4 & R5).
  destruct (foldl doStep (h, a, os) _) as [[h1 a1] os1]. cbn [fst snd] in *.
  set (T1 := jsonThreadID ev1) in *.
  assert (Hget : getThread a1 (chatKey h) = T1).
  { rewrite R3. unfold getThread. apply String.eqb_neq in Hk. rewrite Hk. simpl.
    now rewrite lookup_insert_eq. }
  assert (Hfinal : forall h' os',
             quiet h1 os1 h' os' ->
             threadID h' = T1
             /\ getThread a1 (chatKey h) = T1
             /\ (forall a0,
                   statePath a0 = statePath a ->
                   statePath a ∉ OS.faulty os -> statePath a +:+ ".tmp" ∉ OS.faulty os ->
                   statePath a <> transcriptPath (xLogDir h) (sessionID h) ->
                   threadOf (threads a) (chatKey h) <> T1 ->
                   validThreads (<[chatKey h := T1]> (default ∅ (threads a))) ->
                   getThread (loadState a0 os') (chatKey h) = T1)
             /\ (forall input c,
                   let '(_, h2, a2, _) := sendExec a1 h' os' input c in
                   threadID h2 = T1 /\ getThread a2 (chatKey h) = T1)).
  { intros h' os' (I' & T' & S'). split; [congruence |]. split; [exact Hget |]. split.
    - intros a0 Hp Hf1 Hf2 Hnt Hne Hvalid.
      specialize (R5 Hf1 Hf2 Hnt Hne).
      unfold loadState, OS.ReadFile. rewrite Hp.
      rewrite (same_faulty _ _ _ S'), R4, decide_False by exact Hf1.
      rewrite (same_files _ _ _ S').
      + rewrite R5, R3. cbn [threads setThreads].
        rewrite decodeStateFile_encode by exact Hvalid.
        cbn [threads setThreads]. unfold getThread.
        apply String.eqb_neq in Hk. rewrite Hk. simpl. now rewrite lookup_insert_eq.
      + unfold notTranscript. destruct R2 as (E1 & _ & E3 & _). now rewrite E3, E1.
    - intros input c.
      assert (Hne : threadID h' <> "") by (rewrite T', R1; exact Hi).
      destruct (sendExec_keeps_thread a1 h' os' input c Hne) as [K1 K2].
      destruct (sendExec a1 h' os' input c) as [[[e h2] a2] os2]. cbn [fst snd] in *.
      subst a2. split; [congruence | exact Hget]. }
  destruct err as [e|].
  - pose proof (emit_quiet h1 os1 EventStderr ("jsonl read error: " +:+ e +:+ nl)) as Q.
    destruct (emit h1 os1 EventStderr _) as [h2 os2]. apply Hfinal. exact Q.
  - apply Hfinal. apply quiet_refl.
Qed.

(** Without a conversation key, or without adapter, the identifier is
    adopted by the handle and stored nowhere. *)
Lemma adoption_unstored (h : handleExec) (a : Adapter) (os : OS.t) (l : line)
    (ev : codexJSON) :
  threadID h = "" -> chatKey h = "" \/ hasAdapter h = false ->
  unmarshalLine l = Some ev -> jsonType ev = "thread.started" -> jsonThreadID ev <> "" ->
  readJSONLLine h a os l = (setThreadID h (jsonThreadID ev), a, os).
Proof.
  intros Hh Hk Hl Ht Hi. unfold readJSONLLine. rewrite Hl, Ht.
  rewrite String.eqb_refl. apply String.eqb_neq in Hi. rewrite Hi. cbn [negb].
  rewrite Hh, String.eqb_refl, Hi. cbn [negb andb hasAdapter setThreadID].
  destruct Hk as [-> | ->]; [now rewrite String.eqb_refl | now rewrite andb_false_r].
Qed.

Lemma first_thread_unstored (h : handleExec) (a : Adapter) (os : OS.t)
    (pre post : list line) (l1 : line) (ev1 : codexJSON) (err : option string) :
  threadID h = "" -> chatKey h = "" \/ hasAdapter h = false ->
  Forall announcesNoThread pre ->
  unmarshalLine l1 = Some ev1 -> jsonType ev1 = "thread.started" -> jsonThreadID ev1 <> "" ->
  let r := readJSONL h a os (pre ++ l1 :: post) err in
  threadID r.1.1 = jsonThreadID ev1 /\ r.1.2 = a /\ sameOutside (notTranscript h) os r.2.
Proof.
  intros Hh Hk Hpre Hl Ht Hi. cbv zeta.
  rewrite readJSONL_steps, fmap_app, fmap_cons, foldl_app. cbn [foldl].
  assert (Hpre' : Forall stepAnnouncesNoThread (StdoutLine <$> pre))
    by (apply Forall_fmap; exact Hpre).
  destruct (steps_quiet (StdoutLine <$> pre) h a os (or_intror Hpre')) as [Ea Q].
  destruct (foldl doStep (h, a, os) (StdoutLine <$> pre)) as [[hp ap] osp].
  cbn [fst snd] in Ea, Q. subst ap.
  assert (Qp := Q). destruct Qp as (Ip & Tp & Sp).
  destruct Ip as (P1 & P2 & P3 & P4 & P5 & P6 & P7).
  change (doStep (hp, a, osp) (StdoutLine l1)) with (readJSONLLine hp a osp l1).
  rewrite (adoption_unstored hp a osp l1 ev1) by (rewrite ?P2, ?P7; congruence).
  set (h1 := setThreadID hp (jsonThreadID ev1)).
  assert (Hh1 : threadID h1 <> "" \/ Forall stepAnnouncesNoThread (StdoutLine <$> post))
    by (left; exact Hi).
  destruct (steps_quiet (StdoutLine <$> post) h1 a osp Hh1) as [Ea1 Q1].
  destruct (foldl doStep (h1, a, osp) (StdoutLine <$> post)) as [[hf af] osf].
  cbn [fst snd] in Ea1, Q1. subst af.
  assert (Hout : forall h' os', quiet hf osf h' os' ->
            threadID h' = jsonThreadID ev1 /\ a = a /\ sameOutside (notTranscript h) os os').
  { intros h' os' Q2. destruct (quiet_trans _ _ _ _ _ _ Q1 Q2) as (I3 & T3 & S3).
    split; [exact T3 |]. split; [reflexivity |].
    apply (sameOutside_trans _ _ _ _ Sp).
    unfold notTranscript in *. cbn [xLogDir sessionID setThreadID h1] in S3.
    now rewrite P3, P1 in S3. }
  destruct err as [e|].
  - pose proof (emit_quiet hf osf EventStderr ("jsonl read error: " +:+ e +:+ nl)) as Q2.
    destruct (emit hf osf EventStderr _) as [h2 os2]. cbn [fst snd] in *. now apply Hout.
  - cbn [fst snd]. apply Hout, quiet_refl.
Qed.

Lemma thread_kept (h : handleExec) (a : Adapter) (os : OS.t) (ls : list line)
    (err : option string) :
  threadID h <> "" ->
  let r := readJSONL h a os ls err in
  threadID r.1.1 = threadID h /\ r.1.2 = a /\ sameOutside (notTranscript h) os r.2.
Proof.
  intros Hh. cbv zeta. rewrite readJSONL_steps.
  destruct (steps_quiet (StdoutLine <$> ls) h a os (or_introl Hh)) as [Ea Q].
  destruct (foldl doStep (h, a, os) (StdoutLine <$> ls)) as [[h1 a1] os1].
  cbn [fst snd] in Ea, Q. subst a1.
  destruct err as [e|].
  - pose proof (emit_quiet h1 os1 EventStderr ("jsonl read error: " +:+ e +:+ nl)) as Q2.
    destruct (emit h1 os1 EventStderr _) as [h2 os2]. cbn [fst snd] in *.
    destruct (quiet_trans _ _ _ _ _ _ Q Q2) as (_ & T & S).
    split; [exact T | split; [reflexivity | exact S]].
  - cbn [fst snd]. destruct Q as (_ & T & S).
    split; [exact T | split; [reflexivity | exact S]].
Qed.

(** C3 (as amended).  A stream of standard output in which a
    [thread.started] record with the identifier T1 is the first to carry
    an identifier, whatever follows it (a second record with another
    identifier included), read by [readJSONL] on a handle.  When the
    handle has no thread identifier yet and has a conversation key, T1
    becomes the identifier of the handle and the entry of the
    conversation in the thread store; it is what a reader of the state
    file gets, when the store did not hold it before, the save succeeds
    and the strings of the store are valid UTF-8; and every later turn
    on the handle leaves both as they are.  When the handle has no
    thread identifier and no conversation key (or no adapter), T1
    becomes the identifier of the handle, and the adapter and every file
    but the transcript stay as they are: nothing is persisted.  When the
    handle already carries an identifier, as a resumed session does, it
    keeps it, and the adapter and every file but the transcript stay as
    they are: T1 is neither adopted nor persisted. *)
Theorem first_thread_id_wins (h : handleExec) (a : Adapter) (os : OS.t)
    (pre post : list line) (l1 : line) (ev1 : codexJSON) (err : option string) :
  Forall announcesNoThread pre ->
  unmarshalLine l1 = Some ev1 -> jsonType ev1 = "thread.started" -> jsonThreadID ev1 <> "" ->
  let '(h', a', os') := readJSONL h a os (pre ++ l1 :: post) err in
  (threadID h = "" -> chatKey h <> "" -> hasAdapter h = true ->
   threadID h' = jsonThreadID ev1
   /\ getThread a' (chatKey h) = jsonThreadID ev1
   /\ (forall a0,
         statePath a0 = statePath a ->
         statePath a ∉ OS.faulty os -> statePath a +:+ ".tmp" ∉ OS.faulty os ->
         statePath a <> transcriptPath (xLogDir h) (sessionID h) ->
         threadOf (threads a) (chatKey h) <> jsonThreadID ev1 ->
         validThreads (<[chatKey h := jsonThreadID ev1]> (default ∅ (threads a))) ->
         getThread (loadState a0 os') (chatKey h) = jsonThreadID ev1)
   /\ (forall input c,
         let '(_, h2, a2, _) := sendExec a' h' os' input c in
         threadID h2 = jsonThreadID ev1 /\ getThread a2 (chatKey h) = jsonThreadID ev1))
  /\ (threadID h = "" -> chatKey h = "" \/ hasAdapter h = false ->
      threadID h' = jsonThreadID ev1 /\ a' = a /\ sameOutside (notTranscript h) os os')
  /\ (threadID h <> "" ->
      threadID h' = threadID h /\ a' = a /\ sameOutside (notTranscript h) os os').
Proof.
  intros Hpre Hl Ht Hi.
  pose proof (fun Hh Hk Ha => first_thread_stored h a os pre post l1 ev1 err Hh Hk Ha
                                Hpre Hl Ht Hi) as A.
  pose proof (fun Hh Hk => first_thread_unstored h a os pre post l1 ev1 err Hh Hk
                             Hpre Hl Ht Hi) as B.
  pose proof (thread_kept h a os (pre ++ l1 :: post) err) as C.
  cbv zeta in B, C.
  destruct (readJSONL h a os (pre ++ l1 :: post) err) as [[h' a'] os'].
  cbn [fst snd] in *. split; [exact A |]. split; [exact B | exact C].
Qed.

Lemma first_thread_id_wins_witness :
  let '(h', a', os') :=
    readJSONL Sample.h0 Sample.a0 Sample.os0
      ([] ++ Sample.threadStarted "T1" :: [Sample.threadStarted "T2"]) None in
  threadID h' = "T1"
  /\ getThread a' "42" = "T1"
  /\ (forall a0,
        statePath a0 = "logs/state.json" ->
        "logs/state.json" ∉ OS.faulty Sample.os0 ->
        "logs/state.json" +:+ ".tmp" ∉ OS.faulty Sample.os0 ->
        "logs/state.json" <> transcriptPath "logs" "chat-42-1700000000" ->
        threadOf (threads Sample.a0) "42" <> "T1" ->
        validThreads (<["42" := "T1"]> (default ∅ (threads Sample.a0))) ->
        getThread (loadState a0 os') "42" = "T1")
  /\ (forall input c,
        let '(_, h2, a2, _) := sendExec a' h' os' input c in
        threadID h2 = "T1" /\ getThread a2 "42" = "T1").
Proof.
  pose proof (first_thread_id_wins Sample.h0 Sample.a0 Sample.os0 []
                [Sample.threadStarted "T2"] (Sample.threadStarted "T1")
                (mkJSON "thread.started" "T1" None) None) as W.
  assert (H1 : Forall announcesNoThread []) by constructor.
  assert (H2 : unmarshalLine (Sample.threadStarted "T1")
               = Some (mkJSON "thread.started" "T1" None)) by reflexivity.
  assert (H3 : jsonType (mkJSON "thread.started" "T1" None) = "thread.started")
    by reflexivity.
  assert (H4 : jsonThreadID (mkJSON "thread.started" "T1" None) <> "") by discriminate.
  specialize (W H1 H2 H3 H4).
  destruct (readJSONL Sample.h0 Sample.a0 Sample.os0
              ([] ++ Sample.threadStarted "T1" :: [Sample.threadStarted "T2"]) None)
    as [[h' a'] os'].
  destruct W as (W & _). apply W; [reflexivity | discriminate | reflexivity].
Defined.

(** C3, the claim as stated fails.  The session of a chat with a
    negative identifier has no conversation key: its handle adopts T1,
    and the thread store and the state file never hold it.  A resumed
    session carries the stored identifier T0 from the start: after the
    two records the handle and the store still hold T0, not T1. *)
Lemma first_thread_id_not_adopted :
  let ls := [Sample.threadStarted "T1"; Sample.threadStarted "T2"] in
  (let '(h, a, os) :=
     startExec Sample.a0 (resumeID (-1001) Sample.os0).2 (resumeID (-1001) Sample.os0).1 in
   let '(h', a', os') := readJSONL h a os ls None in
   chatKey h = "" /\ threadID h = "" /\ threadID h' = "T1"
   /\ threads a' = Some ∅ /\ OS.files os' !! statePath a' = None)
  /\ (let a0 := setThreads Sample.a0 (Some {[ "42" := "T0" ]}) in
      let '(h, a, os) :=
        startExec a0 (resumeID 42 Sample.os0).2 (resumeID 42 Sample.os0).1 in
      let '(h', a', os') := readJSONL h a os ls None in
      chatKey h = "42" /\ threadID h = "T0" /\ threadID h' = "T0"
      /\ getThread a' "42" = "T0" /\ OS.files os' !! statePath a' = None).
Proof. cbv zeta. split; vm_compute; repeat split; reflexivity. Qed.

(** ** The conversation key of a session identifier *)

Lemma bytes_append (a b : string) : Go.bytes (a +:+ b) = Go.bytes a ++ Go.bytes b.
Proof.
  unfold Go.bytes. induction a as [|c a IH]; [reflexivity |].
  rewrite append_cons. simpl. now rewrite IH.
Qed.

Lemma bytes_string_of_list (l : list ascii) : Go.bytes (string_of_list_ascii l) = l.
Proof. apply list_ascii_of_string_of_list_ascii. Qed.

Lemma HasPrefix_app (p x : string) : Go.HasPrefix (p +:+ x) p = true.
Proof.
  unfold Go.HasPrefix, Go.len, Go.slice. rewrite length_append.
  apply andb_true_intro. split; [apply Z.leb_le; lia |].
  rewrite Z.sub_0_r, Nat2Z.id. change (Z.to_nat 0) with 0%nat.
  apply String.eqb_eq.
  induction p as [|c p IH]; [now destruct x | rewrite append_cons; simpl; now rewrite IH].
Qed.

Lemma TrimPrefix_app (p x : string) : Go.TrimPrefix (p +:+ x) p = x.
Proof.
  unfold Go.TrimPrefix. rewrite HasPrefix_app. unfold Go.slice, Go.len.
  rewrite length_append, Nat2Z.id.
  replace (Z.to_nat (Z.of_nat (String.length p + String.length x) - Z.of_nat (String.length p)))
    with (String.length x) by lia.
  rewrite substring_skip. apply substring_all.
Qed.

(** The decimal digits [fmt.Sprintf] writes. *)
Lemma digit_char (k : nat) :
  (k < 10)%nat -> Go.inRange 48 57 (ascii_of_nat (k + 48)) = true.
Proof.
  intros Hk. unfold Go.inRange. rewrite nat_ascii_embedding by lia.
  apply andb_true_intro. split; apply Nat.leb_le; lia.
Qed.

Lemma digitsOf_digits (fuel : nat) :
  forall n acc,
    Forall (fun c => Go.inRange 48 57 c = true) acc ->
    Forall (fun c => Go.inRange 48 57 c = true) (Go.digitsOf fuel n acc).
Proof.
  induction fuel as [|fuel IH]; intros n acc Hacc; [exact Hacc |].
  cbn [Go.digitsOf].
  assert (Hd : Forall (fun c => Go.inRange 48 57 c = true)
                 (ascii_of_nat (Z.to_nat (n mod 10) + 48) :: acc)).
  { constructor; [| exact Hacc]. apply digit_char.
    pose proof (Z.mod_pos_bound n 10 ltac:(lia)). lia. }
  destruct (n <? 10); [exact Hd | now apply IH].
Qed.

Lemma digitsOf_nonempty (fuel : nat) :
  forall n acc, acc <> [] -> Go.digitsOf fuel n acc <> [].
Proof.
  induction fuel as [|fuel IH]; intros n acc Hacc; [exact Hacc |].
  cbn [Go.digitsOf]. destruct (n <? 10); [discriminate | apply IH; discriminate].
Qed.

Lemma digitsOf_some (fuel : nat) (n : Z) : Go.digitsOf (S fuel) n [] <> [].
Proof.
  cbn [Go.digitsOf]. destruct (n <? 10); [discriminate | apply digitsOf_nonempty; discriminate].
Qed.

Lemma Itoa_bytes (n : Z) :
  exists ds, ds <> [] /\ Forall (fun c => Go.inRange 48 57 c = true) ds
             /\ Go.bytes (Go.Itoa n) = if n <? 0 then "-"%char :: ds else ds.
Proof.
  unfold Go.Itoa. destruct (n <? 0).
  - exists (Go.digitsOf 20 (- n) []). split; [| split].
    + apply (digitsOf_some 19).
    + apply digitsOf_digits. constructor.
    + rewrite bytes_append, bytes_string_of_list. reflexivity.
  - exists (Go.digitsOf 20 n []). split; [| split].
    + apply (digitsOf_some 19).
    + apply digitsOf_digits. constructor.
    + apply bytes_string_of_list.
Qed.

Lemma digit_not_dash (c : ascii) : Go.inRange 48 57 c = true -> c <> "-"%char.
Proof. intros H ->. vm_compute in H. discriminate. Qed.

(** [strings.Split] on a one-byte separator: the first piece ends at the
    first separator. *)
Lemma splitFrom_piece (c : ascii) (pre rest cur : list ascii) :
  Forall (fun x => x <> c) pre ->
  Go.splitFrom [c] 0 cur (pre ++ c :: rest)
  = string_of_list_ascii (rev cur ++ pre) :: Go.splitFrom [c] 0 [] rest.
Proof.
  intros Hpre. revert cur. induction Hpre as [|x pre Hx _ IH]; intros cur.
  - cbn [app Go.splitFrom Go.isPrefixOf]. rewrite bool_decide_eq_true_2 by reflexivity.
    cbn [andb length Nat.sub]. now rewrite app_nil_r.
  - cbn [app Go.splitFrom Go.isPrefixOf].
    rewrite bool_decide_eq_false_2 by (intros E; apply Hx; now symmetry).
    cbn [andb]. rewrite IH. cbn [rev]. now rewrite <- app_assoc.
Qed.

Lemma splitFrom_nonempty (sep : list ascii) (l : list ascii) :
  forall skip cur, Go.splitFrom sep skip cur l <> [].
Proof.
  induction l as [|x l IH]; intros skip cur; [discriminate |].
  cbn [Go.splitFrom]. destruct skip; [| apply IH].
  destruct (Go.isPrefixOf sep (x :: l)); [discriminate | apply IH].
Qed.

Lemma parseChatKey_key (n : Z) (rest : string) :
  (parseChatKey ("chat-" +:+ Go.Itoa n +:+ "-" +:+ rest)).1
  = if n <? 0 then "" else Go.Itoa n.
Proof.
  unfold parseChatKey. cbn [fst]. rewrite HasPrefix_app, TrimPrefix_app.
  unfold Go.Split. rewrite !bytes_append.
  change (Go.bytes "-") with ["-"%char]. cbn [app].
  destruct (Itoa_bytes n) as (ds & Hne & Hds & Hb). rewrite Hb.
  destruct (n <? 0).
  - change (("-"%char :: ds) ++ "-"%char :: Go.bytes rest)
      with ([] ++ "-"%char :: (ds ++ "-"%char :: Go.bytes rest)).
    rewrite splitFrom_piece by constructor.
    cbn [rev app string_of_list_ascii].
    destruct (Go.splitFrom ["-"%char] 0 [] (ds ++ "-"%char :: Go.bytes rest)) eqn:E;
      [now apply splitFrom_nonempty in E | reflexivity].
  - rewrite (splitFrom_piece "-"%char ds (Go.bytes rest) []).
    2: { eapply Forall_impl; [exact Hds | intros c Hc; now apply digit_not_dash]. }
    cbn [rev app].
    destruct (Go.splitFrom ["-"%char] 0 [] (Go.bytes rest)) eqn:E;
      [now apply splitFrom_nonempty in E |].
    rewrite <- Hb. unfold Go.bytes. rewrite string_of_list_ascii_of_string.
    destruct (String.eqb (Go.Itoa n) "") eqn:Ee; [| reflexivity].
    apply String.eqb_eq in Ee. now rewrite Ee.
Qed.

Lemma HasSuffix_after_number (a : string) (n : Z) :
  Go.HasSuffix (a +:+ Go.Itoa n) "-fresh" = false.
Proof.
  destruct (Go.HasSuffix (a +:+ Go.Itoa n) "-fresh") eqn:E; [exfalso | reflexivity].
  apply HasSuffix_inv in E as [p E]. apply (f_equal Go.bytes) in E.
  rewrite !bytes_append in E.
  destruct (Itoa_bytes n) as (ds & Hne & Hds & Hb).
  assert (Hlast : exists ds' d, Go.bytes (Go.Itoa n) = ds' ++ [d]
                                /\ Go.inRange 48 57 d = true).
  { destruct (exists_last Hne) as (ds' & d & ->).
    apply Forall_app in Hds as [_ Hd]. apply Forall_inv in Hd.
    rewrite Hb. destruct (n <? 0).
    - exists ("-"%char :: ds'), d. split; [reflexivity | exact Hd].
    - exists ds', d. split; [reflexivity | exact Hd]. }
  destruct Hlast as (ds' & d & Hb' & Hd). rewrite Hb' in E.
  apply (f_equal last) in E.
  change (Go.bytes "-fresh") with (["-"; "f"; "r"; "e"; "s"]%char ++ ["h"%char]) in E.
  rewrite !app_assoc, !last_snoc in E. injection E as ->.
  vm_compute in Hd. discriminate.
Qed.


(** ** Fresh sessions *)


Lemma fresh_suffix (x : string) : Go.HasSuffix (x +:+ "-fresh") "-fresh" = true.
Proof. apply HasSuffix_app. Qed.

Lemma freshID_is_fresh (chatID : Z) (os : OS.t) :
  (parseChatKey (freshID chatID os).1).2 = true.
Proof.
  unfold parseChatKey, freshID. cbn [OS.Now fst snd].
  repeat apply HasSuffix_prepend. apply (HasSuffix_app "").
Qed.

Lemma send_frame (h : handleExec) (os : OS.t) (typ : EventType) (text : string) :
  threadID (send h os typ text).1 = threadID h
  /\ sameIdentity h (send h os typ text).1
  /\ sameOutside (fun _ => True) os (send h os typ text).2.
Proof. unfold send. simpl. repeat split. Qed.


Lemma saveStateLocked_frame (a : Adapter) (os : OS.t) :
  OS.spawned (saveStateLocked a os) = OS.spawned os
  /\ OS.faulty (saveStateLocked a os) = OS.faulty os
  /\ OS.env (saveStateLocked a os) = OS.env os.
Proof.
  unfold saveStateLocked.
  destruct (save_frame os (statePath a) (OS.Doc (encodeStateFile (threads a))))
    as (B1 & B2 & B3 & _).
  cbv zeta in *. now rewrite B1, B2, B3.
Qed.

Lemma readJSONLLine_spawned (h : handleExec) (a : Adapter) (os : OS.t) (l : line) :
  OS.spawned (readJSONLLine h a os l).2 = OS.spawned os.
Proof.
  destruct (String.eqb (threadID h) "") eqn:Eh.
  2: { apply String.eqb_neq in Eh.
       destruct (readJSONLLine_quiet h a os l (or_introl Eh)) as (_ & _ & _ & S).
       apply (same_spawned _ _ _ S). }
  destruct (unmarshalLine l) as [ev|] eqn:El.
  2: { assert (Hn : announcesNoThread l) by (intros ev El'; congruence).
       destruct (readJSONLLine_quiet h a os l (or_intror Hn)) as (_ & _ & _ & S).
       apply (same_spawned _ _ _ S). }
  destruct (String.eqb (jsonType ev) "thread.started") eqn:Et.
  2: { assert (Hn : announcesNoThread l).
       { intros ev' El' Et'. rewrite El in El'. injection El' as <-.
         apply String.eqb_neq in Et. contradiction. }
       destruct (readJSONLLine_quiet h a os l (or_intror Hn)) as (_ & _ & _ & S).
       apply (same_spawned _ _ _ S). }
  unfold readJSONLLine. rewrite El, Et, Eh.
  destruct (String.eqb (jsonThreadID ev) ""); [reflexivity |]. cbn [negb].
  destruct (_ && _); [| reflexivity].
  destruct (setThread a os (chatKey h) (jsonThreadID ev)) as [a1 os1] eqn:Es.
  cbn [snd]. unfold appendTranscript.
  destruct (AppendFile_frame os1
              (transcriptPath (xLogDir (setThreadID h (jsonThreadID ev)))
                 (sessionID (setThreadID h (jsonThreadID ev))))
              ("[resume thread_id " +:+ jsonThreadID ev +:+ "]" +:+ nl))
    as (_ & _ & A3 & _).
  rewrite A3. replace os1 with (setThread a os (chatKey h) (jsonThreadID ev)).2
    by now rewrite Es.
  unfold setThread. destruct (_ || _); [reflexivity |].
  destruct (String.eqb _ (jsonThreadID ev)); [reflexivity |].
  cbn [snd]. apply saveStateLocked_frame.
Qed.

Lemma steps_spawned (ss : list step) (h : handleExec) (a : Adapter) (os : OS.t) :
  OS.spawned (foldl doStep (h, a, os) ss).2 = OS.spawned os.
Proof.
  revert h a os; induction ss as [|s ss IH]; intros h a os; cbn [foldl]; [reflexivity |].
  assert (E : OS.spawned (doStep (h, a, os) s).2 = OS.spawned os).
  { destruct s as [l | text |]; simpl.
    - apply readJSONLLine_spawned.
    - destruct (readStderrLine_quiet h os text) as (_ & _ & S).
      destruct (readStderrLine h os text). apply (same_spawned _ _ _ S).
    - reflexivity. }
  destruct (doStep (h, a, os) s) as [[h1 a1] os1]. rewrite IH. exact E.
Qed.

(** The command a turn starts. *)
Lemma sendExec_spawned (a : Adapter) (h : handleExec) (os : OS.t) (input : string)
    (c : child) :
  Go.TrimSpace input <> "" -> startErr c = None ->
  OS.spawned (sendExec a h os input c).2
  = OS.spawned os ++ [(cmdPath h, execArgv h (threadID h) (Go.TrimSpace input))].
Proof.
  intros Hp Hs. unfold sendExec. apply String.eqb_neq in Hp. rewrite Hp, Hs.
  set (h1 := setRunning h true).
  set (os1 := OS.Start os _ _).
  set (os2 := appendTranscript h1 os1 _).
  pose proof (steps_spawned (schedule c) h1 a os2) as E.
  destruct (foldl doStep (h1, a, os2) (schedule c)) as [[h2 a2] os3]. cbn [snd] in E.
  assert (E2 : OS.spawned os2 = OS.spawned os1).
  { destruct (appendTranscript_quiet h1 os1
                (nl +:+ "> " +:+ Go.TrimSpace input +:+ nl)) as (_ & _ & S).
    apply (same_spawned _ _ _ S). }
  destruct (scanErr c) as [e|].
  - destruct (emit_quiet h2 os3 EventStderr ("jsonl read error: " +:+ e +:+ nl))
      as (_ & _ & S).
    destruct (emit h2 os3 EventStderr _) as [h3 os4]. cbn [fst snd] in *.
    rewrite (same_spawned _ _ _ S), E, E2. reflexivity.
  - cbn [snd]. rewrite E, E2. reflexivity.
Qed.





(** ** Compaction *)

Lemma runCodexResumeJSON_cases (a : Adapter) (os : OS.t) (tid prompt : string)
    (c : capture) :
  let r := runCodexResumeJSON a os tid prompt c in
  (tid = "" /\ r = (inl "empty threadID", os))
  \/ (tid <> "" /\ OS.files r.2 = OS.files os /\ OS.faulty r.2 = OS.faulty os
      /\ OS.tick r.2 = OS.tick os /\ OS.wall r.2 = OS.wall os /\ OS.env r.2 = OS.env os
      /\ ((exists e err, runErr c = Some e /\ r.1 = inl err)
          \/ (runErr c = None /\ exists text, r.1 = inr text))).
Proof.
  cbv zeta. unfold runCodexResumeJSON.
  destruct (String.eqb tid "") eqn:Et.
  - left. apply String.eqb_eq in Et. now split.
  - right. apply String.eqb_neq in Et. split; [exact Et |].
    destruct (runErr c) as [e|]; cbn [fst snd].
    + repeat split. left. eauto.
    + destruct (String.eqb (Go.TrimSpace _) ""); cbn [fst snd]; repeat split;
        right; eauto.
Qed.

Lemma saveMemoryLocked_frame `{TextJSON} (a : Adapter) (os : OS.t) :
  OS.spawned (saveMemoryLocked a os) = OS.spawned os
  /\ OS.faulty (saveMemoryLocked a os) = OS.faulty os
  /\ OS.env (saveMemoryLocked a os) = OS.env os.
Proof.
  unfold saveMemoryLocked. destruct (encodeMemoryFile (mem a)) as [d|]; [| easy].
  destruct (save_frame os (memoryPath a) (OS.Doc d)) as (B1 & B2 & B3 & _).
  cbv zeta in *. now rewrite B1, B2, B3.
Qed.

Lemma dropThread_spec (a : Adapter) (os : OS.t) (key : string) :
  let r := dropThread a os key in
  threadOf (threads r.1) key = ""
  /\ (forall k, k <> key -> threadOf (threads r.1) k = threadOf (threads a) k)
  /\ mem r.1 = mem a /\ statePath r.1 = statePath a
  /\ r.2 = saveStateLocked r.1 os.
Proof.
  cbv zeta. unfold dropThread. destruct (threads a) as [m|] eqn:Em; cbn [fst snd].
  - cbn [threads setThreads threadOf mem statePath]. rewrite lookup_delete_eq.
    repeat split. intros k Hk. now rewrite lookup_delete_ne.
  - rewrite Em. repeat split.
Qed.

Lemma memOf_default (c : option (gmap string (option chatMemory))) (key : string) :
  default None (default ∅ c !! key) = memOf c key.
Proof. destruct c as [m|]; simpl; [reflexivity | now rewrite lookup_empty]. Qed.

Lemma NowTime_frame (os : OS.t) :
  OS.files (OS.NowTime os).2 = OS.files os /\ OS.faulty (OS.NowTime os).2 = OS.faulty os
  /\ OS.env (OS.NowTime os).2 = OS.env os /\ OS.spawned (OS.NowTime os).2 = OS.spawned os
  /\ OS.wall (OS.NowTime os).2 = OS.wall os.
Proof. repeat split. Qed.

Lemma compactChat_success `{TextJSON} (a : Adapter) (os os1 : OS.t) (key tid text : string)
    (c : capture) (res : compactResult) (failed : bool) :
  runCodexResumeJSON a os tid compactPrompt c = (inr text, os1) ->
  unmarshalCompactResult (extractJSON text) = (res, failed) ->
  let old := default zeroMemory (memOf (mem a) key) in
  let m1 :=
    mkMem (Go.TrimSpace (if failed then Go.TrimSpace text else resSummary res))
      (mergeUnique (Rules old) (resRules res) 20)
      (mergeUnique (Prefs old) (resPrefs res) 20)
      (OS.NowTime (OS.NowTime os1).2).1 (OS.NowTime os1).1 0 0
      (trimList (resSkillIdeas res) 5) in
  let a1 := setMem a (Some (<[key := Some m1]> (default ∅ (mem a)))) in
  let r := dropThread a1 (saveMemoryLocked a1 (OS.NowTime (OS.NowTime os1).2).2) key in
  compactChat a os key tid c = (None, r.1, r.2).
Proof.
  intros Er Eu. cbv zeta. unfold compactChat. rewrite Er, Eu.
  rewrite <- memOf_default.
  destruct (OS.NowTime os1) as [compactedAt os2]. cbn [fst snd].
  destruct (OS.NowTime os2) as [updatedAt os3]. cbn [fst snd].
  destruct failed; cbn [resSummary resRules resPrefs resSkillIdeas];
    now destruct (dropThread _ _ key).
Qed.

(** C4.  Compaction is all or nothing.  When [compactChat] returns an
    error (the thread identifier is empty or the compaction command
    fails), the adapter, and with it the chat memory and the thread
    store, and every file are exactly as before.  Only when it returns
    nil is the memory of the conversation replaced: the new memory has
    the trimmed summary of the reply (the trimmed reply itself when it
    does not parse), the old rules and preferences merged with those of
    the reply, the skill ideas of the reply, the two times just read
    from the clock and both counters at zero; memory.json then holds
    the chat memory so changed (when it can be encoded, the file
    operations succeed and the state file is another file), and the
    continuation identifier of the conversation is cleared, in the
    store and, the save taken to succeed, in the state file.  The
    entries of other conversations stay. *)
Theorem compaction_atomic `{TextJSON} (a : Adapter) (os : OS.t) (key tid : string)
    (c : capture) :
  let '(e, a', os') := compactChat a os key tid c in
  (forall err, e = Some err ->
     (tid = "" \/ runErr c <> None)
     /\ a' = a /\ OS.files os' = OS.files os /\ OS.faulty os' = OS.faulty os)
  /\ (e = None ->
      tid <> "" /\ runErr c = None
      /\ (exists text os1 res failed,
            runCodexResumeJSON a os tid compactPrompt c = (inr text, os1)
            /\ unmarshalCompactResult (extractJSON text) = (res, failed)
            /\ let old := default zeroMemory (memOf (mem a) key) in
               memOf (mem a') key
               = Some (mkMem
                         (Go.TrimSpace (if failed then Go.TrimSpace text else resSummary res))
                         (mergeUnique (Rules old) (resRules res) 20)
                         (mergeUnique (Prefs old) (resPrefs res) 20)
                         (OS.NowTime (OS.NowTime os1).2).1 (OS.NowTime os1).1 0 0
                         (trimList (resSkillIdeas res) 5)))
      /\ (forall k, k <> key -> memOf (mem a') k = memOf (mem a) k)
      /\ (memoryPath a ∉ OS.faulty os -> memoryPath a +:+ ".tmp" ∉ OS.faulty os ->
          memoryPath a <> statePath a -> memoryPath a <> statePath a +:+ ".tmp" ->
          OS.ReadFile os' (memoryPath a)
          = match encodeMemoryFile (mem a') with
            | Some d => Some (OS.Doc d)
            | None => OS.ReadFile os (memoryPath a)
            end)
      /\ threadOf (threads a') key = ""
      /\ (forall k, k <> key -> threadOf (threads a') k = threadOf (threads a) k)
      /\ (statePath a ∉ OS.faulty os -> statePath a +:+ ".tmp" ∉ OS.faulty os ->
          OS.ReadFile os' (statePath a) = Some (OS.Doc (encodeStateFile (threads a'))))).
Proof.
  destruct (runCodexResumeJSON_cases a os tid compactPrompt c)
    as [[Ht Er] | (Ht & Ef & Eq & Etick & Ew & Ee & Hr)].
  - unfold compactChat. rewrite Er. split; [| discriminate].
    intros err _. repeat split. now left.
  - destruct (runCodexResumeJSON a os tid compactPrompt c) as [[err | text] os1] eqn:Erun;
      cbn [fst snd] in *.
    + unfold compactChat. rewrite Erun. split; [| discriminate]. intros err' _.
      destruct Hr as [(e & err0 & He & _) | (_ & text & Hx)]; [| discriminate].
      repeat split; try assumption. right. congruence.
    + destruct Hr as [(e & err0 & _ & Hx) | (He & _)]; [discriminate |].
      destruct (unmarshalCompactResult (extractJSON text)) as [res failed] eqn:Eu.
      rewrite (compactChat_success a os os1 key tid text c res failed Erun Eu).
      set (old := default zeroMemory (memOf (mem a) key)).
      set (m1 := mkMem _ _ _ _ _ 0 0 _).
      set (a1 := setMem a (Some (<[key := Some m1]> (default ∅ (mem a))))).
      set (os3 := (OS.NowTime (OS.NowTime os1).2).2).
      assert (F3 : OS.faulty os3 = OS.faulty os) by exact Eq.
      assert (G3 : OS.files os3 = OS.files os) by exact Ef.
      destruct (dropThread_spec a1 (saveMemoryLocked a1 os3) key)
        as (D1 & D2 & D3 & D4 & D5).
      cbv zeta in *.
      destruct (dropThread a1 (saveMemoryLocked a1 os3) key) as [a2 os5].
      cbn [fst snd] in *. split; [discriminate |]. intros _.
      split; [exact Ht |]. split; [exact He |]. split.
      { exists text, os1, res, failed. split; [reflexivity |]. split; [exact Eu |].
        rewrite D3. subst a1. cbn [mem setMem memOf].
        rewrite lookup_insert_eq. reflexivity. }
      split.
      { intros k Hk. rewrite D3. subst a1. cbn [mem setMem memOf].
        rewrite lookup_insert_ne by congruence.
        destruct (mem a) as [m|]; [reflexivity | simpl; now rewrite lookup_empty]. }
      split.
      { intros Hf1 Hf2 Hn1 Hn2. rewrite D3, D5.
        destruct (save_frame (saveMemoryLocked a1 os3) (statePath a2)
                    (OS.Doc (encodeStateFile (threads a2)))) as (B1 & _ & _ & _ & _ & B6).
        cbv zeta in B1, B6. fold (saveStateLocked a2 (saveMemoryLocked a1 os3)) in B1, B6.
        unfold OS.ReadFile at 1. rewrite B1.
        destruct (saveMemoryLocked_frame a1 os3) as (_ & Fm & _). rewrite Fm, F3.
        rewrite decide_False by exact Hf1.
        rewrite B6 by (rewrite D4; assumption).
        unfold saveMemoryLocked. change (memoryPath a1) with (memoryPath a).
        destruct (encodeMemoryFile (mem a1)) as [d|].
        - pose proof (save_then_read os3 (memoryPath a) (OS.Doc d)) as R.
          rewrite F3 in R. specialize (R Hf1 Hf2). unfold OS.ReadFile in R.
          rewrite decide_False in R; [exact R |].
          destruct (save_frame os3 (memoryPath a) (OS.Doc d)) as (-> & _).
          now rewrite F3.
        - unfold OS.ReadFile. rewrite decide_False by exact Hf1. now rewrite G3. }
      split; [exact D1 |]. split; [exact D2 |].
      intros Hf1 Hf2. rewrite D5. unfold saveStateLocked. rewrite D4.
      apply save_then_read.
      * destruct (saveMemoryLocked_frame a1 os3) as (_ & -> & _).
        now rewrite F3.
      * destruct (saveMemoryLocked_frame a1 os3) as (_ & -> & _).
        now rewrite F3.
Qed.

Lemma compaction_atomic_witness :
  let c := mkCapture None [Sample.agentMessage Sample.reply] None "" in
  let r := @compactChat Sample.replyJSON Sample.a42 Sample.os0 "42" "T1" c in
  r.1.1 = None
  /\ memOf (mem Sample.a42) "42" = Some Sample.mem42
  /\ memOf (mem r.1.2) "42"
     = Some (mkMem "done" ["a"; "b"; "c"] ["p"; "short"]
               (Go.mkTime 1 (Some 1001) Go.Local) (Go.mkTime 0 (Some 1000) Go.Local) 0 0
               ["idea"])
  /\ threadOf (threads Sample.a42) "42" = "T1"
  /\ threadOf (threads r.1.2) "42" = ""
  /\ OS.ReadFile r.2 "logs/state.json" = Some (OS.Doc (encodeStateFile (threads r.1.2)))
  /\ OS.ReadFile r.2 "logs/memory.json"
     = (OS.Doc <$> @encodeMemoryFile Sample.replyJSON (mem r.1.2)).
Proof.
  cbv zeta.
  pose proof (@compaction_atomic Sample.replyJSON Sample.a42 Sample.os0 "42" "T1"
                (mkCapture None [Sample.agentMessage Sample.reply] None "")) as W.
  assert (He : (@compactChat Sample.replyJSON Sample.a42 Sample.os0 "42" "T1"
                  (mkCapture None [Sample.agentMessage Sample.reply] None "")).1.1 = None)
    by (vm_compute; reflexivity).
  destruct (@compactChat Sample.replyJSON Sample.a42 Sample.os0 "42" "T1"
              (mkCapture None [Sample.agentMessage Sample.reply] None ""))
    as [[e a'] os'].
  cbn [fst snd] in He |- *. subst e. destruct W as [_ W].
  destruct (W eq_refl)
    as (_ & _ & (text & os1 & res & failed & Er & Eu & Em) & _ & Hfile & Ht & _ & Hs).
  vm_compute in Er. injection Er as <- <-.
  vm_compute in Eu. injection Eu as <- <-.
  split; [reflexivity |]. split; [reflexivity |].
  split; [rewrite Em; vm_compute; reflexivity |].
  split; [reflexivity |]. split; [exact Ht |]. split.
  - apply Hs; apply not_elem_of_empty.
  - change "logs/memory.json" with (memoryPath Sample.a42).
    rewrite Hfile.
    + now destruct (encodeMemoryFile (mem a')).
    + apply not_elem_of_empty.
    + apply not_elem_of_empty.
    + intros E. vm_compute in E. discriminate E.
    + intros E. vm_compute in E. discriminate E.
Defined.

(** ** Usage accounting *)

Lemma getMem_spec (a : Adapter) (key : string) :
  key <> "" ->
  let m := default zeroMemory (memOf (mem a) key) in
  getMem a key = (Some m, setMem a (Some (<[key := Some m]> (default ∅ (mem a))))).
Proof.
  intros Hk. cbv zeta. unfold getMem. apply String.eqb_neq in Hk. rewrite Hk.
  rewrite <- memOf_default.
  destruct (default ∅ (mem a) !! key) as [[m|]|] eqn:El; simpl; try reflexivity.
  now rewrite insert_id.
Qed.

Lemma env_ext (os os' : OS.t) :
  OS.env os' = OS.env os ->
  memoryTokenThreshold os' = memoryTokenThreshold os
  /\ memoryTurnThreshold os' = memoryTurnThreshold os
  /\ forall a a', cmd a' = cmd a -> mode a' = mode a ->
                  memoryEnabled a' os' = memoryEnabled a os.
Proof.
  intros E. unfold memoryTokenThreshold, memoryTurnThreshold, memoryEnabled, envInt, envBool,
    OS.Getenv. rewrite E. repeat split. intros a a' -> ->. reflexivity.
Qed.

Lemma mem_setMem (a : Adapter) (c : option (gmap string (option chatMemory))) :
  mem (setMem a c) = c.
Proof. reflexivity. Qed.

Lemma setMem_setMem (a : Adapter) (c c' : option (gmap string (option chatMemory))) :
  setMem (setMem a c) c' = setMem a c'.
Proof. reflexivity. Qed.

Lemma onTurnCompleted_spec `{TextJSON} (a : Adapter) (os : OS.t) (key tid : string)
    (usage : codexUsage) :
  memoryEnabled a os = true -> key <> "" ->
  let m := default zeroMemory (memOf (mem a) key) in
  let tokens :=
    Go.wrap64 (TokensSinceCompact m + Go.wrap64 (InputTokens usage + OutputTokens usage)) in
  let turns := Go.wrap64 (TurnsSinceCompact m + 1) in
  let need := (memoryTokenThreshold os <=? tokens) || (memoryTurnThreshold os <=? turns) in
  let busy := isCompacting a key in
  let r := onTurnCompleted a os key tid usage in
  memOf (mem r.1.1) key
  = Some (mkMem (Summary m) (Rules m) (Prefs m) (OS.NowTime os).1 (CompactedAt m)
            tokens turns (SkillIdeas m))
  /\ r.2 = (if need && negb (String.eqb tid "") && negb busy
            then Some (mkTask key tid tokens turns) else None)
  /\ isCompacting r.1.1 key = busy || (need && negb (String.eqb tid ""))
  /\ cmd r.1.1 = cmd a /\ mode r.1.1 = mode a /\ OS.env r.1.2 = OS.env os.
Proof.
  intros Hen Hk. cbv zeta. unfold onTurnCompleted. rewrite Hen.
  assert (Hk' := Hk). apply String.eqb_neq in Hk'. rewrite Hk'. cbn [negb orb].
  rewrite (getMem_spec a key Hk).
  set (m := default zeroMemory (memOf (mem a) key)).
  set (tokens := Go.wrap64 (TokensSinceCompact m + _)).
  set (turns := Go.wrap64 (TurnsSinceCompact m + 1)).
  destruct (env_ext os (OS.NowTime os).2 eq_refl) as (E1 & E2 & _).
  assert (Eenv : OS.env (OS.NowTime os).2 = OS.env os) by reflexivity.
  destruct (OS.NowTime os) as [now os1].
  cbn [fst snd] in E1, E2, Eenv |- *. rewrite E1, E2.
  set (need := (_ <=? tokens) || (_ <=? turns)).
  rewrite !mem_setMem, !setMem_setMem. cbn [from_option id]. rewrite insert_insert_eq.
  set (m1 := mkMem _ _ _ now _ tokens turns _).
  set (a2 := setMem a (Some (<[key := Some m1]> _))).
  assert (Hmem : memOf (mem a2) key = Some m1).
  { subst a2. cbn [mem setMem memOf]. now rewrite lookup_insert_eq. }
  assert (Henv2 : OS.env (saveMemoryLocked a2 os1) = OS.env os).
  { destruct (saveMemoryLocked_frame a2 os1) as (_ & _ & ->). exact Eenv. }
  unfold isCompacting.
  destruct need; cbn [negb orb andb].
  - destruct (String.eqb tid ""); cbn [negb orb andb fst snd].
    + rewrite orb_false_r. subst m1. repeat split; assumption.
    + set (busy := default false (default ∅ (compacting a2) !! key)).
      assert (Eb : busy = default false (default ∅ (compacting a) !! key)) by reflexivity.
      rewrite <- Eb. destruct busy eqn:Ebusy; cbn [negb orb andb fst snd].
      * cbn [compacting setCompacting mem setMem default].
        subst m1. repeat split; assumption.
      * cbn [compacting setCompacting mem setMem default].
        unfold id. rewrite lookup_insert_eq.
        subst m1. repeat split; assumption.
  - cbn [fst snd]. rewrite orb_false_r. subst m1.
    repeat split; assumption.
Qed.

Lemma turn_step `{TextJSON} (a : Adapter) (os : OS.t) (key tid : string)
    (u : codexUsage) (tok trn : Z) (busy : bool) :
  memoryEnabled a os = true -> key <> "" -> tid <> "" ->
  counters a key = (tok, trn) -> isCompacting a key = busy ->
  let tok' := Go.wrap64 (tok + Go.wrap64 (InputTokens u + OutputTokens u)) in
  let trn' := Go.wrap64 (trn + 1) in
  let need := (memoryTokenThreshold os <=? tok') || (memoryTurnThreshold os <=? trn') in
  let r := onTurnCompleted a os key tid u in
  r.2 = (if need && negb busy then Some (mkTask key tid tok' trn') else None)
  /\ counters r.1.1 key = (tok', trn')
  /\ isCompacting r.1.1 key = busy || need
  /\ memoryEnabled r.1.1 r.1.2 = true
  /\ memoryTokenThreshold r.1.2 = memoryTokenThreshold os
  /\ memoryTurnThreshold r.1.2 = memoryTurnThreshold os.
Proof.
  intros Hen Hk Ht Hc Hb. cbv zeta.
  destruct (onTurnCompleted_spec a os key tid u Hen Hk) as (S1 & S2 & S3 & S4 & S5 & S6).
  cbv zeta in *. unfold counters in Hc. injection Hc as Htok Htrn.
  rewrite Htok, Htrn, Hb in *.
  apply String.eqb_neq in Ht. rewrite Ht in *. cbn [negb] in *.
  rewrite andb_true_r in *.
  destruct (env_ext os (onTurnCompleted a os key tid u).1.2 S6) as (E1 & E2 & E3).
  split; [exact S2 |]. split; [unfold counters; now rewrite S1 |].
  split; [exact S3 |]. split; [rewrite (E3 a _ S4 S5); exact Hen |]. now split.
Qed.

(** C5 (as amended).  With the memory enabled and a conversation key,
    each completed turn adds the turn's input plus output tokens to the
    token counter and one to the turn counter (in 64-bit arithmetic), and
    a compaction is started exactly when the token counter has reached
    the token threshold or the turn counter the turn threshold, and the
    thread identifier is not empty, and no compaction of the
    conversation is in progress.  The thresholds are 60000 and 40 when
    the environment sets none.  With threshold 200 and counters at zero,
    three turns of 100 input and 50 output tokens on a thread start one
    compaction, at the second turn; the third is held back by the
    flag. *)
Theorem compaction_trigger `{TextJSON} (a : Adapter) (os : OS.t) (key tid : string)
    (usage : codexUsage) :
  memoryEnabled a os = true -> key <> "" ->
  let tokens :=
    Go.wrap64 ((counters a key).1 + Go.wrap64 (InputTokens usage + OutputTokens usage)) in
  let turns := Go.wrap64 ((counters a key).2 + 1) in
  let '(a', os', t) := onTurnCompleted a os key tid usage in
  counters a' key = (tokens, turns)
  /\ (is_Some t <->
      (memoryTokenThreshold os <= tokens \/ memoryTurnThreshold os <= turns)
      /\ tid <> "" /\ isCompacting a key = false)
  /\ (OS.env os !! "MEMORY_TOKEN_THRESHOLD" = None -> memoryTokenThreshold os = 60000)
  /\ (OS.env os !! "MEMORY_TURN_THRESHOLD" = None -> memoryTurnThreshold os = 40)
  /\ (counters a key = (0, 0) -> isCompacting a key = false -> tid <> "" ->
      memoryTokenThreshold os = 200 -> 3 < memoryTurnThreshold os ->
      (completeTurns a os key tid [mkUsage 100 50; mkUsage 100 50; mkUsage 100 50]).1.1
      = [None; Some (mkTask key tid 300 2); None]).
Proof.
  intros Hen Hk. cbv zeta.
  destruct (onTurnCompleted_spec a os key tid usage Hen Hk) as (S1 & S2 & S3 & S4 & S5 & S6).
  cbv zeta in S1, S2, S3.
  assert (Hscen :
    counters a key = (0, 0) -> isCompacting a key = false -> tid <> "" ->
    memoryTokenThreshold os = 200 -> 3 < memoryTurnThreshold os ->
    (completeTurns a os key tid [mkUsage 100 50; mkUsage 100 50; mkUsage 100 50]).1.1
    = [None; Some (mkTask key tid 300 2); None]).
  { intros Hc Hb Ht Htok Htrn. cbn [completeTurns].
    destruct (turn_step a os key tid (mkUsage 100 50) 0 0 false Hen Hk Ht Hc Hb)
      as (A1 & A2 & A3 & A4 & A5 & A6).
    cbv zeta in A1, A2, A3. rewrite Htok in A1, A3, A5.
    destruct (onTurnCompleted a os key tid (mkUsage 100 50)) as [[a1 os1] t1].
    cbn [fst snd] in *.
    change (Go.wrap64 (0 + Go.wrap64 (InputTokens (mkUsage 100 50)
                                      + OutputTokens (mkUsage 100 50)))) with 150 in *.
    change (Go.wrap64 (0 + 1)) with 1 in *.
    assert (N1 : (200 <=? 150) || (memoryTurnThreshold os <=? 1) = false).
    { apply orb_false_intro; [reflexivity | apply Z.leb_gt; lia]. }
    rewrite N1 in A1, A3. cbn [andb orb] in A1, A3.
    destruct (turn_step a1 os1 key tid (mkUsage 100 50) 150 1 false A4 Hk Ht A2 A3)
      as (B1 & B2 & B3 & B4 & B5 & B6).
    cbv zeta in B1, B2, B3. rewrite A5 in B1, B3, B5.
    destruct (onTurnCompleted a1 os1 key tid (mkUsage 100 50)) as [[a2 os2] t2].
    cbn [fst snd] in *.
    change (Go.wrap64 (150 + Go.wrap64 (InputTokens (mkUsage 100 50)
                                        + OutputTokens (mkUsage 100 50)))) with 300 in *.
    change (Go.wrap64 (1 + 1)) with 2 in *.
    change ((200 <=? 300) || (memoryTurnThreshold os1 <=? 2)) with true in B1, B3.
    cbn [andb orb negb] in B1, B3.
    destruct (turn_step a2 os2 key tid (mkUsage 100 50) 300 2 true B4 Hk Ht B2 B3)
      as (C1 & _).
    cbv zeta in C1. rewrite andb_false_r in C1.
    destruct (onTurnCompleted a2 os2 key tid (mkUsage 100 50)) as [[a3 os3] t3].
    cbn [fst snd] in *. now rewrite A1, B1, C1. }
  destruct (onTurnCompleted a os key tid usage) as [[a' os'] t]. cbn [fst snd] in *.
  split; [unfold counters; now rewrite S1 |]. split.
  - rewrite S2. unfold counters. cbn [fst snd].
    set (tokens := Go.wrap64 (_ + Go.wrap64 _)). set (turns := Go.wrap64 (_ + 1)).
    split.
    + intros [x Hx].
      destruct (((memoryTokenThreshold os <=? tokens) || (memoryTurnThreshold os <=? turns))
                && negb (String.eqb tid "") && negb (isCompacting a key)) eqn:E;
        [| discriminate].
      apply andb_prop in E as [E Eb]. apply andb_prop in E as [En Et].
      apply negb_true_iff in Eb, Et. apply orb_prop in En.
      split; [destruct En as [En | En]; [left | right]; apply Z.leb_le; exact En |].
      split; [apply String.eqb_neq; exact Et | exact Eb].
    + intros (Hn & Ht & Hb). apply String.eqb_neq in Ht. rewrite Ht, Hb.
      assert (En : (memoryTokenThreshold os <=? tokens)
                   || (memoryTurnThreshold os <=? turns) = true).
      { apply orb_true_iff. destruct Hn as [Hn | Hn]; [left | right]; apply Z.leb_le;
          exact Hn. }
      rewrite En. cbn [negb andb]. eauto.
  - split; [| split; [| exact Hscen]].
    + intros He. unfold memoryTokenThreshold, envInt, OS.Getenv. now rewrite He.
    + intros He. unfold memoryTurnThreshold, envInt, OS.Getenv. now rewrite He.
Qed.

Lemma compaction_trigger_witness :
  (@completeTurns Sample.textJSON Sample.a0
     (Sample.withEnv Sample.os0 "MEMORY_TOKEN_THRESHOLD" "200") "42" "T1"
     [mkUsage 100 50; mkUsage 100 50; mkUsage 100 50]).1.1
  = [None; Some (mkTask "42" "T1" 300 2); None].
Proof.
  pose proof (@compaction_trigger Sample.textJSON Sample.a0
                (Sample.withEnv Sample.os0 "MEMORY_TOKEN_THRESHOLD" "200") "42" "T1"
                (mkUsage 100 50)) as W.
  assert (Hen : memoryEnabled Sample.a0
                  (Sample.withEnv Sample.os0 "MEMORY_TOKEN_THRESHOLD" "200") = true)
    by (vm_compute; reflexivity).
  assert (Hk : "42" <> "") by discriminate.
  specialize (W Hen Hk). cbv zeta in W.
  destruct (@onTurnCompleted Sample.textJSON Sample.a0 _ "42" "T1" (mkUsage 100 50))
    as [[a' os'] t].
  destruct W as (_ & _ & _ & _ & W). apply W.
  - vm_compute; reflexivity.
  - vm_compute; reflexivity.
  - discriminate.
  - vm_compute; reflexivity.
  - vm_compute; reflexivity.
Defined.

(** C5, the claim as stated fails: a turn that takes the token counter
    to 70000, above the threshold of 60000, starts no compaction when the
    thread identifier passed to the hook is empty. *)
Lemma no_compaction_without_thread :
  let r :=
    @onTurnCompleted Sample.textJSON Sample.a0 Sample.os0 "42" "" (mkUsage 50000 20000) in
  memoryEnabled Sample.a0 Sample.os0 = true
  /\ memoryTokenThreshold Sample.os0 = 60000
  /\ isCompacting Sample.a0 "42" = false
  /\ counters r.1.1 "42" = (70000, 1)
  /\ r.2 = None.
Proof. cbv zeta. repeat split; vm_compute; reflexivity. Qed.

(** ** Merging rules and preferences *)

Lemma filter_filter_drop (P : string -> Prop) `{forall x, Decision (P x)} (x : string)
    (l : list string) :
  ~ P x -> filter P (filter (fun y => y <> x) l) = filter P l.
Proof.
  intros Hx. rewrite list_filter_filter. apply list_filter_iff.
  intros y. split; [tauto |]. intros Hy. split; [exact Hy |]. intros ->. contradiction.
Qed.

Lemma filter_filter_swap (P Q : string -> Prop) `{forall x, Decision (P x)}
    `{forall x, Decision (Q x)} (l : list string) :
  filter P (filter Q l) = filter Q (filter P l).
Proof. rewrite !list_filter_filter. apply list_filter_iff. intros y. tauto. Qed.

Lemma dedup_filter (P : string -> Prop) `{forall x, Decision (P x)} (l : list string) :
  dedup (filter P l) = filter P (dedup l).
Proof.
  induction l as [|x l IH]; [reflexivity |].
  cbn [dedup]. rewrite !filter_cons. destruct (decide (P x)) as [Hx | Hx].
  - cbn [dedup]. rewrite IH. f_equal. apply filter_filter_swap.
  - rewrite IH. symmetry. now apply filter_filter_drop.
Qed.

Lemma foldl_push (l : list string) (seen : gmap string bool) (out : list string) :
  seenIs seen out ->
  (foldl push (seen, out) l).2
  = out ++ dedup (filter (fun s => s ∉ out) (normalise l)).
Proof.
  revert seen out; induction l as [|x l IH]; intros seen out Hs; cbn [foldl].
  - unfold normalise. now rewrite app_nil_r.
  - unfold normalise. rewrite fmap_cons, filter_cons. fold (normalise l).
    unfold push at 2. destruct (String.eqb (Go.TrimSpace x) "") eqn:Ex.
    + apply String.eqb_eq in Ex. rewrite decide_False by tauto. now apply IH.
    + apply String.eqb_neq in Ex. rewrite decide_True by exact Ex.
      rewrite filter_cons.
      destruct (default false (seen !! Go.TrimSpace x)) eqn:Es.
      * apply Hs in Es. rewrite decide_False by tauto. now apply IH.
      * assert (Hn : Go.TrimSpace x ∉ out).
        { intros Hin. apply Hs in Hin. congruence. }
        rewrite decide_True by exact Hn. rewrite IH.
        -- rewrite <- app_assoc. f_equal. cbn [dedup app]. f_equal.
           rewrite dedup_filter. rewrite <- dedup_filter.
           rewrite <- dedup_filter. f_equal.
           rewrite list_filter_filter. apply list_filter_iff. intros y.
           rewrite elem_of_app, list_elem_of_singleton. tauto.
        -- intros s. destruct (decide (s = Go.TrimSpace x)) as [-> | Hne].
           ++ rewrite lookup_insert_eq. simpl. rewrite elem_of_app, list_elem_of_singleton.
              tauto.
           ++ rewrite lookup_insert_ne by congruence. rewrite (Hs s).
              rewrite elem_of_app, list_elem_of_singleton. tauto.
Qed.

Lemma cap_take (limit : Z) (out : list string) :
  (if (0 <? limit) && (limit <? Z.of_nat (length out)) then take (Z.to_nat limit) out
   else out)
  = if 0 <? limit then take (Z.to_nat limit) out else out.
Proof.
  destruct (0 <? limit) eqn:E0; [| reflexivity]. cbn [andb].
  destruct (limit <? Z.of_nat (length out)) eqn:E1; [reflexivity |].
  apply Z.ltb_ge in E1. rewrite take_ge by lia. reflexivity.
Qed.

Lemma filter_all (P : string -> Prop) `{forall x, Decision (P x)} (l : list string) :
  (forall x, P x) -> filter P l = l.
Proof.
  intros HP. induction l as [|x l IH]; [reflexivity |].
  rewrite filter_cons_True by apply HP. now rewrite IH.
Qed.

Lemma mergeUnique_spec (base add : list string) (limit : Z) :
  mergeUnique base add limit
  = if 0 <? limit then take (Z.to_nat limit) (dedup (normalise (base ++ add)))
    else dedup (normalise (base ++ add)).
Proof.
  unfold mergeUnique. rewrite cap_take. rewrite <- foldl_app.
  rewrite (foldl_push (base ++ add) ∅ []).
  - cbn [app]. rewrite filter_all; [reflexivity |].
    intros s. apply not_elem_of_nil.
  - intros s. rewrite lookup_empty. simpl. split; [discriminate |].
    intros Hs. now apply not_elem_of_nil in Hs.
Qed.

Lemma trimList_fold (l out : list string) :
  foldl (fun out s =>
           let s := Go.TrimSpace s in
           if String.eqb s "" then out else out ++ [s]) out l
  = out ++ normalise l.
Proof.
  revert out; induction l as [|x l IH]; intros out; cbn [foldl].
  - unfold normalise. now rewrite app_nil_r.
  - rewrite IH. unfold normalise. rewrite fmap_cons, filter_cons. cbv zeta.
    destruct (String.eqb (Go.TrimSpace x) "") eqn:Ex.
    + apply String.eqb_eq in Ex. now rewrite decide_False by tauto.
    + apply String.eqb_neq in Ex. rewrite decide_True by exact Ex.
      now rewrite <- app_assoc.
Qed.

Lemma trimList_spec (l : list string) (limit : Z) :
  trimList l limit
  = if 0 <? limit then take (Z.to_nat limit) (normalise l) else normalise l.
Proof. unfold trimList. rewrite cap_take, trimList_fold. reflexivity. Qed.

(** What a successful compaction stores. *)
Lemma compactChat_stores `{TextJSON} (a : Adapter) (os os1 : OS.t) (key tid text : string)
    (c : capture) :
  runCodexResumeJSON a os tid compactPrompt c = (inr text, os1) ->
  let res := (unmarshalCompactResult (extractJSON text)).1 in
  let old := default zeroMemory (memOf (mem a) key) in
  exists m,
    memOf (mem (compactChat a os key tid c).1.2) key = Some m
    /\ Rules m = mergeUnique (Rules old) (resRules res) 20
    /\ Prefs m = mergeUnique (Prefs old) (resPrefs res) 20
    /\ SkillIdeas m = trimList (resSkillIdeas res) 5.
Proof.
  intros Hr. cbv zeta.
  destruct (unmarshalCompactResult (extractJSON text)) as [res failed] eqn:Eu.
  rewrite (compactChat_success a os os1 key tid text c res failed Hr Eu).
  cbn [fst snd].
  set (m1 := mkMem _ _ _ _ _ 0 0 _).
  set (a1 := setMem a _).
  destruct (dropThread_spec a1 (saveMemoryLocked a1 (OS.NowTime (OS.NowTime os1).2).2) key)
    as (_ & _ & D3 & _).
  cbv zeta in D3. exists m1. rewrite D3. subst a1. rewrite mem_setMem. cbn [memOf].
  rewrite lookup_insert_eq. repeat split.
Qed.

(** C6 (as amended).  [mergeUnique] first trims every entry, of the
    existing list and of the addition alike, and leaves out the entries
    that are empty after trimming; on what remains it appends the new
    entries to the existing ones, removes exact duplicates keeping first
    occurrences in order, and cuts the result at the cap.  Merging
    ["a","b"] with ["b","c"] under cap 20 yields ["a","b","c"].  A
    successful compaction stores rules and preferences merged this way
    under cap 20, and replaces the skill ideas by the new ones, trimmed,
    without the empty ones, cut at 5, whatever the previous list was. *)
Theorem merge_on_compaction `{TextJSON} (a : Adapter) (os os1 : OS.t)
    (key tid text : string) (c : capture) :
  runCodexResumeJSON a os tid compactPrompt c = (inr text, os1) ->
  let res := (unmarshalCompactResult (extractJSON text)).1 in
  let old := default zeroMemory (memOf (mem a) key) in
  (forall base add limit,
     0 < limit ->
     mergeUnique base add limit
     = take (Z.to_nat limit) (dedup (normalise (base ++ add))))
  /\ mergeUnique ["a"; "b"] ["b"; "c"] 20 = ["a"; "b"; "c"]
  /\ exists m,
       memOf (mem (compactChat a os key tid c).1.2) key = Some m
       /\ Rules m = take 20 (dedup (normalise (Rules old ++ resRules res)))
       /\ Prefs m = take 20 (dedup (normalise (Prefs old ++ resPrefs res)))
       /\ SkillIdeas m = take 5 (normalise (resSkillIdeas res)).
Proof.
  intros Hr. cbv zeta. split; [| split].
  - intros base add limit Hl. rewrite mergeUnique_spec.
    destruct (0 <? limit) eqn:E; [reflexivity | apply Z.ltb_ge in E; lia].
  - vm_compute. reflexivity.
  - destruct (compactChat_stores a os os1 key tid text c Hr) as (m & M1 & M2 & M3 & M4).
    exists m. rewrite M2, M3, M4, !mergeUnique_spec, trimList_spec. now split.
Qed.

Lemma merge_on_compaction_witness :
  let c := mkCapture None [Sample.agentMessage Sample.reply] None "" in
  Rules Sample.mem42 = ["a"; "b"] /\ Prefs Sample.mem42 = ["p"]
  /\ SkillIdeas Sample.mem42 = ["old idea"]
  /\ (@unmarshalCompactResult Sample.replyJSON (extractJSON Sample.reply)).1
     = mkResult " done " ["b"; " c"] ["short"] ["idea"; ""]
  /\ exists m,
       memOf (mem (@compactChat Sample.replyJSON Sample.a42 Sample.os0 "42" "T1" c).1.2) "42"
       = Some m
       /\ Rules m = ["a"; "b"; "c"] /\ Prefs m = ["p"; "short"] /\ SkillIdeas m = ["idea"].
Proof.
  cbv zeta.
  split; [reflexivity |]. split; [reflexivity |]. split; [reflexivity |].
  split; [vm_compute; reflexivity |].
  destruct (@merge_on_compaction Sample.replyJSON Sample.a42 Sample.os0
              (runCodexResumeJSON Sample.a42 Sample.os0 "T1" compactPrompt
                 (mkCapture None [Sample.agentMessage Sample.reply] None "")).2
              "42" "T1" Sample.reply
              (mkCapture None [Sample.agentMessage Sample.reply] None ""))
    as (_ & _ & m & M1 & M2 & M3 & M4).
  - vm_compute. reflexivity.
  - exists m. split; [exact M1 |].
    split; [rewrite M2; vm_compute; reflexivity |].
    split; [rewrite M3; vm_compute; reflexivity | rewrite M4; vm_compute; reflexivity].
Defined.

(** C6, the claim as stated fails: an addition that differs from an
    existing entry by a leading blank is not appended, and an empty
    entry of the existing list does not stay. *)
Lemma merge_trims_entries :
  mergeUnique ["a"] [" a"] 20 = ["a"]
  /\ mergeAsClaimed ["a"] [" a"] 20 = ["a"; " a"]
  /\ mergeUnique [""; "a"] ["b"] 20 = ["a"; "b"]
  /\ mergeAsClaimed [""; "a"] ["b"] 20 = [""; "a"; "b"].
Proof. repeat split; vm_compute; reflexivity. Qed.

(** ** Terminal queries *)

Lemma handleTermQueries_eq (h : handle) (b : list byte) :
  handleTermQueries h b
  = if (Go.Index b dsrCursor =? -1) && (Go.Index b dsrCursorQ =? -1) then (h, b)
    else handleTermQueries (writeStdin h cursorReply)
           (cut b (earliest (Go.Index b dsrCursor) (Go.Index b dsrCursorQ)).1
                  (earliest (Go.Index b dsrCursor) (Go.Index b dsrCursorQ)).2).
Proof. funelim (handleTermQueries h b); now rewrite e. Qed.

Lemma isPrefixOf_spec {A} `{EqDecision A} (p l : list A) :
  Go.isPrefixOf p l = true <-> exists post, l = p ++ post.
Proof.
  revert l; induction p as [|x p IH]; intros l; simpl.
  - split; [intros _; now exists l | reflexivity].
  - destruct l as [|y l].
    + split; [discriminate | intros [post Hp]; discriminate].
    + rewrite andb_true_iff, bool_decide_eq_true, IH. split.
      * intros [-> [post ->]]. now exists post.
      * intros [post Hp]. injection Hp as -> ->. split; [reflexivity | now exists post].
Qed.

(** [Index] finds an occurrence when there is one, the leftmost. *)
Lemma Index_found {A} `{EqDecision A} (l sep : list A) :
  Go.Index l sep <> -1 ->
  l = take (Z.to_nat (Go.Index l sep)) l ++ sep
      ++ drop (Z.to_nat (Go.Index l sep + Z.of_nat (length sep))) l.
Proof.
  induction l as [|x l IH]; simpl.
  - destruct (Go.isPrefixOf sep []) eqn:E; [| congruence].
    intros _. apply isPrefixOf_spec in E as [post E].
    destruct sep; [| discriminate]. reflexivity.
  - destruct (Go.isPrefixOf sep (x :: l)) eqn:E.
    + intros _. apply isPrefixOf_spec in E as [post E]. rewrite E at 1.
      rewrite Z.add_0_l, Nat2Z.id. change (Z.to_nat 0) with 0%nat. rewrite take_0.
      rewrite E, drop_app_length. reflexivity.
    + destruct (Go.Index l sep =? -1) eqn:E1; [congruence |].
      intros _. apply Z.eqb_neq in E1. specialize (IH E1).
      pose proof (Index_bounds l sep E1) as [Hb _].
      replace (Z.to_nat (Go.Index l sep + 1)) with (S (Z.to_nat (Go.Index l sep))) by lia.
      replace (Z.to_nat (Go.Index l sep + 1 + Z.of_nat (length sep)))
        with (S (Z.to_nat (Go.Index l sep + Z.of_nat (length sep)))) by lia.
      simpl. f_equal. exact IH.
Qed.

Lemma Index_none {A} `{EqDecision A} (l sep : list A) :
  Go.Index l sep = -1 -> ~ exists pre post, l = pre ++ sep ++ post.
Proof.
  induction l as [|x l IH]; simpl.
  - destruct (Go.isPrefixOf sep []) eqn:E; [discriminate |].
    intros _ (pre & post & Hl). destruct pre; [| discriminate].
    destruct sep; [discriminate | discriminate].
  - destruct (Go.isPrefixOf sep (x :: l)) eqn:E; [discriminate |].
    destruct (Go.Index l sep =? -1) eqn:E1.
    + apply Z.eqb_eq in E1. intros _ (pre & post & Hl). destruct pre as [|y pre].
      * assert (Go.isPrefixOf sep (x :: l) = true)
          by (apply isPrefixOf_spec; exists post; exact Hl).
        congruence.
      * injection Hl as -> ->. apply (IH E1). eauto.
    + intros Hc. apply Z.eqb_neq in E1.
      pose proof (Index_bounds l sep E1). lia.
Qed.

Lemma earliest_spec (i j : Z) :
  (i =? -1) && (j =? -1) = false ->
  (earliest i j = (i, 4) /\ i <> -1) \/ (earliest i j = (j, 5) /\ j <> -1).
Proof.
  intros H. unfold earliest. simpl length.
  destruct (i =? -1) eqn:Ei, (j =? -1) eqn:Ej; simpl in H; try discriminate;
    try apply Z.eqb_neq in Ei; try apply Z.eqb_neq in Ej; simpl.
  - right. now split.
  - left. now split.
  - destruct (j <? i); [right | left]; now split.
Qed.

Lemma strips_at (n : nat) (b pre q post out : list byte) :
  q = dsrCursor \/ q = dsrCursorQ -> b = pre ++ q ++ post ->
  strips n (pre ++ post) out -> strips (S n) b out.
Proof. intros Hq -> Hs. now apply strips_query. Qed.

Lemma handleTermQueries_spec (h : handle) (b : list byte) :
  forall w, stdin h = Some w ->
  exists n,
    strips n b (handleTermQueries h b).2
    /\ Go.Index (handleTermQueries h b).2 dsrCursor = -1
    /\ Go.Index (handleTermQueries h b).2 dsrCursorQ = -1
    /\ stdin (handleTermQueries h b).1 = Some (w ++ replicate n cursorReply)
    /\ hSessionID (handleTermQueries h b).1 = hSessionID h
    /\ hLogDir (handleTermQueries h b).1 = hLogDir h.
Proof.
  funelim (handleTermQueries h b); intros w Hw.
  - clear H Heqcall. exists 0%nat. apply andb_prop in e as [E1 E2].
    apply Z.eqb_eq in E1, E2. cbn [fst snd replicate]. rewrite app_nil_r.
    repeat split; try assumption. constructor.
  - clear H0 Heqcall.
    assert (Hw' : stdin (writeStdin h cursorReply) = Some (w ++ [cursorReply]))
      by (unfold writeStdin; now rewrite Hw).
    destruct (H _ Hw') as (n & N1 & N2 & N3 & N4 & N5 & N6).
    exists (S n). split; [| split; [exact N2 | split; [exact N3 | split; [| split]]]].
    + set (i := Go.Index b dsrCursor) in *. set (j := Go.Index b dsrCursorQ) in *.
      set (r := handleTermQueries (writeStdin h cursorReply) _) in *.
      destruct (earliest_spec i j e) as [[Ee Hne] | [Ee Hne]]; rewrite Ee in N1;
        cbn [fst snd] in N1; unfold cut in N1.
      * eapply strips_at; [left; reflexivity | apply (Index_found b dsrCursor Hne) |].
        exact N1.
      * eapply strips_at; [right; reflexivity | apply (Index_found b dsrCursorQ Hne) |].
        exact N1.
    + rewrite N4. cbn [replicate]. now rewrite <- app_assoc.
    + rewrite N5. unfold writeStdin. now rewrite Hw.
    + rewrite N6. unfold writeStdin. now rewrite Hw.
Qed.

(** A byte string without the first byte of a pattern has no match. *)
Lemma Index_no_first (c : byte) (sep l : list byte) :
  c ∉ l -> Go.Index l (c :: sep) = -1.
Proof.
  induction l as [|x l IH]; intros Hc; [reflexivity |].
  cbn [Go.Index Go.isPrefixOf].
  rewrite bool_decide_eq_false_2.
  - cbn [andb]. rewrite IH; [reflexivity |]. intros Hin. apply Hc. now right.
  - intros ->. apply Hc. now left.
Qed.

Lemma Index_skip (c : byte) (sep pre l : list byte) :
  c ∉ pre ->
  Go.Index (pre ++ l) (c :: sep)
  = if Go.Index l (c :: sep) =? -1 then -1
    else Z.of_nat (length pre) + Go.Index l (c :: sep).
Proof.
  induction pre as [|x pre IH]; intros Hc.
  - cbn [app length]. destruct (_ =? -1) eqn:E; [now apply Z.eqb_eq in E | lia].
  - cbn [app]. change (Go.Index (x :: pre ++ l) (c :: sep))
      with (if Go.isPrefixOf (c :: sep) (x :: pre ++ l) then 0
            else let i := Go.Index (pre ++ l) (c :: sep) in
                 if i =? -1 then -1 else i + 1).
    cbn [Go.isPrefixOf]. rewrite bool_decide_eq_false_2.
    + cbn [andb]. cbv zeta. rewrite IH by (intros Hin; apply Hc; now right).
      destruct (Go.Index l (c :: sep) =? -1) eqn:E; [reflexivity |].
      apply Z.eqb_neq in E. pose proof (Index_bounds l (c :: sep) E) as [Hb _].
      destruct (_ =? -1) eqn:E2; [apply Z.eqb_eq in E2; lia |].
      cbn [length]. lia.
    + intros ->. apply Hc. now left.
Qed.

(** A single query in the middle of a chunk that has no other escape
    byte: the query goes, one reply is written. *)
Lemma handleTermQueries_midline (h : handle) (pre post : list byte) :
  x1b ∉ pre -> x1b ∉ post ->
  handleTermQueries h (pre ++ dsrCursor ++ post) = (writeStdin h cursorReply, pre ++ post).
Proof.
  intros Hpre Hpost.
  assert (Ei : Go.Index (pre ++ dsrCursor ++ post) dsrCursor = Z.of_nat (length pre)).
  { unfold dsrCursor at 2. rewrite Index_skip by exact Hpre.
    change (Go.Index (dsrCursor ++ post) [x1b; x5b; x36; x6e]) with 0. simpl. lia. }
  assert (Ej : Go.Index (pre ++ dsrCursor ++ post) dsrCursorQ = -1).
  { unfold dsrCursorQ. rewrite Index_skip by exact Hpre.
    assert (E : Go.Index (dsrCursor ++ post) [x1b; x5b; x3f; x36; x6e] = -1).
    { unfold dsrCursor. cbn [app].
      change (Go.Index (x1b :: x5b :: x36 :: x6e :: post) [x1b; x5b; x3f; x36; x6e])
        with (if Go.isPrefixOf [x1b; x5b; x3f; x36; x6e] (x1b :: x5b :: x36 :: x6e :: post)
              then 0
              else if Go.Index (x5b :: x36 :: x6e :: post) [x1b; x5b; x3f; x36; x6e] =? -1
                   then -1
                   else Go.Index (x5b :: x36 :: x6e :: post) [x1b; x5b; x3f; x36; x6e] + 1).
      change (Go.isPrefixOf [x1b; x5b; x3f; x36; x6e] (x1b :: x5b :: x36 :: x6e :: post))
        with false.
      cbn iota. rewrite (Index_no_first x1b [x5b; x3f; x36; x6e] (x5b :: x36 :: x6e :: post)).
      - reflexivity.
      - rewrite !elem_of_cons. intros [H | [H | [H | H]]]; try discriminate.
        contradiction. }
    rewrite E. reflexivity. }
  rewrite handleTermQueries_eq, Ei, Ej.
  assert (E1 : (Z.of_nat (length pre) =? -1) = false) by (apply Z.eqb_neq; lia).
  rewrite E1. cbn [andb]. unfold earliest. rewrite E1.
  change (negb (-1 =? -1)) with false. cbn [orb andb fst snd].
  unfold cut. rewrite Nat2Z.id, take_app_length.
  replace (Z.to_nat (Z.of_nat (length pre) + Z.of_nat (length dsrCursor)))
    with (length pre + length dsrCursor)%nat by lia.
  rewrite drop_app_add', drop_app_length by reflexivity.
  rewrite handleTermQueries_eq.
  assert (Hno : x1b ∉ pre ++ post) by (rewrite elem_of_app; tauto).
  unfold dsrCursor at 1, dsrCursorQ at 1.
  rewrite !Index_no_first by exact Hno. reflexivity.
Qed.

(** C8.  In a round of the reader of the interactive variant, on a
    handle whose input writer is set, the chunk is forwarded with the
    cursor-position queries removed one after the other until neither
    [ESC [ 6 n] nor [ESC [ ? 6 n] occurs in it, and exactly one reply
    [ESC [ 1 ; 1 R] is written to the child's input for each query
    removed; what is left, when it is not empty, is the text of the one
    event forwarded.  For a chunk with [ESC [ 6 n] in the middle and no
    other escape byte, the event text is the chunk without the query
    and exactly one reply is written. *)
Theorem terminal_queries_answered (h : handle) (evs : list Event) (os : OS.t)
    (chunk : list byte) (w : list (list byte)) :
  stdin h = Some w ->
  let '(h', evs', os') := readLoopPTYRound h evs os chunk in
  (exists n out,
     strips n chunk out
     /\ ~ occursIn dsrCursor out /\ ~ occursIn dsrCursorQ out
     /\ stdin h' = Some (w ++ replicate n cursorReply)
     /\ evs' = match out with
               | [] => evs
               | _ => evs ++ [mkEvent EventStdout (string_of_list_byte out)
                                (OS.wall os (OS.tick os)) 0]
               end)
  /\ (forall pre post,
        chunk = pre ++ dsrCursor ++ post -> x1b ∉ pre -> x1b ∉ post -> pre ++ post <> [] ->
        stdin h' = Some (w ++ [cursorReply])
        /\ evs' = evs ++ [mkEvent EventStdout (string_of_list_byte (pre ++ post))
                            (OS.wall os (OS.tick os)) 0]).
Proof.
  intros Hw. unfold readLoopPTYRound. cbn [app].
  destruct (handleTermQueries_spec h chunk w Hw) as (n & N1 & N2 & N3 & N4 & N5 & N6).
  assert (Hmid : forall pre post,
             chunk = pre ++ dsrCursor ++ post -> x1b ∉ pre -> x1b ∉ post ->
             handleTermQueries h chunk = (writeStdin h cursorReply, pre ++ post)).
  { intros pre post -> Hpre Hpost. now apply handleTermQueries_midline. }
  destruct (handleTermQueries h chunk) as [h1 out]. cbn [fst snd] in *.
  assert (Hclock : forall s,
             OS.wall (OS.AppendFile os (transcriptPath (hLogDir h1) (hSessionID h1)) s)
               (OS.tick (OS.AppendFile os (transcriptPath (hLogDir h1) (hSessionID h1)) s))
             = OS.wall os (OS.tick os)).
  { intros s.
    destruct (AppendFile_frame os (transcriptPath (hLogDir h1) (hSessionID h1)) s)
      as (_ & _ & _ & -> & -> & _).
    reflexivity. }
  destruct out as [|x out].
  - split.
    + exists n, []. repeat split; try assumption; now apply Index_none.
    + intros pre post Hc Hpre Hpost Hne. specialize (Hmid pre post Hc Hpre Hpost).
      injection Hmid as _ Hout. congruence.
  - unfold OS.Now. cbn [fst snd]. rewrite Hclock. split.
    + exists n, (x :: out). repeat split; try assumption; now apply Index_none.
    + intros pre post Hc Hpre Hpost Hne. specialize (Hmid pre post Hc Hpre Hpost).
      injection Hmid as Hh Hout. rewrite <- Hout. split; [| reflexivity].
      subst h1. unfold writeStdin. now rewrite Hw.
Qed.

Lemma terminal_queries_answered_witness :
  let '(h', evs', _) :=
    readLoopPTYRound (mkHandle "chat-42-1700000000" "logs" (Some [])) [] Sample.os0
      ([x61; x62] ++ dsrCursor ++ [x63; x64]) in
  stdin h' = Some ([] ++ [cursorReply])
  /\ evs' = [] ++ [mkEvent EventStdout (string_of_list_byte ([x61; x62] ++ [x63; x64]))
                     (OS.wall Sample.os0 (OS.tick Sample.os0)) 0].
Proof.
  pose proof (terminal_queries_answered (mkHandle "chat-42-1700000000" "logs" (Some []))
                [] Sample.os0 ([x61; x62] ++ dsrCursor ++ [x63; x64]) [] eq_refl) as W.
  destruct (readLoopPTYRound _ _ _ _) as [[h' evs'] os'].
  destruct W as [_ W]. apply (W [x61; x62] [x63; x64]).
  - reflexivity.
  - rewrite !elem_of_cons. intros [H | [H | H]]; try discriminate.
    now apply not_elem_of_nil in H.
  - rewrite !elem_of_cons. intros [H | [H | H]]; try discriminate.
    now apply not_elem_of_nil in H.
  - discriminate.
Defined.

(** * Further properties of the code *)

(** ** Session identifiers, from the session manager to the adapter *)

(** X1.  The session identifiers the session manager builds are read
    back by the adapter as intended: for a chat identifier that is not
    negative, [parseChatKey] finds the decimal chat identifier as the
    conversation key, and the fresh flag exactly on the identifiers of
    [NewFresh].  For a negative chat identifier the conversation key is
    empty, since the identifier then starts with the separator. *)
Theorem session_id_parses (chatID : Z) (os : OS.t) :
  parseChatKey (resumeID chatID os).1
  = ((if chatID <? 0 then "" else Go.Itoa chatID), false)
  /\ parseChatKey (freshID chatID os).1
     = ((if chatID <? 0 then "" else Go.Itoa chatID), true).
Proof.
  unfold resumeID, freshID. cbn [OS.Now fst]. split.
  - rewrite (surjective_pairing (parseChatKey _)). f_equal.
    + apply parseChatKey_key.
    + unfold parseChatKey. cbn [snd].
      rewrite <- !append_assoc. apply HasSuffix_after_number.
  - rewrite (surjective_pairing (parseChatKey _)). f_equal.
    + apply parseChatKey_key.
    + apply (freshID_is_fresh chatID os).
Qed.

Lemma parseChatKey_resumeID (chatID : Z) (os : OS.t) :
  parseChatKey (resumeID chatID os).1
  = ((if chatID <? 0 then "" else Go.Itoa chatID), false).
Proof.
  unfold resumeID. cbn [OS.Now fst].
  rewrite (surjective_pairing (parseChatKey _)). f_equal.
  - apply parseChatKey_key.
  - unfold parseChatKey. cbn [snd]. rewrite <- !append_assoc. apply HasSuffix_after_number.
Qed.

(** The session [startExec] builds for the identifier of [NewResume]. *)
Lemma resume_exec_session (a : Adapter) (os : OS.t) (chatID : Z) :
  let key := if chatID <? 0 then "" else Go.Itoa chatID in
  let tid := getThread a key in
  let t := OS.tick os in
  let '(h, a1, os1) := startExec a (resumeID chatID os).2 (resumeID chatID os).1 in
  a1 = a
  /\ chatKey h = key
  /\ threadID h = tid
  /\ events h
     = (if String.eqb tid "" then []
        else [mkEvent EventStatus ("resumed thread_id=" +:+ tid +:+ nl) (OS.wall os (S t)) 0])
       ++ [mkEvent EventStatus ("started mode=exec" +:+ nl)
             (OS.wall os (if String.eqb tid "" then S t else S (S t))) 0]
  /\ OS.files os1 = OS.files os
  /\ (forall input c,
        Go.TrimSpace input <> "" -> startErr c = None ->
        OS.spawned (sendExec a1 h os1 input c).2
        = OS.spawned os
          ++ [(cmd a,
               args a ++ ["exec"]
               ++ (if String.eqb tid "" then [] else ["resume"])
               ++ ["--json"]
               ++ (if skipGitRepoCheck a then ["--skip-git-repo-check"] else [])
               ++ (if String.eqb tid "" then [Go.TrimSpace input]
                   else [tid; Go.TrimSpace input]))]).
Proof.
  cbv zeta.
  pose proof (parseChatKey_resumeID chatID os) as Hp.
  assert (Hos : (resumeID chatID os).2 = (OS.Now os).2) by reflexivity.
  destruct (resumeID chatID os) as [sid os0]. cbn [fst snd] in *. subst os0.
  set (key := if chatID <? 0 then "" else Go.Itoa chatID) in *.
  unfold startExec. rewrite Hp. cbn [andb].
  assert (Hsend : forall (h : handleExec) (a0 : Adapter) (os0 : OS.t) input c,
             cmdPath h = cmd a -> globalArgs h = args a ->
             xSkipGitRepoCheck h = skipGitRepoCheck a ->
             OS.spawned os0 = OS.spawned os ->
             Go.TrimSpace input <> "" -> startErr c = None ->
             OS.spawned (sendExec a0 h os0 input c).2
             = OS.spawned os
               ++ [(cmd a,
                    args a ++ ["exec"]
                    ++ (if String.eqb (threadID h) "" then [] else ["resume"])
                    ++ ["--json"]
                    ++ (if skipGitRepoCheck a then ["--skip-git-repo-check"] else [])
                    ++ (if String.eqb (threadID h) "" then [Go.TrimSpace input]
                        else [threadID h; Go.TrimSpace input]))]).
  { intros h a0 os0 input c H1 H2 H3 H4 Hi Hs.
    rewrite sendExec_spawned by assumption. rewrite H4, H1. do 2 f_equal.
    unfold execArgv. rewrite H2, H3.
    destruct (String.eqb (threadID h) ""), (skipGitRepoCheck a); cbn [negb];
      now rewrite <- ?app_assoc. }
  destruct (String.eqb key "") eqn:Ek; cbn [negb].
  - assert (Ht : getThread a key = "") by (unfold getThread; now rewrite Ek).
    rewrite Ht. cbn [String.eqb send OS.Now setEvents events threadID chatKey app].
    repeat split. intros input c Hi Hs.
    rewrite (Hsend _ a _ input c) by (try reflexivity; assumption). reflexivity.
  - destruct (String.eqb (getThread a key) "") eqn:Et; cbn [negb].
    + apply String.eqb_eq in Et. rewrite Et.
      cbn [send OS.Now setEvents events threadID chatKey app].
      repeat split. intros input c Hi Hs.
      rewrite (Hsend _ a _ input c) by (try reflexivity; assumption). reflexivity.
    + cbn [send OS.Now setEvents setThreadID events threadID chatKey app
             sessionID xLogDir cmdPath globalArgs xSkipGitRepoCheck running hasAdapter
             OS.wall OS.tick OS.files OS.faulty OS.env OS.spawned].
      repeat split. intros input c Hi Hs.
      rewrite (Hsend _ a _ input c) by (try reflexivity; assumption).
      cbn [setEvents setThreadID events threadID chatKey sessionID xLogDir cmdPath
             globalArgs xSkipGitRepoCheck running hasAdapter].
      now rewrite Et.
Qed.

(** X2.  On an adapter of the structured variant, a session of
    [NewResume] continues the stored thread.  [Adapter.Start] returns a
    handle of that variant, which carries the continuation identifier
    the thread store holds for the conversation (none for a negative
    chat identifier, whose key is empty); the adapter and the files are
    left as they are; the buffer holds the status event
    [resumed thread_id=...], when there is a thread, and then
    [started mode=exec]; and the first turn runs
    [exec resume --json ... id prompt] when there is a thread and
    [exec --json ... prompt] when there is none. *)
Theorem resume_session_continues (a : Adapter) (os : OS.t) (chatID : Z) (sp : spawn) :
  let key := if chatID <? 0 then "" else Go.Itoa chatID in
  let tid := getThread a key in
  let t := OS.tick os in
  usesExec a = true ->
  exists h a1 os1,
    NewResume a os chatID sp = (inr (ExecHandle h, events h), a1, os1)
    /\ a1 = a
    /\ chatKey h = key
    /\ threadID h = tid
    /\ events h
       = (if String.eqb tid "" then []
          else [mkEvent EventStatus ("resumed thread_id=" +:+ tid +:+ nl) (OS.wall os (S t)) 0])
         ++ [mkEvent EventStatus ("started mode=exec" +:+ nl)
               (OS.wall os (if String.eqb tid "" then S t else S (S t))) 0]
    /\ OS.files os1 = OS.files os
    /\ (forall input c,
          Go.TrimSpace input <> "" -> startErr c = None ->
          OS.spawned (sendExec a1 h os1 input c).2
          = OS.spawned os
            ++ [(cmd a,
                 args a ++ ["exec"]
                 ++ (if String.eqb tid "" then [] else ["resume"])
                 ++ ["--json"]
                 ++ (if skipGitRepoCheck a then ["--skip-git-repo-check"] else [])
                 ++ (if String.eqb tid "" then [Go.TrimSpace input]
                     else [tid; Go.TrimSpace input]))]).
Proof.
  cbv zeta. intros Hexec.
  pose proof (resume_exec_session a os chatID) as R. cbv zeta in R.
  unfold NewResume, Start. rewrite Hexec.
  destruct (resumeID chatID os) as [sid os0]. cbn [fst snd] in R.
  destruct (startExec a os0 sid) as [[h a1] os1].
  exists h, a1, os1. split; [reflexivity | exact R].
Qed.

Lemma resume_session_continues_witness :
  getThread Sample.a42 "42" = "T1"
  /\ exists h a1 os1,
       NewResume Sample.a42 Sample.os0 42 (mkSpawn None None 7)
       = (inr (ExecHandle h, events h), a1, os1)
       /\ a1 = Sample.a42
       /\ chatKey h = "42"
       /\ threadID h = "T1"
       /\ events h
          = [mkEvent EventStatus ("resumed thread_id=T1" +:+ nl) 1 0;
             mkEvent EventStatus ("started mode=exec" +:+ nl) 2 0]
       /\ OS.files os1 = OS.files Sample.os0.
Proof.
  split; [reflexivity |].
  destruct (resume_session_continues Sample.a42 Sample.os0 42 (mkSpawn None None 7))
    as (h & a1 & os1 & E & W1 & W2 & W3 & W4 & W5 & _).
  - reflexivity.
  - exists h, a1, os1. split; [exact E |]. split; [exact W1 |]. split; [exact W2 |].
    split; [exact W3 |]. split; [exact W4 | exact W5].
Defined.



(** ** The thread store as a map *)

(** X3.  [setThread] with a conversation key and an identifier, both
    not empty, makes [getThread] return the identifier for that key and
    leaves the answer for every other key as it was.  When the store
    already held the identifier nothing is written; otherwise the state
    file is replaced (the two file operations taken to succeed) by the
    encoding of the new thread map.  With an empty key or an empty
    identifier the call does nothing. *)
Theorem setThread_then_getThread (a : Adapter) (os : OS.t) (key tid : string) :
  key <> "" -> tid <> "" ->
  let '(a', os') := setThread a os key tid in
  getThread a' key = tid
  /\ (forall k, k <> key -> getThread a' k = getThread a k)
  /\ (getThread a key = tid -> os' = os)
  /\ (getThread a key <> tid ->
      statePath a ∉ OS.faulty os -> statePath a +:+ ".tmp" ∉ OS.faulty os ->
      OS.ReadFile os' (statePath a) = Some (OS.Doc (encodeStateFile (threads a'))))
  /\ (forall os0, setThread a os0 "" tid = (a, os0) /\ setThread a os0 key "" = (a, os0)).
Proof.
  intros Hk Ht.
  pose proof (setThread_store a os key tid Hk Ht) as [Hs Hg].
  pose proof (setThread_adapter a os key tid Hk Ht) as Ha.
  assert (Hget : getThread a key = threadOf (threads a) key).
  { unfold getThread. apply String.eqb_neq in Hk. now rewrite Hk. }
  assert (Hsame : getThread a key = tid -> (setThread a os key tid).2 = os).
  { intros E. rewrite Hget in E. unfold setThread.
    apply String.eqb_neq in Hk, Ht. rewrite Hk, Ht. cbn [orb].
    cbn [threads setThreads].
    replace (threadOf (Some (default ∅ (threads a))) key) with tid
      by (rewrite <- E; now destruct (threads a)).
    now rewrite String.eqb_refl. }
  assert (Hfile : getThread a key <> tid ->
                  statePath a ∉ OS.faulty os -> statePath a +:+ ".tmp" ∉ OS.faulty os ->
                  OS.ReadFile (setThread a os key tid).2 (statePath a)
                  = Some (OS.Doc (encodeStateFile (threads (setThread a os key tid).1)))).
  { intros Hne Hf1 Hf2. rewrite Hget in Hne.
    rewrite (setThread_saves a os key tid Hk Ht Hne), Ha. unfold saveStateLocked.
    cbn [statePath setThreads threads]. now apply save_then_read. }
  destruct (setThread a os key tid) as [a' os']. cbn [fst snd] in *.
  split; [exact Hg |]. split; [| split; [exact Hsame | split; [exact Hfile |]]].
  - intros k Hne. unfold getThread. destruct (String.eqb k ""); [reflexivity |].
    rewrite Hs. unfold threadOf. rewrite lookup_insert_ne by congruence.
    now destruct (threads a).
  - intros os0. split.
    + reflexivity.
    + unfold setThread. cbn [String.eqb]. now rewrite orb_true_r.
Qed.

Lemma setThread_then_getThread_witness :
  let '(a', os') := setThread Sample.a0 Sample.os0 "42" "T1" in
  getThread a' "42" = "T1"
  /\ (forall k, k <> "42" -> getThread a' k = getThread Sample.a0 k)
  /\ (getThread Sample.a0 "42" = "T1" -> os' = Sample.os0)
  /\ (getThread Sample.a0 "42" <> "T1" ->
      statePath Sample.a0 ∉ OS.faulty Sample.os0 ->
      statePath Sample.a0 +:+ ".tmp" ∉ OS.faulty Sample.os0 ->
      OS.ReadFile os' (statePath Sample.a0) = Some (OS.Doc (encodeStateFile (threads a'))))
  /\ (forall os0, setThread Sample.a0 os0 "" "T1" = (Sample.a0, os0)
                  /\ setThread Sample.a0 os0 "42" "" = (Sample.a0, os0)).
Proof.
  apply (setThread_then_getThread Sample.a0 Sample.os0 "42" "T1"); discriminate.
Defined.

(** X4.  [clearThread] makes [getThread] return the empty string for
    the key and leaves the answer for every other key as it was.  When
    the store has no entry for the key (or the key is empty) nothing
    changes and nothing is written; when it has one the state file is
    replaced (the two file operations taken to succeed) by the encoding
    of the thread map without the entry. *)
Theorem clearThread_then_getThread (a : Adapter) (os : OS.t) (key : string) :
  let '(a', os') := clearThread a os key in
  getThread a' key = ""
  /\ (forall k, getThread a' k = if String.eqb k key then "" else getThread a k)
  /\ (key = "" \/ default ∅ (threads a) !! key = None -> (a', os') = (a, os))
  /\ (key <> "" -> is_Some (default ∅ (threads a) !! key) ->
      threads a' = Some (delete key (default ∅ (threads a)))
      /\ (statePath a ∉ OS.faulty os -> statePath a +:+ ".tmp" ∉ OS.faulty os ->
          OS.ReadFile os' (statePath a) = Some (OS.Doc (encodeStateFile (threads a'))))).
Proof.
  pose proof (getThread_clearThread a os key) as Hg.
  unfold clearThread in *.
  destruct (String.eqb key "") eqn:Ek.
  - apply String.eqb_eq in Ek. subst key. cbn [fst] in Hg.
    split; [reflexivity |]. split; [| split; [reflexivity |]].
    + intros k. unfold getThread. now destruct (String.eqb k "").
    + intros Hne. now destruct Hne.
  - apply String.eqb_neq in Ek.
    destruct (threads a) as [m|] eqn:Em; cbn [default from_option id]; unfold id.
    + destruct (m !! key) as [t|] eqn:El; cbn [fst snd] in *.
      * split; [exact Hg |]. split; [| split].
        -- intros k. unfold getThread. cbn [threads setThreads]. rewrite Em.
           destruct (String.eqb k "") eqn:E0.
           ++ now destruct (String.eqb k key).
           ++ cbn [threadOf]. destruct (String.eqb k key) eqn:E1.
              ** apply String.eqb_eq in E1. subst k. now rewrite lookup_delete_eq.
              ** apply String.eqb_neq in E1. now rewrite lookup_delete_ne by congruence.
        -- intros [E | E]; [contradiction | discriminate].
        -- intros _ _. split; [reflexivity |]. intros Hf1 Hf2.
           unfold saveStateLocked. cbn [statePath setThreads threads].
           now apply save_then_read.
      * split; [exact Hg |]. split; [| split; [reflexivity |]].
        -- intros k. unfold getThread. rewrite Em. cbn [threadOf].
           destruct (String.eqb k "") eqn:E0; [now destruct (String.eqb k key) |].
           destruct (String.eqb k key) eqn:E1; [| reflexivity].
           apply String.eqb_eq in E1. subst k. now rewrite El.
        -- intros _ [x Hx]. discriminate.
    + cbn [fst snd] in *. split; [exact Hg |]. split; [| split; [reflexivity |]].
      * intros k. unfold getThread. rewrite Em. cbn [threadOf].
        now destruct (String.eqb k ""), (String.eqb k key).
      * intros _ [x Hx]. rewrite lookup_empty in Hx. discriminate.
Qed.

(** ** What a stream of records adds to the event buffer *)

Lemma emit_kinds (h : handleExec) (os : OS.t) (typ : EventType) (text : string) :
  (length (events h) < eventsCap)%nat ->
  kindOf <$> events (emit h os typ text).1 = (kindOf <$> events h) ++ [(typ, text)]
  /\ length (events (emit h os typ text).1) = S (length (events h)).
Proof.
  intros Hroom. unfold emit. cbn [OS.Now].
  apply Nat.ltb_lt in Hroom. rewrite Hroom. cbn [fst events setEvents].
  rewrite fmap_app, length_app. cbn. split; [reflexivity | lia].
Qed.

Lemma readJSONLLine_events (h : handleExec) (a : Adapter) (os : OS.t) (l : line) :
  (length (events h) < eventsCap)%nat ->
  let h' := (readJSONLLine h a os l).1.1 in
  kindOf <$> events h' = (kindOf <$> events h) ++ option_list (lineEvent l)
  /\ (length (events h') <= S (length (events h)))%nat.
Proof.
  intros Hroom. cbv zeta. unfold readJSONLLine, lineEvent.
  assert (Hsame : kindOf <$> events h = (kindOf <$> events h) ++ option_list None
                  /\ (length (events h) <= S (length (events h)))%nat).
  { cbn. rewrite app_nil_r. split; [reflexivity | lia]. }
  destruct (unmarshalLine l) as [ev|] eqn:El.
  2: { destruct (emit_kinds h os EventStderr ("bad json: " +:+ lineErr l +:+ nl) Hroom)
         as [E1 E2].
       destruct (emit h os EventStderr _) as [h1 os1]. cbn [fst snd] in *.
       rewrite E1, E2. split; [reflexivity | lia]. }
  destruct (String.eqb (jsonType ev) "thread.started") eqn:Et.
  - assert (Hn : String.eqb (jsonType ev) "item.completed" = false).
    { apply String.eqb_eq in Et. now rewrite Et. }
    rewrite Hn. cbn [andb].
    replace (match jsonItem ev with Some _ => None | None => None end)
      with (@None (EventType * string)) by now destruct (jsonItem ev).
    destruct (String.eqb (jsonThreadID ev) ""); cbn [negb]; [exact Hsame |].
    destruct (String.eqb (threadID h) ""); cbn [negb andb String.eqb];
      [| exact Hsame].
    destruct (_ && _); [| exact Hsame].
    destruct (setThread a os (chatKey h) (jsonThreadID ev)) as [a1 os1].
    exact Hsame.
  - destruct (String.eqb (jsonType ev) "item.completed"); cbn [andb].
    + destruct (jsonItem ev) as [it|]; [| exact Hsame].
      destruct (String.eqb (itemType it) "agent_message" && negb (String.eqb (itemText it) ""));
        [| exact Hsame].
      replace (if negb (Go.HasSuffix (itemText it) nl) then itemText it +:+ nl
               else itemText it)
        with (if Go.HasSuffix (itemText it) nl then itemText it else itemText it +:+ nl)
        by now destruct (Go.HasSuffix (itemText it) nl).
      set (txt := if Go.HasSuffix (itemText it) nl then _ else _).
      destruct (emit_kinds h (appendTranscript h os txt) EventStdout txt Hroom) as [E1 E2].
      destruct (emit h (appendTranscript h os txt) EventStdout txt) as [h1 os1].
      cbn [fst snd] in *. rewrite E1, E2. split; [reflexivity | lia].
    + replace (match jsonItem ev with Some _ => None | None => None end)
        with (@None (EventType * string)) by now destruct (jsonItem ev).
      destruct (String.eqb (jsonType ev) "turn.completed"); exact Hsame.
Qed.

Lemma lines_events (ls : list line) :
  forall (h : handleExec) (a : Adapter) (os : OS.t),
    (length (events h) + length ls <= eventsCap)%nat ->
    let h' :=
      (foldl (fun st l => let '(h, a, os) := st in readJSONLLine h a os l) (h, a, os) ls).1.1 in
    kindOf <$> events h' = (kindOf <$> events h) ++ omap lineEvent ls
    /\ (length (events h') <= length (events h) + length ls)%nat.
Proof.
  induction ls as [|l ls IH]; intros h a os Hroom; cbv zeta; cbn [foldl].
  - cbn. rewrite app_nil_r. split; [reflexivity | lia].
  - cbn [length] in Hroom.
    assert (Hone : (length (events h) < eventsCap)%nat) by lia.
    destruct (readJSONLLine_events h a os l Hone) as [E1 E2]. cbv zeta in E1, E2.
    destruct (readJSONLLine h a os l) as [[h1 a1] os1]. cbn [fst snd] in *.
    destruct (IH h1 a1 os1 ltac:(lia)) as [E3 E4]. cbv zeta in E3, E4.
    rewrite E3, E1. split; [| cbn [length]; lia].
    rewrite <- app_assoc. f_equal. cbn [omap list_omap]. now destruct (lineEvent l).
Qed.

(** X5.  While the event buffer has room for one event per line (and one
    for the scanner's error), [readJSONL] loses and reorders nothing: the
    events it adds are, in the order of the lines, one stdout event per
    agent message with a non-empty text (the text ending in a newline)
    and one stderr event [bad json: ...] per line that is not a JSON
    record, followed by [jsonl read error: ...] when the scanner ended on
    an error.  Every other record adds no event. *)
Theorem readJSONL_forwards_in_order (h : handleExec) (a : Adapter) (os : OS.t)
    (ls : list line) (err : option string) :
  (length (events h) + length ls < eventsCap)%nat ->
  let '(h', _, _) := readJSONL h a os ls err in
  kindOf <$> events h'
  = (kindOf <$> events h) ++ omap lineEvent ls
    ++ match err with
       | Some e => [(EventStderr, "jsonl read error: " +:+ e +:+ nl)]
       | None => []
       end.
Proof.
  intros Hroom. unfold readJSONL.
  destruct (lines_events ls h a os ltac:(lia)) as [E1 E2]. cbv zeta in E1, E2.
  destruct (foldl _ (h, a, os) ls) as [[h1 a1] os1]. cbn [fst snd] in *.
  destruct err as [e|].
  - destruct (emit_kinds h1 os1 EventStderr ("jsonl read error: " +:+ e +:+ nl)
                ltac:(lia)) as [E3 _].
    destruct (emit h1 os1 EventStderr _) as [h2 os2]. cbn [fst] in E3.
    rewrite E3, E1. now rewrite <- app_assoc.
  - rewrite E1, app_nil_r. reflexivity.
Qed.

Lemma readJSONL_forwards_in_order_witness :
  let ls := [Sample.threadStarted "T1"; Sample.agentMessage "hello";
             mkLine None "unexpected end of JSON input";
             Sample.turnCompleted 100 50; Sample.agentMessage ("bye" +:+ nl)] in
  let '(h', _, _) := readJSONL Sample.h0 Sample.a0 Sample.os0 ls None in
  kindOf <$> events h'
  = [] ++ [(EventStdout, "hello" +:+ nl);
           (EventStderr, "bad json: unexpected end of JSON input" +:+ nl);
           (EventStdout, "bye" +:+ nl)] ++ [].
Proof.
  apply (readJSONL_forwards_in_order Sample.h0 Sample.a0 Sample.os0
           [Sample.threadStarted "T1"; Sample.agentMessage "hello";
            mkLine None "unexpected end of JSON input";
            Sample.turnCompleted 100 50; Sample.agentMessage ("bye" +:+ nl)] None).
  vm_compute. lia.
Defined.

(** ** The transcript only grows *)

Lemma append_empty_r (s : string) : s +:+ "" = s.
Proof. induction s as [|c s IH]; [reflexivity | rewrite append_cons; now rewrite IH]. Qed.

Lemma grows_refl (p : string) (os : OS.t) : isLog os p -> grows p os os.
Proof. intros H. split; [exact H | exists ""; now rewrite append_empty_r]. Qed.

Lemma grows_trans (p : string) (os1 os2 os3 : OS.t) :
  grows p os1 os2 -> grows p os2 os3 -> grows p os1 os3.
Proof.
  intros [_ [s1 E1]] [L3 [s2 E2]]. split; [exact L3 |].
  exists (s1 +:+ s2). now rewrite E2, E1, append_assoc.
Qed.

Lemma grows_same (p : string) (os os' : OS.t) :
  isLog os p -> OS.faulty os' = OS.faulty os -> OS.files os' !! p = OS.files os !! p ->
  grows p os os'.
Proof.
  intros [L1 L2] Hf Hp. split.
  - split; [now rewrite Hf | intros d; rewrite Hp; apply L2].
  - exists "". unfold textAt. now rewrite Hp, append_empty_r.
Qed.

Lemma AppendFile_grows (os : OS.t) (p s : string) :
  isLog os p ->
  isLog (OS.AppendFile os p s) p /\ textAt (OS.AppendFile os p s) p = textAt os p +:+ s.
Proof.
  intros [L1 L2]. unfold textAt, isLog, OS.AppendFile.
  rewrite decide_False by exact L1.
  destruct (OS.files os !! p) as [[old | d] |] eqn:E; cbn [OS.files OS.faulty OS.setFiles].
  - rewrite lookup_insert_eq. repeat split; [exact L1 | discriminate].
  - now destruct (L2 d).
  - rewrite lookup_insert_eq. repeat split; [exact L1 | discriminate].
Qed.

Lemma AppendFile_other (os : OS.t) (p p' s : string) :
  isLog os p -> p' <> p -> grows p os (OS.AppendFile os p' s).
Proof.
  intros L Hne. destruct (AppendFile_frame os p' s) as (F1 & _ & _ & _ & _ & F6).
  apply grows_same; [exact L | exact F1 | apply F6; congruence].
Qed.

Lemma emit_grows (p : string) (h : handleExec) (os : OS.t) (typ : EventType) (text : string) :
  isLog os p -> grows p os (emit h os typ text).2.
Proof.
  intros L. unfold emit. cbn [OS.Now].
  destruct (_ <? _)%nat; cbn [snd]; now apply grows_same.
Qed.

Lemma setThread_grows (p : string) (a : Adapter) (os : OS.t) (key tid : string) :
  isLog os p -> p <> statePath a -> p <> statePath a +:+ ".tmp" ->
  grows p os (setThread a os key tid).2 /\ statePath (setThread a os key tid).1 = statePath a.
Proof.
  intros L H1 H2. unfold setThread.
  destruct (_ || _); [split; [now apply grows_refl | reflexivity] |].
  destruct (String.eqb _ tid); cbn [fst snd];
    [split; [now apply grows_refl | reflexivity] |].
  split; [| reflexivity]. unfold saveStateLocked. cbn [statePath setThreads].
  destruct (save_frame os (statePath a)
              (OS.Doc (encodeStateFile
                         (threads (setThreads (setThreads a (Some (default ∅ (threads a))))
                                     (Some (<[key := tid]> (default ∅ (threads a))))))))) 
    as (F1 & _ & _ & _ & _ & F6).
  cbv zeta in F1, F6. apply grows_same; [exact L | exact F1 | now apply F6].
Qed.

Lemma readJSONLLine_grows (p : string) (h : handleExec) (a : Adapter) (os : OS.t) (l : line) :
  isLog os p -> p <> statePath a -> p <> statePath a +:+ ".tmp" ->
  let r := readJSONLLine h a os l in
  grows p os r.2 /\ statePath r.1.2 = statePath a
  /\ xLogDir r.1.1 = xLogDir h /\ sessionID r.1.1 = sessionID h.
Proof.
  intros L H1 H2. cbv zeta. unfold readJSONLLine.
  assert (Hsame : grows p os os /\ statePath a = statePath a
                  /\ xLogDir h = xLogDir h /\ sessionID h = sessionID h).
  { split; [now apply grows_refl | repeat split]. }
  assert (Happ : forall os0 (h0 : handleExec) s, isLog os0 p ->
                   grows p os0 (appendTranscript h0 os0 s)).
  { intros os0 h0 s L0. unfold appendTranscript.
    destruct (decide (transcriptPath (xLogDir h0) (sessionID h0) = p)) as [<- | Hne].
    - destruct (AppendFile_grows os0 _ s L0) as [A1 A2]. split; [exact A1 | eauto].
    - now apply AppendFile_other. }
  assert (Hemit : forall os0 typ text, grows p os os0 ->
             let r := emit h os0 typ text in
             grows p os r.2 /\ statePath a = statePath a
             /\ xLogDir r.1 = xLogDir h /\ sessionID r.1 = sessionID h).
  { intros os0 typ text G. cbv zeta.
    pose proof (emit_grows p h os0 typ text (proj1 G)) as G'.
    split; [eapply grows_trans; eassumption |].
    unfold emit. cbn [OS.Now]. destruct (_ <? _)%nat; repeat split. }
  destruct (unmarshalLine l) as [ev|].
  2: { specialize (Hemit os EventStderr ("bad json: " +:+ lineErr l +:+ nl)
                     (grows_refl p os L)).
       cbv zeta in Hemit. destruct (emit h os EventStderr _) as [h1 os1]. exact Hemit. }
  destruct (String.eqb (jsonType ev) "thread.started").
  - destruct (String.eqb (jsonThreadID ev) ""); cbn [negb]; [exact Hsame |].
    destruct (String.eqb (threadID h) ""); cbn [negb andb String.eqb]; [| exact Hsame].
    destruct (_ && _); [| split; [now apply grows_refl | repeat split]].
    destruct (setThread_grows p a os (chatKey h) (jsonThreadID ev) L H1 H2) as [G S].
    destruct (setThread a os (chatKey h) (jsonThreadID ev)) as [a1 os1].
    cbn [fst snd] in *. split; [| repeat split; exact S].
    eapply grows_trans; [exact G | apply Happ; apply G].
  - destruct (String.eqb (jsonType ev) "item.completed").
    + destruct (jsonItem ev) as [it|]; [| exact Hsame].
      destruct (_ && _); [| exact Hsame].
      set (txt := if negb (Go.HasSuffix (itemText it) nl) then _ else _).
      specialize (Hemit (appendTranscript h os txt) EventStdout txt (Happ os h txt L)).
      cbv zeta in Hemit.
      destruct (emit h (appendTranscript h os txt) EventStdout txt) as [h1 os1].
      exact Hemit.
    + destruct (String.eqb (jsonType ev) "turn.completed"); exact Hsame.
Qed.

Lemma doStep_grows (p : string) (h : handleExec) (a : Adapter) (os : OS.t) (s : step) :
  isLog os p -> p <> statePath a -> p <> statePath a +:+ ".tmp" ->
  let r := doStep (h, a, os) s in
  grows p os r.2 /\ statePath r.1.2 = statePath a
  /\ xLogDir r.1.1 = xLogDir h /\ sessionID r.1.1 = sessionID h.
Proof.
  intros L H1 H2. destruct s as [l | text |]; cbv zeta; cbn [doStep].
  - now apply readJSONLLine_grows.
  - unfold readStderrLine.
    assert (Happ : forall s, grows p os (appendTranscript h os s)).
    { intros s. unfold appendTranscript.
      destruct (decide (transcriptPath (xLogDir h) (sessionID h) = p)) as [<- | Hne].
      - destruct (AppendFile_grows os _ s L) as [A1 A2]. split; [exact A1 | eauto].
      - now apply AppendFile_other. }
    destruct (isNoisyCodexStderr _).
    + cbn [fst snd]. split; [apply Happ | repeat split].
    + pose proof (emit_grows p h _ EventStderr (text +:+ nl) (proj1 (Happ (text +:+ nl))))
        as G.
      assert (Hid : xLogDir (emit h (appendTranscript h os (text +:+ nl)) EventStderr
                               (text +:+ nl)).1 = xLogDir h
                    /\ sessionID (emit h (appendTranscript h os (text +:+ nl)) EventStderr
                                    (text +:+ nl)).1 = sessionID h).
      { unfold emit. cbn [OS.Now]. destruct (_ <? _)%nat; split; reflexivity. }
      destruct (emit h _ EventStderr (text +:+ nl)) as [h1 os1]. cbn [fst snd] in *.
      split; [eapply grows_trans; [apply Happ | exact G] | now split].
  - split; [now apply grows_refl | repeat split].
Qed.

Lemma steps_grow (p : string) (ss : list step) :
  forall (h : handleExec) (a : Adapter) (os : OS.t),
    isLog os p -> p <> statePath a -> p <> statePath a +:+ ".tmp" ->
    let r := foldl doStep (h, a, os) ss in
    grows p os r.2 /\ statePath r.1.2 = statePath a
    /\ xLogDir r.1.1 = xLogDir h /\ sessionID r.1.1 = sessionID h.
Proof.
  induction ss as [|s ss IH]; intros h a os L H1 H2; cbv zeta; cbn [foldl].
  - split; [now apply grows_refl | repeat split].
  - destruct (doStep_grows p h a os s L H1 H2) as (G & S & X & I). cbv zeta in G, S, X, I.
    destruct (doStep (h, a, os) s) as [[h1 a1] os1]. cbn [fst snd] in *.
    destruct (IH h1 a1 os1 (proj1 G)) as (G' & S' & X' & I'); [congruence | congruence |].
    cbv zeta in G', S', X', I'.
    split; [eapply grows_trans; eassumption |]. repeat split; congruence.
Qed.

Lemma sendExec_os (a : Adapter) (h : handleExec) (os : OS.t) (input : string) (c : child) :
  Go.TrimSpace input <> "" -> startErr c = None ->
  (sendExec a h os input c).2
  = let os2 :=
      appendTranscript (setRunning h true)
        (OS.Start os (cmdPath h) (execArgv h (threadID h) (Go.TrimSpace input)))
        (nl +:+ "> " +:+ Go.TrimSpace input +:+ nl) in
    let r := foldl doStep (setRunning h true, a, os2) (schedule c) in
    match scanErr c with
    | Some e => (emit r.1.1 r.2 EventStderr ("jsonl read error: " +:+ e +:+ nl)).2
    | None => r.2
    end.
Proof.
  intros Hi Hs. unfold sendExec. apply String.eqb_neq in Hi. rewrite Hi, Hs. cbv zeta.
  destruct (foldl doStep _ (schedule c)) as [[h2 a2] os3]. cbn [fst snd].
  destruct (scanErr c) as [e|]; [| reflexivity].
  now destruct (emit h2 os3 EventStderr _).
Qed.

(** X6.  A turn only adds to the transcript of its session.  When the
    transcript is a log that can be written and is not the state file,
    [sendExec] on a prompt that is not blank, with a command that
    starts, leaves in the transcript what was there, followed by the
    prompt on a line of its own after [> ], followed by what the turn
    logged; every other log that can be written and is not the state
    file has only grown as well. *)
Theorem turn_extends_transcript (a : Adapter) (h : handleExec) (os : OS.t)
    (input : string) (c : child) :
  let p := transcriptPath (xLogDir h) (sessionID h) in
  isLog os p -> p <> statePath a -> p <> statePath a +:+ ".tmp" ->
  Go.TrimSpace input <> "" -> startErr c = None ->
  let os' := (sendExec a h os input c).2 in
  (exists rest,
     textAt os' p = textAt os p +:+ (nl +:+ "> " +:+ Go.TrimSpace input +:+ nl) +:+ rest)
  /\ (forall p', isLog os p' -> p' <> statePath a -> p' <> statePath a +:+ ".tmp" ->
                 grows p' os os').
Proof.
  intros p L H1 H2 Hi Hs. cbv zeta. rewrite sendExec_os by assumption. cbv zeta.
  set (prompt := Go.TrimSpace input). set (h1 := setRunning h true).
  set (os1 := OS.Start os (cmdPath h) (execArgv h (threadID h) prompt)).
  set (os2 := appendTranscript h1 os1 (nl +:+ "> " +:+ prompt +:+ nl)).
  set (r := foldl doStep (h1, a, os2) (schedule c)).
  set (os' := match scanErr c with Some e => _ | None => _ end).
  assert (Hfirst : forall p', isLog os p' -> grows p' os os2).
  { intros p' L'. assert (L1 : isLog os1 p') by exact L'.
    unfold os2, appendTranscript.
    destruct (decide (transcriptPath (xLogDir h1) (sessionID h1) = p')) as [<- | Hne].
    - destruct (AppendFile_grows os1 _ (nl +:+ "> " +:+ prompt +:+ nl) L1) as [A1 A2].
      split; [exact A1 | eauto].
    - apply (AppendFile_other os1); assumption. }
  assert (Hturn : forall p', isLog os p' -> p' <> statePath a ->
                    p' <> statePath a +:+ ".tmp" -> grows p' os2 os').
  { intros p' L' H1' H2'.
    destruct (steps_grow p' (schedule c) h1 a os2 (proj1 (Hfirst p' L')) H1' H2')
      as (G2 & _).
    cbv zeta in G2. fold r in G2. unfold os'.
    destruct (scanErr c) as [e|]; [| exact G2].
    eapply grows_trans; [exact G2 | apply emit_grows; apply G2]. }
  split.
  - destruct (Hturn p L H1 H2) as [_ [rest E]]. exists rest. rewrite E.
    assert (L1 : isLog os1 p) by exact L.
    destruct (AppendFile_grows os1 p (nl +:+ "> " +:+ prompt +:+ nl) L1) as [_ A2].
    replace (textAt os2 p) with (textAt os1 p +:+ nl +:+ "> " +:+ prompt +:+ nl)
      by (symmetry; exact A2).
    apply append_assoc.
  - intros p' L' H1' H2'. eapply grows_trans; [now apply Hfirst | now apply Hturn].
Qed.

Lemma turn_extends_transcript_witness :
  let os' :=
    (sendExec Sample.a0 Sample.h0 Sample.os0 "hi"
       (mkChild None [StdoutLine (Sample.agentMessage "hello")] None None)).2 in
  (exists rest,
     textAt os' (transcriptPath "logs" "chat-42-1700000000")
     = textAt Sample.os0 (transcriptPath "logs" "chat-42-1700000000")
       +:+ (nl +:+ "> " +:+ Go.TrimSpace "hi" +:+ nl) +:+ rest)
  /\ (forall p', isLog Sample.os0 p' -> p' <> statePath Sample.a0 ->
                 p' <> statePath Sample.a0 +:+ ".tmp" -> grows p' Sample.os0 os').
Proof.
  apply (turn_extends_transcript Sample.a0 Sample.h0 Sample.os0 "hi"
           (mkChild None [StdoutLine (Sample.agentMessage "hello")] None None)).
  - split; [apply not_elem_of_empty | intros d; vm_compute; discriminate].
  - vm_compute. discriminate.
  - vm_compute. discriminate.
  - vm_compute. discriminate.
  - reflexivity.
Defined.

(** ** Sessions without a conversation key *)

Lemma quiet_calm (h : handleExec) (os : OS.t) (h' : handleExec) (os' : OS.t) :
  quiet h os h' os' -> calm h os h' os'.
Proof. intros (I & _ & S). now split. Qed.

Lemma calm_trans (h1 h2 h3 : handleExec) (os1 os2 os3 : OS.t) :
  calm h1 os1 h2 os2 -> calm h2 os2 h3 os3 -> calm h1 os1 h3 os3.
Proof.
  intros (I1 & S1) (I2 & S2).
  destruct I1 as (A1 & A2 & A3 & A4 & A5 & A6 & A7).
  destruct I2 as (B1 & B2 & B3 & B4 & B5 & B6 & B7).
  split; [repeat split; congruence |].
  apply (sameOutside_trans _ _ _ _ S1).
  unfold notTranscript in *. now rewrite A3, A1 in S2.
Qed.

Lemma readJSONLLine_keyless (h : handleExec) (a : Adapter) (os : OS.t) (l : line) :
  chatKey h = "" ->
  (readJSONLLine h a os l).1.2 = a
  /\ calm h os (readJSONLLine h a os l).1.1 (readJSONLLine h a os l).2.
Proof.
  intros Hk.
  assert (Hq : threadID h <> "" \/ announcesNoThread l ->
               (readJSONLLine h a os l).1.2 = a
               /\ calm h os (readJSONLLine h a os l).1.1 (readJSONLLine h a os l).2).
  { intros H. destruct (readJSONLLine_quiet h a os l H) as [E Q].
    split; [exact E | now apply quiet_calm]. }
  destruct (String.eqb (threadID h) "") eqn:Eh;
    [| apply Hq; left; now apply String.eqb_neq in Eh].
  destruct (unmarshalLine l) as [ev|] eqn:El;
    [| apply Hq; right; intros ev El'; congruence].
  destruct (String.eqb (jsonType ev) "thread.started") eqn:Et.
  2: { apply Hq. right. intros ev' El' Et'. rewrite El in El'. injection El' as <-.
       apply String.eqb_neq in Et. contradiction. }
  destruct (String.eqb (jsonThreadID ev) "") eqn:Ei.
  { apply Hq. right. intros ev' El' _. rewrite El in El'. injection El' as <-.
    now apply String.eqb_eq in Ei. }
  unfold readJSONLLine. rewrite El, Et, Ei, Eh, Hk. cbn [negb String.eqb].
  rewrite andb_false_r. cbn [andb fst snd].
  split; [reflexivity |]. split; [repeat split | apply sameOutside_refl].
Qed.

Lemma steps_keyless (ss : list step) :
  forall (h : handleExec) (a : Adapter) (os : OS.t),
    chatKey h = "" ->
    (foldl doStep (h, a, os) ss).1.2 = a
    /\ calm h os (foldl doStep (h, a, os) ss).1.1 (foldl doStep (h, a, os) ss).2.
Proof.
  induction ss as [|s ss IH]; intros h a os Hk; cbn [foldl].
  - split; [reflexivity |]. split; [repeat split | apply sameOutside_refl].
  - assert (Hs : (doStep (h, a, os) s).1.2 = a
                 /\ calm h os (doStep (h, a, os) s).1.1 (doStep (h, a, os) s).2).
    { destruct s as [l | text |]; cbn [doStep].
      - now apply readJSONLLine_keyless.
      - pose proof (readStderrLine_quiet h os text) as Q.
        destruct (readStderrLine h os text) as [h1 os1]. cbn [fst snd] in *.
        split; [reflexivity | now apply quiet_calm].
      - split; [reflexivity | apply quiet_calm, receive_quiet]. }
    destruct Hs as [Ea C].
    destruct (doStep (h, a, os) s) as [[h1 a1] os1]. cbn [fst snd] in *. subst a1.
    assert (Hk1 : chatKey h1 = "") by (destruct C as [(_ & -> & _) _]; exact Hk).
    destruct (IH h1 a os1 Hk1) as [Ea' C'].
    split; [exact Ea' | eapply calm_trans; eassumption].
Qed.

(** X7.  A session without a conversation key persists nothing.  On a
    handle whose conversation key is empty (as it is for a negative chat
    identifier), a turn may adopt the thread the command announces for
    the following turns on the handle, but it leaves the adapter, and so
    the thread store, exactly as it was and writes to no file other than
    the transcript of the session. *)
Theorem keyless_session_persists_nothing (a : Adapter) (h : handleExec) (os : OS.t)
    (input : string) (c : child) :
  chatKey h = "" ->
  let '(_, h', a', os') := sendExec a h os input c in
  a' = a
  /\ chatKey h' = ""
  /\ OS.faulty os' = OS.faulty os
  /\ (forall p, p <> transcriptPath (xLogDir h) (sessionID h) ->
                OS.files os' !! p = OS.files os !! p).
Proof.
  intros Hk. unfold sendExec.
  destruct (String.eqb (Go.TrimSpace input) ""); [now repeat split |].
  destruct (startErr c); [now repeat split |].
  set (h1 := setRunning h true).
  set (os1 := OS.Start os _ _).
  pose proof (appendTranscript_quiet h1 os1 (nl +:+ "> " +:+ Go.TrimSpace input +:+ nl)) as Q0.
  apply quiet_calm in Q0.
  set (os2 := appendTranscript h1 os1 _) in *.
  destruct (steps_keyless (schedule c) h1 a os2 Hk) as [Ea C].
  destruct (foldl doStep (h1, a, os2) (schedule c)) as [[h2 a2] os3].
  cbn [fst snd] in Ea, C. subst a2.
  pose proof (calm_trans _ _ _ _ _ _ Q0 C) as C1.
  assert (Hend : forall h3 os4, calm h2 os3 h3 os4 ->
                   a = a /\ chatKey (setRunning h3 false) = ""
                   /\ OS.faulty os4 = OS.faulty os
                   /\ (forall p, p <> transcriptPath (xLogDir h) (sessionID h) ->
                                 OS.files os4 !! p = OS.files os !! p)).
  { intros h3 os4 C2. pose proof (calm_trans _ _ _ _ _ _ C1 C2) as [I S].
    split; [reflexivity |].
    split; [cbn [chatKey setRunning]; destruct I as (_ & -> & _); exact Hk |].
    split; [apply (same_faulty _ _ _ S) | intros p Hp; now apply (same_files _ _ _ S)]. }
  destruct (scanErr c) as [e|].
  - pose proof (emit_quiet h2 os3 EventStderr ("jsonl read error: " +:+ e +:+ nl)) as Q.
    apply quiet_calm in Q.
    destruct (emit h2 os3 EventStderr _) as [h3 os4]. now apply Hend.
  - apply Hend. split; [repeat split | apply sameOutside_refl].
Qed.

Lemma keyless_session_persists_nothing_witness :
  let h :=
    (startExec Sample.a0 (resumeID (-1001) Sample.os0).2 (resumeID (-1001) Sample.os0).1).1.1 in
  let '(_, h', a', os') :=
    sendExec Sample.a0 h Sample.os0 "hi"
      (mkChild None [StdoutLine (Sample.threadStarted "T9")] None None) in
  a' = Sample.a0
  /\ chatKey h' = ""
  /\ OS.faulty os' = OS.faulty Sample.os0
  /\ (forall p, p <> transcriptPath (xLogDir h) (sessionID h) ->
                OS.files os' !! p = OS.files Sample.os0 !! p).
Proof.
  apply (keyless_session_persists_nothing Sample.a0
           (startExec Sample.a0 (resumeID (-1001) Sample.os0).2
              (resumeID (-1001) Sample.os0).1).1.1
           Sample.os0 "hi"
           (mkChild None [StdoutLine (Sample.threadStarted "T9")] None None)).
  vm_compute. reflexivity.
Defined.

(** ** The memory of a conversation *)

(** X8.  [getMem] with a conversation key that is not empty returns the
    memory of the conversation, a zero memory when the conversation has
    none (no entry or a nil one), and afterwards the memory map holds what
    was returned under the key; the entries of other conversations and
    the rest of the adapter are as before, and asking again returns the
    same memory and changes nothing.  With an empty key the result is
    nil and the adapter is untouched. *)
Theorem getMem_registers_once (a : Adapter) (key : string) :
  key <> "" ->
  let '(m, a') := getMem a key in
  m = Some (default zeroMemory (memOf (mem a) key))
  /\ memOf (mem a') key = m
  /\ (forall k, k <> key -> memOf (mem a') k = memOf (mem a) k)
  /\ threads a' = threads a /\ compacting a' = compacting a
  /\ getMem a' key = (m, a')
  /\ getMem a "" = (None, a).
Proof.
  intros Hk. rewrite (getMem_spec a key Hk). cbv zeta.
  set (m := default zeroMemory (memOf (mem a) key)).
  split; [reflexivity |]. split; [| split; [| split; [| split; [| split]]]];
    try reflexivity.
  - rewrite mem_setMem. cbn [memOf]. now rewrite lookup_insert_eq.
  - intros k Hne. rewrite mem_setMem. cbn [memOf].
    rewrite lookup_insert_ne by congruence. apply memOf_default.
  - rewrite (getMem_spec _ key Hk). cbv zeta. rewrite mem_setMem, setMem_setMem.
    cbn [memOf default from_option]. rewrite lookup_insert_eq. cbn [from_option].
    unfold id. now rewrite insert_insert_eq.
Qed.

Lemma getMem_registers_once_witness :
  let '(m, a') := getMem Sample.a0 "42" in
  m = Some (default zeroMemory (memOf (mem Sample.a0) "42"))
  /\ memOf (mem a') "42" = m
  /\ (forall k, k <> "42" -> memOf (mem a') k = memOf (mem Sample.a0) k)
  /\ threads a' = threads Sample.a0 /\ compacting a' = compacting Sample.a0
  /\ getMem a' "42" = (m, a')
  /\ getMem Sample.a0 "" = (None, Sample.a0).
Proof. apply (getMem_registers_once Sample.a0 "42"). discriminate. Defined.

Lemma writeBullets_length (l : list string) :
  forall b, (String.length b <= String.length (writeBullets b l))%nat.
Proof.
  unfold writeBullets. induction l as [|r l IH]; intros b; cbn [foldl]; [lia |].
  destruct (String.eqb (Go.TrimSpace r) ""); [apply IH |].
  etransitivity; [| apply IH]. rewrite length_append. lia.
Qed.

Lemma length_zero_empty (s : string) : String.length s = 0%nat <-> s = "".
Proof. destruct s; simpl; split; intros H; congruence. Qed.

(** X9.  With the memory enabled and a conversation key, the prefix
    [memoryPrefix] builds is empty exactly when the conversation has no
    rule, no summary and no preference; a list of rules or preferences
    whose entries are all blank still yields its heading.  The call
    registers a conversation it does not know and is otherwise without
    effect: asking again gives the same text and changes nothing.  With
    the memory disabled the prefix is empty and the adapter untouched;
    with an empty key the prefix is empty as well. *)
Theorem memoryPrefix_empty_iff (a : Adapter) (os : OS.t) (key : string) :
  memoryEnabled a os = true -> key <> "" ->
  let m := default zeroMemory (memOf (mem a) key) in
  let '(text, a') := memoryPrefix a os key in
  (text = "" <-> Rules m = [] /\ Summary m = "" /\ Prefs m = [])
  /\ a' = (getMem a key).2
  /\ memoryPrefix a' os key = (text, a')
  /\ (forall a0 os0 k, memoryEnabled a0 os0 = false -> memoryPrefix a0 os0 k = ("", a0))
  /\ (memoryPrefix a os "").1 = "".
Proof.
  intros Hen Hk. cbv zeta.
  assert (Hagain : getMem (getMem a key).2 key = getMem a key).
  { rewrite (getMem_spec a key Hk). cbv zeta. cbn [snd].
    rewrite (getMem_spec _ key Hk). cbv zeta. rewrite mem_setMem, setMem_setMem.
    cbn [memOf default from_option]. rewrite lookup_insert_eq. cbn [from_option].
    unfold id. now rewrite insert_insert_eq. }
  unfold memoryPrefix at 1 2. rewrite Hen. cbn [negb].
  rewrite (getMem_spec a key Hk) in *. cbv zeta in *. cbn [snd] in Hagain.
  set (m := default zeroMemory (memOf (mem a) key)) in *.
  set (a1 := setMem a _) in *.
  set (b1 := match Rules m with [] => "" | _ => _ end).
  set (b2 := if negb (String.eqb (Summary m) "") then _ else b1).
  set (b3 := match Prefs m with [] => b2 | _ => _ end).
  assert (H1 : (String.length b1 = 0)%nat <-> Rules m = []).
  { unfold b1. destruct (Rules m) as [|r rs]; [now split |].
    split; [| discriminate]. intros E. rewrite length_append in E.
    unfold nl at 2 in E. cbn [String.length] in E. lia. }
  assert (H2 : (String.length b2 = 0)%nat <-> Rules m = [] /\ Summary m = "").
  { unfold b2. destruct (String.eqb (Summary m) "") eqn:Es; cbn [negb].
    - apply String.eqb_eq in Es. rewrite H1. tauto.
    - apply String.eqb_neq in Es. rewrite !length_append.
      unfold nl. cbn [String.length]. split; [lia | tauto]. }
  assert (H3 : (String.length b3 = 0)%nat <-> Rules m = [] /\ Summary m = "" /\ Prefs m = []).
  { unfold b3. destruct (Prefs m) as [|r rs]; [rewrite H2; tauto |].
    split; [| intros (_ & _ & E); discriminate]. intros E. rewrite length_append in E.
    unfold nl at 2 in E. cbn [String.length] in E. lia. }
  cbn [fst snd]. split; [| split; [reflexivity | split; [| split]]].
  - destruct (String.length b3 =? 0)%nat eqn:E.
    + apply Nat.eqb_eq in E. rewrite <- H3. tauto.
    + apply Nat.eqb_neq in E. rewrite <- H3, <- length_zero_empty. tauto.
  - unfold memoryPrefix.
    replace (memoryEnabled a1 os) with true by (symmetry; exact Hen).
    cbn [negb]. rewrite Hagain. reflexivity.
  - intros a0 os0 k E. unfold memoryPrefix. now rewrite E.
  - unfold memoryPrefix. rewrite Hen. reflexivity.
Qed.

Lemma memoryPrefix_empty_iff_witness :
  let a := setMem Sample.a0 (Some {[ "42" := Some (mkMem "" [" "] [] Go.zeroTime Go.zeroTime 0 0 []) ]}) in
  let m := default zeroMemory (memOf (mem a) "42") in
  let '(text, a') := memoryPrefix a Sample.os0 "42" in
  (text = "" <-> Rules m = [] /\ Summary m = "" /\ Prefs m = [])
  /\ a' = (getMem a "42").2
  /\ memoryPrefix a' Sample.os0 "42" = (text, a')
  /\ (forall a0 os0 k, memoryEnabled a0 os0 = false -> memoryPrefix a0 os0 k = ("", a0))
  /\ (memoryPrefix a Sample.os0 "").1 = "".
Proof.
  apply (memoryPrefix_empty_iff
           (setMem Sample.a0 (Some {[ "42" := Some (mkMem "" [" "] [] Go.zeroTime Go.zeroTime 0 0 []) ]}))
           Sample.os0 "42").
  - vm_compute. reflexivity.
  - discriminate.
Defined.

(** ** What a merge returns *)

Lemma elem_of_dedup (l : list string) (x : string) : x ∈ dedup l <-> x ∈ l.
Proof.
  induction l as [|y l IH]; [reflexivity |].
  cbn [dedup]. rewrite !elem_of_cons, list_elem_of_filter, IH.
  destruct (decide (x = y)); tauto.
Qed.

Lemma NoDup_dedup (l : list string) : NoDup (dedup l).
Proof.
  induction l as [|y l IH]; [constructor |].
  cbn [dedup]. constructor.
  - rewrite list_elem_of_filter. tauto.
  - now apply NoDup_filter.
Qed.

Lemma dedup_app (l1 l2 : list string) :
  dedup (l1 ++ l2) = dedup l1 ++ filter (fun y => y ∉ l1) (dedup l2).
Proof.
  induction l1 as [|x l1 IH].
  - cbn [app dedup]. symmetry. apply filter_all. intros y. apply not_elem_of_nil.
  - cbn [app dedup]. rewrite IH, filter_app. f_equal. f_equal.
    rewrite list_filter_filter. apply list_filter_iff.
    intros y. rewrite not_elem_of_cons. tauto.
Qed.

Lemma normalise_app (l1 l2 : list string) :
  normalise (l1 ++ l2) = normalise l1 ++ normalise l2.
Proof. unfold normalise. now rewrite fmap_app, filter_app. Qed.

Lemma elem_of_normalise (l : list string) (s : string) :
  s ∈ normalise l <-> s <> "" /\ exists x, x ∈ l /\ s = Go.TrimSpace x.
Proof.
  unfold normalise. rewrite list_elem_of_filter, list_elem_of_fmap.
  split; intros [H1 (x & H2 & H3)]; (split; [exact H1 | exists x; split; assumption]).
Qed.

(** X10.  What [mergeUnique] returns has no entry twice and no blank
    entry; every entry is an entry of one of the two lists with the
    surrounding white space removed; under a positive cap the result has
    at most that many entries, and with a cap that is not positive
    nothing is cut: every entry of the two lists that is not blank is
    there, trimmed. *)
Theorem mergeUnique_result (base add : list string) (limit : Z) :
  let out := mergeUnique base add limit in
  NoDup out
  /\ (forall s, s ∈ out -> s <> "" /\ exists x, x ∈ base ++ add /\ s = Go.TrimSpace x)
  /\ (0 < limit -> (length out <= Z.to_nat limit)%nat)
  /\ (limit <= 0 ->
      forall x, x ∈ base ++ add -> Go.TrimSpace x <> "" -> Go.TrimSpace x ∈ out).
Proof.
  cbv zeta. rewrite mergeUnique_spec.
  set (full := dedup (normalise (base ++ add))).
  assert (Hnd : NoDup full) by apply NoDup_dedup.
  assert (Hin : forall s, s ∈ full ->
                  s <> "" /\ exists x, x ∈ base ++ add /\ s = Go.TrimSpace x).
  { intros s Hs. unfold full in Hs.
    apply (proj1 (elem_of_dedup _ _)) in Hs.
    exact (proj1 (elem_of_normalise _ _) Hs). }
  destruct (0 <? limit) eqn:El.
  - apply Z.ltb_lt in El. split; [| split; [| split]].
    + eapply sublist_NoDup; [exact Hnd | apply sublist_take].
    + intros s Hs. apply Hin. eapply elem_of_sublist; [exact Hs | apply sublist_take].
    + intros _. rewrite length_take. lia.
    + lia.
  - apply Z.ltb_ge in El. split; [exact Hnd | split; [exact Hin | split; [lia |]]].
    intros _ x Hx Hne. apply (proj2 (elem_of_dedup _ _)).
    apply (proj2 (elem_of_normalise _ _)). split; [exact Hne |].
    exists x. split; [exact Hx | reflexivity].
Qed.

(** X11.  New entries never displace existing ones: the result of
    merging an addition into a list starts with what merging nothing
    into it gives (the existing entries trimmed, without the blank ones
    and the duplicates, cut at the cap), and when the existing entries
    alone fill a positive cap the addition is dropped entirely. *)
Theorem mergeUnique_keeps_existing (base add : list string) (limit : Z) :
  mergeUnique base [] limit `prefix_of` mergeUnique base add limit
  /\ (0 < limit -> (Z.to_nat limit <= length (mergeUnique base [] limit))%nat ->
      mergeUnique base add limit = mergeUnique base [] limit).
Proof.
  rewrite !mergeUnique_spec, app_nil_r, normalise_app, dedup_app.
  set (old := dedup (normalise base)).
  set (new := filter (fun y => y ∉ normalise base) (dedup (normalise add))).
  destruct (0 <? limit) eqn:El.
  - destruct (decide (Z.to_nat limit <= length old)%nat) as [Hle | Hgt].
    + rewrite take_app_le by exact Hle. split; [reflexivity | reflexivity].
    + rewrite (take_ge old) by lia. rewrite take_app_ge by lia. split.
      * now apply prefix_app_r.
      * intros _ Hfull. lia.
  - apply Z.ltb_ge in El. split; [now apply prefix_app_r | lia].
Qed.

(** ** The reply of a compaction *)

Lemma Index_one {A} `{EqDecision A} (c : A) (pre rest : list A) :
  c ∉ pre -> Go.Index (pre ++ c :: rest) [c] = Z.of_nat (length pre).
Proof.
  induction pre as [|x pre IH]; intros Hc.
  - cbn [app Go.Index Go.isPrefixOf]. now rewrite bool_decide_eq_true_2.
  - cbn [app Go.Index Go.isPrefixOf].
    rewrite bool_decide_eq_false_2 by (intros ->; apply Hc; now left).
    cbn [andb]. rewrite IH by (intros Hin; apply Hc; now right).
    destruct (Z.of_nat (length pre) =? -1) eqn:E; [apply Z.eqb_eq in E; lia |].
    cbn [length]. lia.
Qed.

Lemma Index_one_none {A} `{EqDecision A} (c : A) (l : list A) :
  c ∉ l -> Go.Index l [c] = -1.
Proof.
  induction l as [|x l IH]; intros Hc; [reflexivity |].
  cbn [Go.Index Go.isPrefixOf].
  rewrite bool_decide_eq_false_2 by (intros ->; apply Hc; now left).
  cbn [andb]. now rewrite IH by (intros Hin; apply Hc; now right).
Qed.

Lemma lastIndexFrom_none (c : ascii) (l : list ascii) :
  forall i found, c ∉ l -> Go.lastIndexFrom i l c found = found.
Proof.
  induction l as [|x l IH]; intros i found Hc; [reflexivity |].
  cbn [Go.lastIndexFrom].
  rewrite bool_decide_eq_false_2 by (intros ->; apply Hc; now left).
  apply IH. intros Hin. apply Hc. now right.
Qed.

Lemma lastIndexFrom_last (c : ascii) (pre rest : list ascii) :
  forall i found,
    c ∉ rest ->
    Go.lastIndexFrom i (pre ++ c :: rest) c found = i + Z.of_nat (length pre).
Proof.
  induction pre as [|x pre IH]; intros i found Hc.
  - cbn [app Go.lastIndexFrom length]. rewrite bool_decide_eq_true_2 by reflexivity.
    rewrite lastIndexFrom_none by exact Hc. lia.
  - cbn [app Go.lastIndexFrom]. rewrite IH by exact Hc. cbn [length]. lia.
Qed.

Lemma substring_prefix (x y : string) : substring 0 (String.length x) (x +:+ y) = x.
Proof.
  induction x as [|c x IH]; [now destruct y |].
  rewrite append_cons. cbn [String.length substring]. now rewrite IH.
Qed.

(** X12.  [extractJSON] cuts the reply down to its outermost braces: when
    the reply, without the surrounding white space, has an opening brace
    and a closing brace after it, the result runs from the first opening
    brace to the last closing brace, both included, whatever text comes
    before and after; a reply without an opening brace or without a
    closing brace is returned as it is, trimmed. *)
Theorem extractJSON_outermost_braces (s pre body post : string) :
  Go.TrimSpace s = pre +:+ "{" +:+ body +:+ "}" +:+ post ->
  "{"%char ∉ Go.bytes pre -> "}"%char ∉ Go.bytes post ->
  extractJSON s = "{" +:+ body +:+ "}"
  /\ (forall s0, "{"%char ∉ Go.bytes (Go.TrimSpace s0)
                 \/ "}"%char ∉ Go.bytes (Go.TrimSpace s0) ->
                 extractJSON s0 = Go.TrimSpace s0).
Proof.
  intros Ht Hpre Hpost. split.
  - unfold extractJSON. rewrite Ht.
    set (t := pre +:+ "{" +:+ body +:+ "}" +:+ post).
    assert (Hb : Go.bytes t
                 = Go.bytes pre ++ "{"%char :: (Go.bytes body ++ "}"%char :: Go.bytes post)).
    { unfold t. rewrite !bytes_append. reflexivity. }
    assert (Hne : String.eqb t "" = false).
    { apply String.eqb_neq. intros E. rewrite E in Hb. now destruct (Go.bytes pre). }
    rewrite Hne. unfold Go.IndexByte, Go.LastIndexByte. rewrite Hb.
    rewrite Index_one by exact Hpre.
    rewrite app_comm_cons, app_assoc, lastIndexFrom_last by exact Hpost.
    rewrite length_app. cbn [length].
    assert (Hlen : forall x, length (Go.bytes x) = String.length x).
    { intros x. unfold Go.bytes. induction x; simpl; congruence. }
    rewrite !Hlen.
    replace ((0 <=? Z.of_nat (String.length pre))
             && (Z.of_nat (String.length pre)
                 <? 0 + Z.of_nat (String.length pre + S (String.length body))))
      with true
      by (symmetry; apply andb_true_intro; split; [apply Z.leb_le | apply Z.ltb_lt]; lia).
    unfold Go.slice. rewrite Nat2Z.id.
    replace (Z.to_nat (0 + Z.of_nat (String.length pre + S (String.length body)) + 1
                       - Z.of_nat (String.length pre)))
      with (String.length ("{" +:+ body +:+ "}")).
    2: { rewrite !length_append. cbn [String.length]. lia. }
    unfold t. rewrite substring_skip.
    replace ("{" +:+ body +:+ "}" +:+ post) with (("{" +:+ body +:+ "}") +:+ post)
      by now rewrite !append_assoc.
    apply substring_prefix.
  - intros s0 Hno. unfold extractJSON.
    destruct (String.eqb (Go.TrimSpace s0) ""); [reflexivity |].
    unfold Go.IndexByte, Go.LastIndexByte.
    destruct Hno as [Hno | Hno].
    + rewrite Index_one_none by exact Hno. reflexivity.
    + rewrite lastIndexFrom_none by exact Hno.
      destruct (0 <=? _) eqn:E0; [| reflexivity]. cbn [andb].
      apply Z.leb_le in E0.
      destruct (_ <? -1) eqn:E1; [apply Z.ltb_lt in E1; lia | reflexivity].
Qed.

Lemma extractJSON_outermost_braces_witness :
  extractJSON "Here it is: {a} and {b}. " = "{" +:+ "a} and {b" +:+ "}"
  /\ (forall s0, "{"%char ∉ Go.bytes (Go.TrimSpace s0)
                 \/ "}"%char ∉ Go.bytes (Go.TrimSpace s0) ->
                 extractJSON s0 = Go.TrimSpace s0).
Proof.
  apply (extractJSON_outermost_braces "Here it is: {a} and {b}. "
           "Here it is: " "a} and {b" ".").
  - vm_compute. reflexivity.
  - vm_compute. intros H. repeat (apply elem_of_cons in H as [H | H]; [discriminate |]).
    now apply not_elem_of_nil in H.
  - vm_compute. intros H. repeat (apply elem_of_cons in H as [H | H]; [discriminate |]).
    now apply not_elem_of_nil in H.
Defined.

Lemma lastMessage_skip (ls : list line) (last : string) :
  Forall noAgentMessage ls ->
  foldl (fun last l =>
           match unmarshalLine l with
           | Some ev =>
               match jsonItem ev with
               | Some it =>
                   if String.eqb (jsonType ev) "item.completed"
                      && String.eqb (itemType it) "agent_message"
                   then itemText it else last
               | None => last
               end
           | None => last
           end) last ls = last.
Proof.
  induction 1 as [|l ls Hl _ IH]; [reflexivity |]. cbn [foldl].
  destruct (unmarshalLine l) as [ev|] eqn:El; [| exact IH].
  destruct (jsonItem ev) as [it|] eqn:Ei; [| exact IH].
  destruct (String.eqb (jsonType ev) "item.completed") eqn:Et; [| exact IH].
  destruct (String.eqb (itemType it) "agent_message") eqn:Ea; [| exact IH].
  exfalso. apply (Hl (itemText it)). exists ev, it.
  apply String.eqb_eq in Et, Ea. now repeat split.
Qed.

(** X13.  The reply [runCodexResumeJSON] returns for a command that ran
    is the text of the last agent message on its standard output,
    whatever came before it and whatever other records follow.  When
    that text is blank, and when the output holds no agent message at
    all, the reply is what the scanner has left unread of the standard
    output: the empty string whenever the scanner has read the output
    to its end, not the output itself.  The command run is
    [exec resume --json] with the thread identifier and the prompt as
    its last two arguments. *)
Theorem compaction_reply_is_last_message (a : Adapter) (os : OS.t) (tid prompt : string)
    (c : capture) (pre post : list line) (l : line) (t : string) :
  tid <> "" -> runErr c = None ->
  outLines c = pre ++ l :: post -> isAgentMessage l t -> Forall noAgentMessage post ->
  let r := runCodexResumeJSON a os tid prompt c in
  r.1 = inr (if String.eqb (Go.TrimSpace t) "" then default "" (unread c) else t)
  /\ (Go.TrimSpace t = "" -> unread c = None -> r.1 = inr "")
  /\ OS.spawned r.2
     = OS.spawned os
       ++ [(cmd a,
            args a ++ ["exec"; "resume"; "--json"]
            ++ (if skipGitRepoCheck a then ["--skip-git-repo-check"] else [])
            ++ [tid; prompt])]
  /\ (forall c0, runErr c0 = None -> Forall noAgentMessage (outLines c0) ->
                 (runCodexResumeJSON a os tid prompt c0).1 = inr (default "" (unread c0))
                 /\ (unread c0 = None ->
                     (runCodexResumeJSON a os tid prompt c0).1 = inr "")).
Proof.
  intros Ht Hr Hl (ev & it & El & Ety & Eit & Eat & Etx) Hpost. cbv zeta.
  apply String.eqb_neq in Ht.
  assert (Hreply : (runCodexResumeJSON a os tid prompt c).1
                   = inr (if String.eqb (Go.TrimSpace t) "" then default "" (unread c)
                          else t)).
  { unfold runCodexResumeJSON. rewrite Ht, Hr.
    rewrite Hl, foldl_app. cbn [foldl]. rewrite El, Eit, Ety, Eat, !String.eqb_refl.
    cbn [andb]. rewrite (lastMessage_skip post _ Hpost), Etx.
    now destruct (String.eqb (Go.TrimSpace t) ""). }
  split; [exact Hreply |]. split; [| split].
  - intros Hblank Hnone. rewrite Hreply, Hblank, Hnone. reflexivity.
  - clear Hreply. unfold runCodexResumeJSON. rewrite Ht, Hr.
    destruct (String.eqb (Go.TrimSpace _) ""); cbn [snd OS.spawned OS.Start];
      destruct (skipGitRepoCheck a); now rewrite <- ?app_assoc.
  - intros c0 Hr0 Hno. unfold runCodexResumeJSON. rewrite Ht, Hr0.
    rewrite (lastMessage_skip (outLines c0) "" Hno).
    split; [reflexivity |]. intros ->. reflexivity.
Qed.

Lemma compaction_reply_is_last_message_witness :
  let c := mkCapture None
             [Sample.agentMessage "first"; mkLine None "not json";
              Sample.agentMessage "{x}"; Sample.turnCompleted 1 2] None "" in
  let r := runCodexResumeJSON Sample.a0 Sample.os0 "T1" "compact" c in
  r.1 = inr (if String.eqb (Go.TrimSpace "{x}") "" then default "" (unread c) else "{x}")
  /\ (Go.TrimSpace "{x}" = "" -> unread c = None -> r.1 = inr "")
  /\ OS.spawned r.2
     = OS.spawned Sample.os0
       ++ [(cmd Sample.a0,
            args Sample.a0 ++ ["exec"; "resume"; "--json"]
            ++ (if skipGitRepoCheck Sample.a0 then ["--skip-git-repo-check"] else [])
            ++ ["T1"; "compact"])]
  /\ (forall c0, runErr c0 = None -> Forall noAgentMessage (outLines c0) ->
                 (runCodexResumeJSON Sample.a0 Sample.os0 "T1" "compact" c0).1
                 = inr (default "" (unread c0))
                 /\ (unread c0 = None ->
                     (runCodexResumeJSON Sample.a0 Sample.os0 "T1" "compact" c0).1
                     = inr "")).
Proof.
  apply (compaction_reply_is_last_message Sample.a0 Sample.os0 "T1" "compact"
           (mkCapture None
              [Sample.agentMessage "first"; mkLine None "not json";
               Sample.agentMessage "{x}"; Sample.turnCompleted 1 2] None "")
           [Sample.agentMessage "first"; mkLine None "not json"]
           [Sample.turnCompleted 1 2] (Sample.agentMessage "{x}") "{x}").
  - discriminate.
  - reflexivity.
  - reflexivity.
  - exists (mkJSON "item.completed" "" (Some (mkItem "agent_message" "{x}"))),
      (mkItem "agent_message" "{x}").
    repeat split.
  - constructor; [| constructor].
    intros t (ev & it & El & Ety & _). vm_compute in El. injection El as <-.
    discriminate Ety.
Defined.

(** ** The background task of a compaction *)

Lemma isCompacting_release (a : Adapter) (key k : string) :
  isCompacting (setCompacting a (Some (<[key := false]> (default ∅ (compacting a))))) k
  = if String.eqb k key then false else isCompacting a k.
Proof.
  unfold isCompacting. cbn [compacting setCompacting default from_option id].
  unfold id. destruct (String.eqb k key) eqn:E.
  - apply String.eqb_eq in E. subst k. now rewrite lookup_insert_eq.
  - apply String.eqb_neq in E. now rewrite lookup_insert_ne by congruence.
Qed.

(** X14.  The background task of a compaction always releases the
    compaction-in-progress flag of its conversation, whatever the
    outcome.  When the compaction fails (the thread identifier is empty
    or the command fails) the task leaves the memory, the thread store,
    the flags of other conversations and every file as they were, and
    what it passes to [notify], when there is one, is the announcement
    followed by the failure with the error [compactChat] returned in
    it: [empty threadID], or [compact run failed:] with the error of the
    command and its trimmed standard error. *)
Theorem failed_compaction_is_harmless `{TextJSON} (a : Adapter) (os : OS.t) (t : task)
    (notify : bool) (c : capture) :
  taskThread t = "" \/ runErr c <> None ->
  let err :=
    if String.eqb (taskThread t) "" then "empty threadID"
    else "compact run failed: " +:+ default "" (runErr c) +:+ ": "
         +:+ Go.TrimSpace (errText c) in
  let '(msgs, a', os') := compactionTask a os t notify c in
  mem a' = mem a /\ threads a' = threads a /\ OS.files os' = OS.files os
  /\ (forall k, isCompacting a' k = if String.eqb k (taskKey t) then false
                                     else isCompacting a k)
  /\ (compactChat a os (taskKey t) (taskThread t) c).1.1 = Some err
  /\ msgs = (if notify
             then ["已达到压缩阈值（tokens=" +:+ Go.Itoa (tokensNow t) +:+ " turns="
                     +:+ Go.Itoa (turnsNow t) +:+ "），开始整理对话摘要与持久记忆..." +:+ nl;
                   "对话压缩失败（将继续使用原会话）： " +:+ err +:+ nl]
             else [])
  /\ (forall a0 os0 c0,
        isCompacting (compactionTask a0 os0 t notify c0).1.2 (taskKey t) = false).
Proof.
  intros Hfail. cbv zeta.
  assert (Hrel : forall a0 os0 c0,
             isCompacting (compactionTask a0 os0 t notify c0).1.2 (taskKey t) = false).
  { intros a0 os0 c0. unfold compactionTask.
    destruct (compactChat a0 os0 (taskKey t) (taskThread t) c0) as [[[err|] a1] os1].
    - cbn [fst snd]. now rewrite isCompacting_release, String.eqb_refl.
    - destruct notify.
      + destruct (getMem a1 (taskKey t)) as [m a2]. cbn [fst snd].
        now rewrite isCompacting_release, String.eqb_refl.
      + cbn [fst snd]. now rewrite isCompacting_release, String.eqb_refl. }
  unfold compactionTask, compactChat, runCodexResumeJSON.
  destruct (String.eqb (taskThread t) "") eqn:Et.
  - cbn [fst snd].
    split; [reflexivity |]. split; [reflexivity |]. split; [reflexivity |].
    split; [intros k; apply isCompacting_release |].
    split; [reflexivity |]. split; [reflexivity |].
    intros a0 os0 c0. specialize (Hrel a0 os0 c0).
    unfold compactionTask, compactChat, runCodexResumeJSON in Hrel.
    rewrite Et in Hrel. exact Hrel.
  - assert (Et' := Et). apply String.eqb_neq in Et'.
    destruct Hfail as [Hf | Hf]; [contradiction |].
    destruct (runErr c) as [e|]; [| contradiction]. cbn [fst snd default from_option id].
    split; [reflexivity |]. split; [reflexivity |]. split; [reflexivity |].
    split; [intros k; apply isCompacting_release |].
    split; [reflexivity |]. split; [reflexivity |].
    intros a0 os0 c0. specialize (Hrel a0 os0 c0).
    unfold compactionTask, compactChat, runCodexResumeJSON in Hrel.
    rewrite Et in Hrel. exact Hrel.
Qed.

Lemma failed_compaction_is_harmless_witness :
  let t := mkTask "42" "T1" 300 2 in
  let c := mkCapture (Some "exit status 1") [] None " boom " in
  let '(msgs, a', os') := @compactionTask Sample.textJSON Sample.a42 Sample.os0 t true c in
  mem a' = mem Sample.a42 /\ threads a' = threads Sample.a42
  /\ OS.files os' = OS.files Sample.os0
  /\ (forall k, isCompacting a' k = if String.eqb k "42" then false
                                     else isCompacting Sample.a42 k)
  /\ (@compactChat Sample.textJSON Sample.a42 Sample.os0 "42" "T1" c).1.1
     = Some "compact run failed: exit status 1: boom"
  /\ msgs = ["已达到压缩阈值（tokens=300 turns=2），开始整理对话摘要与持久记忆..." +:+ nl;
             "对话压缩失败（将继续使用原会话）： compact run failed: exit status 1: boom" +:+ nl]
  /\ (forall a0 os0 c0,
        isCompacting (@compactionTask Sample.textJSON a0 os0 t true c0).1.2 "42" = false).
Proof.
  pose proof (@failed_compaction_is_harmless Sample.textJSON Sample.a42 Sample.os0
                (mkTask "42" "T1" 300 2) true
                (mkCapture (Some "exit status 1") [] None " boom ")) as W.
  cbv zeta in W |- *. apply W. right. discriminate.
Defined.

(** ** Terminal queries: the edges *)

Lemma handleTermQueries_no_writer (h : handle) (b : list byte) :
  stdin h = None ->
  (handleTermQueries h b).1 = h
  /\ exists n,
       strips n b (handleTermQueries h b).2
       /\ Go.Index (handleTermQueries h b).2 dsrCursor = -1
       /\ Go.Index (handleTermQueries h b).2 dsrCursorQ = -1.
Proof.
  funelim (handleTermQueries h b); intros Hw.
  - clear H Heqcall. apply andb_prop in e as [E1 E2]. apply Z.eqb_eq in E1, E2.
    cbn [fst snd]. split; [reflexivity |]. exists 0%nat. repeat split; try assumption.
    constructor.
  - clear H0 Heqcall.
    assert (Hsame : writeStdin h cursorReply = h) by (unfold writeStdin; now rewrite Hw).
    assert (Hw' : stdin (writeStdin h cursorReply) = None) by now rewrite Hsame.
    destruct (H Hw') as (N0 & n & N1 & N2 & N3).
    split; [now rewrite N0 |]. exists (S n). split; [| split; assumption].
    set (i := Go.Index b dsrCursor) in *. set (j := Go.Index b dsrCursorQ) in *.
    set (r := handleTermQueries (writeStdin h cursorReply) _) in *.
    destruct (earliest_spec i j e) as [[Ee Hne] | [Ee Hne]]; rewrite Ee in N1;
      cbn [fst snd] in N1; unfold cut in N1.
    + eapply strips_at; [left; reflexivity | apply (Index_found b dsrCursor Hne) |].
      exact N1.
    + eapply strips_at; [right; reflexivity | apply (Index_found b dsrCursorQ Hne) |].
      exact N1.
Qed.

(** X15.  Three edges of the handling of terminal queries.  A chunk
    without an escape byte is forwarded as it is and nothing is written
    to the child.  On a handle without an input writer the queries are
    removed from the chunk all the same, but no reply is written and the
    handle is left as it is.  A chunk that is nothing but a query is
    swallowed: the reply is written, and no event is forwarded and
    nothing is logged. *)
Theorem terminal_queries_edges (h : handle) (evs : list Event) (os : OS.t) :
  (forall b, x1b ∉ b -> handleTermQueries h b = (h, b))
  /\ (stdin h = None ->
      forall b, exists n out,
        handleTermQueries h b = (h, out) /\ strips n b out
        /\ ~ occursIn dsrCursor out /\ ~ occursIn dsrCursorQ out)
  /\ readLoopPTYRound h evs os dsrCursor = (writeStdin h cursorReply, evs, os)
  /\ readLoopPTYRound h evs os dsrCursorQ = (writeStdin h cursorReply, evs, os).
Proof.
  split; [| split; [| split]].
  - intros b Hb. rewrite handleTermQueries_eq.
    unfold dsrCursor, dsrCursorQ. rewrite !Index_no_first by exact Hb. reflexivity.
  - intros Hw b. destruct (handleTermQueries_no_writer h b Hw) as (N0 & n & N1 & N2 & N3).
    destruct (handleTermQueries h b) as [h1 out]. cbn [fst snd] in *. subst h1.
    exists n, out. split; [reflexivity | split; [exact N1 | split]].
    + now apply Index_none.
    + now apply Index_none.
  - unfold readLoopPTYRound. cbn [app].
    pose proof (handleTermQueries_midline h [] []) as E. cbn [app] in E.
    rewrite app_nil_r in E. rewrite E; [reflexivity | |]; apply not_elem_of_nil.
  - unfold readLoopPTYRound. cbn [app]. rewrite handleTermQueries_eq.
    change (Go.Index dsrCursorQ dsrCursor) with (-1).
    change (Go.Index dsrCursorQ dsrCursorQ) with 0.
    cbn [Z.eqb andb]. change (earliest (-1) 0) with (0, 5). cbn [fst snd].
    change (cut dsrCursorQ 0 5) with (@nil byte).
    rewrite handleTermQueries_eq. reflexivity.
Qed.

(** ** Building the adapter *)

Lemma loadState_fields (a : Adapter) (os : OS.t) :
  cmd (loadState a os) = cmd a /\ args (loadState a os) = args a
  /\ dir (loadState a os) = dir a /\ logDir (loadState a os) = logDir a
  /\ fixed (loadState a os) = fixed a /\ mode (loadState a os) = mode a
  /\ skipGitRepoCheck (loadState a os) = skipGitRepoCheck a
  /\ statePath (loadState a os) = statePath a
  /\ mem (loadState a os) = mem a /\ compacting (loadState a os) = compacting a
  /\ (is_Some (threads a) -> is_Some (threads (loadState a os))).
Proof.
  unfold loadState.
  destruct (OS.ReadFile os (statePath a)) as [[s | d] |]; try now repeat split.
  destruct (decodeStateFile d) as [[m |] |]; now repeat split.
Qed.

(** X16.  The adapter [New] builds is in one of two modes, [exec] or
    [interactive], whatever the environment says.  It is in mode [exec]
    exactly when [CODEX_DRIVER], trimmed and lower-cased, is [exec], or
    is empty while the base name of the command is [codex]; every other
    value means [interactive].  The structured variant is taken only
    for a command whose base name is [codex].  The log directory is
    [logs] when none is given, the state file is [state.json] in it, and
    the thread map is never nil. *)
Theorem New_mode (os : OS.t) (help cmd0 : string) (args0 : list string)
    (dir0 logDir0 : string) :
  let a := (New os help cmd0 args0 dir0 logDir0).1 in
  let driver := Go.ToLower (Go.TrimSpace (OS.Getenv os "CODEX_DRIVER")) in
  (mode a = "exec" \/ mode a = "interactive")
  /\ (mode a = "exec" <-> driver = "exec" \/ (driver = "" /\ Go.Base cmd0 = "codex"))
  /\ (Go.TrimSpace (OS.Getenv os "CODEX_DRIVER") = "" ->
      mode a = if String.eqb (Go.Base cmd0) "codex" then "exec" else "interactive")
  /\ (usesExec a = true -> Go.Base cmd0 = "codex")
  /\ cmd a = cmd0 /\ dir a = dir0
  /\ logDir a = (if String.eqb (Go.TrimSpace logDir0) "" then "logs" else logDir0)
  /\ statePath a = Go.Join (logDir a) "state.json"
  /\ is_Some (threads a).
Proof.
  cbv zeta. unfold New. cbn [fst].
  set (a0 := mkAdapter _ _ _ _ _ _ _ _ _ _ _).
  destruct (loadState_fields a0 (OS.Start os cmd0 ["--help"]))
    as (F1 & F2 & F3 & F4 & F5 & F6 & F7 & F8 & F9 & F10 & F11).
  unfold usesExec. rewrite F1, F3, F4, F6, F8.
  cbn [cmd dir logDir mode statePath a0].
  set (m0 := Go.ToLower (Go.TrimSpace (OS.Getenv os "CODEX_DRIVER"))).
  set (m1 := if String.eqb m0 "" then _ else m0).
  assert (Hm1 : m1 = "exec" <-> m0 = "exec" \/ (m0 = "" /\ Go.Base cmd0 = "codex")).
  { unfold m1. destruct (String.eqb m0 "") eqn:E0.
    - apply String.eqb_eq in E0. rewrite E0.
      destruct (String.eqb (Go.Base cmd0) "codex") eqn:Eb.
      + apply String.eqb_eq in Eb. split; [intros _; right; now split | reflexivity].
      + apply String.eqb_neq in Eb. split; [discriminate |].
        intros [H | [_ H]]; [discriminate | contradiction].
    - apply String.eqb_neq in E0. split; [now left |].
      intros [H | [H _]]; [exact H | contradiction]. }
  split; [| split; [| split; [| split; [| repeat split]]]].
  - destruct (String.eqb m1 "exec") eqn:E1; cbn [negb andb].
    + left. now apply String.eqb_eq.
    + destruct (String.eqb m1 "interactive") eqn:E2; cbn [negb].
      * right. now apply String.eqb_eq.
      * now right.
  - rewrite <- Hm1.
    destruct (String.eqb m1 "exec") eqn:E1; cbn [negb andb].
    + apply String.eqb_eq in E1. now split.
    + apply String.eqb_neq in E1.
      destruct (String.eqb m1 "interactive") eqn:E2; cbn [negb].
      * apply String.eqb_eq in E2. split; [congruence | contradiction].
      * split; [discriminate | contradiction].
  - intros Hunset. unfold m1, m0. rewrite Hunset. cbn [Go.ToLower].
    change (String.eqb "" "") with true. cbn iota.
    now destruct (String.eqb (Go.Base cmd0) "codex").
  - intros Hu. apply andb_prop in Hu as [_ Hu]. now apply String.eqb_eq.
  - apply F11. now exists ∅.
Qed.

Lemma hasCdFlag_app (l1 l2 : list string) :
  hasCdFlag (l1 ++ l2) = hasCdFlag l1 || hasCdFlag l2.
Proof.
  induction l1 as [|x l1 IH]; [reflexivity |]. cbn [app hasCdFlag].
  destruct (String.eqb x "-C" || String.eqb x "--cd"); [reflexivity | exact IH].
Qed.

(** X17.  The arguments of the adapter [New] builds end with the fixed
    arguments detected from the help text followed by the caller's
    arguments, unchanged and in order; before them come at most
    [--search] and [--cd dir].  For a command named [codex] and a
    working directory that is not empty the arguments always name a
    working directory, and [--cd dir] is added only when neither [-C]
    nor [--cd] is among the arguments already; for any other command
    nothing is added. *)
Theorem New_args (os : OS.t) (help cmd0 : string) (args0 : list string)
    (dir0 logDir0 : string) :
  let a := (New os help cmd0 args0 dir0 logDir0).1 in
  let given := detectFixedArgs help ++ args0 in
  (exists search cd : bool,
     args a = (if search then ["--search"] else [])
              ++ (if cd then ["--cd"; dir0] else []) ++ given
     /\ (cd = true <-> dir0 <> "" /\ Go.Base cmd0 = "codex" /\ hasCdFlag given = false)
     /\ (search = true -> Go.Base cmd0 = "codex"))
  /\ (dir0 <> "" -> Go.Base cmd0 = "codex" -> hasCdFlag (args a) = true)
  /\ (Go.Base cmd0 <> "codex" -> args a = given)
  /\ fixed a = detectFixedArgs help.
Proof.
  cbv zeta. unfold New. cbn [fst].
  set (a0 := mkAdapter _ _ _ _ _ _ _ _ _ _ _).
  destruct (loadState_fields a0 (OS.Start os cmd0 ["--help"]))
    as (_ & F2 & _ & _ & F5 & _).
  rewrite F2, F5. cbn [args fixed a0].
  set (given := detectFixedArgs help ++ args0).
  set (codex := String.eqb (Go.Base cmd0) "codex").
  set (cd := negb (String.eqb dir0 "") && codex && negb (hasCdFlag given)).
  set (m1 := if cd then ["--cd"; dir0] ++ given else given).
  set (search := envBool os "CODEX_ENABLE_SEARCH" false && codex && negb (hasFlag m1 "--search")).
  assert (Hcd : cd = true <-> dir0 <> "" /\ Go.Base cmd0 = "codex" /\ hasCdFlag given = false).
  { unfold cd, codex. rewrite !andb_true_iff, !negb_true_iff.
    rewrite String.eqb_eq, String.eqb_neq. tauto. }
  assert (Hm1 : m1 = (if cd then ["--cd"; dir0] else []) ++ given)
    by (unfold m1; now destruct cd).
  assert (Hargs : (if search then ["--search"] ++ m1 else m1)
                  = (if search then ["--search"] else [])
                    ++ (if cd then ["--cd"; dir0] else []) ++ given)
    by (rewrite Hm1; now destruct search).
  assert (Hsearch : search = true -> Go.Base cmd0 = "codex").
  { unfold search. intros Hs. apply andb_prop in Hs as [Hs _].
    apply andb_prop in Hs as [_ Hs]. now apply String.eqb_eq. }
  assert (Hno : Go.Base cmd0 <> "codex" -> cd = false /\ search = false).
  { intros Hn. apply String.eqb_neq in Hn. fold codex in Hn.
    unfold search, cd. rewrite Hn. now rewrite !andb_false_r. }
  clearbody search m1 cd.
  split; [| split; [| split; [| reflexivity]]].
  - exists search, cd. split; [exact Hargs | split; [exact Hcd | exact Hsearch]].
  - intros Hd Hc. rewrite Hargs, !hasCdFlag_app.
    destruct cd eqn:Ec.
    + destruct search; reflexivity.
    + destruct (hasCdFlag given) eqn:Eg; [now rewrite !orb_true_r |].
      exfalso. assert (false = true) by (apply Hcd; now repeat split). congruence.
  - intros Hn. destruct (Hno Hn) as [-> ->]. rewrite Hargs. reflexivity.
Qed.

(** ** A restart reads back what was saved *)

Lemma New_statePath (os os' : OS.t) (help cmd0 : string) (args0 : list string)
    (dir0 logDir0 : string) :
  statePath (New os help cmd0 args0 dir0 logDir0).1
  = statePath (New os' help cmd0 args0 dir0 logDir0).1.
Proof.
  unfold New. cbn [fst].
  set (a0 := mkAdapter _ _ _ _ _ _ _ _ _ _ _).
  set (a1 := mkAdapter _ _ _ _ _ _ _ _ _ _ _).
  destruct (loadState_fields a0 (OS.Start os cmd0 ["--help"]))
    as (_ & _ & _ & _ & _ & _ & _ & F8 & _).
  destruct (loadState_fields a1 (OS.Start os' cmd0 ["--help"]))
    as (_ & _ & _ & _ & _ & _ & _ & G8 & _).
  rewrite F8, G8. reflexivity.
Qed.

Lemma loadState_Start (a : Adapter) (os : OS.t) (c : string) (argv : list string) :
  loadState a (OS.Start os c argv) = loadState a os.
Proof. reflexivity. Qed.

Lemma New_after_save (a : Adapter) (os : OS.t) (m : gmap string string)
    (help cmd0 : string) (args0 : list string) (dir0 logDir0 : string) :
  threads a = Some m -> validThreads m ->
  statePath (New os help cmd0 args0 dir0 logDir0).1 = statePath a ->
  statePath a ∉ OS.faulty os -> statePath a +:+ ".tmp" ∉ OS.faulty os ->
  threads (New (saveStateLocked a os) help cmd0 args0 dir0 logDir0).1 = Some m.
Proof.
  intros Hm Hv Hp Hf Ht.
  rewrite (New_statePath os (saveStateLocked a os)) in Hp.
  revert Hp. unfold New. cbn [fst].
  set (a0 := mkAdapter _ _ _ _ _ _ _ _ _ _ _).
  rewrite !loadState_Start. intros Hp.
  destruct (loadState_fields a0 (saveStateLocked a os))
    as (_ & _ & _ & _ & _ & _ & _ & F8 & _).
  rewrite F8 in Hp.
  now apply loadState_saveState.
Qed.

(** X18.  What [setThread] and [clearThread] save is what an adapter
    built afterwards by [New] for the same state file starts with (the
    two file operations of the save taken to succeed, keys and values
    valid UTF-8): after [setThread] the new adapter has the same thread
    map and answers the key with the identifier, after [clearThread] of
    a stored key it has the map without the key and answers with the
    empty string. *)
Theorem threads_survive_restart (a : Adapter) (os : OS.t) (key tid : string)
    (help cmd0 : string) (args0 : list string) (dir0 logDir0 : string) :
  key <> "" ->
  statePath (New os help cmd0 args0 dir0 logDir0).1 = statePath a ->
  statePath a ∉ OS.faulty os -> statePath a +:+ ".tmp" ∉ OS.faulty os ->
  (tid <> "" -> getThread a key <> tid ->
   validThreads (<[key := tid]> (default ∅ (threads a))) ->
   let '(a1, os1) := setThread a os key tid in
   let b := (New os1 help cmd0 args0 dir0 logDir0).1 in
   threads b = threads a1 /\ getThread b key = tid)
  /\ (is_Some (default ∅ (threads a) !! key) ->
      validThreads (delete key (default ∅ (threads a))) ->
      let '(a1, os1) := clearThread a os key in
      let b := (New os1 help cmd0 args0 dir0 logDir0).1 in
      threads b = threads a1 /\ getThread b key = "").
Proof.
  intros Hk Hp Hf Ht. split.
  - intros Htid Hne Hv.
    assert (Hget : getThread a key = threadOf (threads a) key).
    { unfold getThread. apply String.eqb_neq in Hk. now rewrite Hk. }
    rewrite Hget in Hne.
    pose proof (setThread_saves a os key tid Hk Htid Hne) as Hs.
    pose proof (setThread_adapter a os key tid Hk Htid) as Ha.
    destruct (setThread a os key tid) as [a1 os1]. cbn [fst snd] in *. subst a1 os1.
    cbv zeta. cbn [threads setThreads].
    assert (E : threads (New (saveStateLocked
                                (setThreads a (Some (<[key:=tid]> (default ∅ (threads a))))) os)
                           help cmd0 args0 dir0 logDir0).1
                = Some (<[key:=tid]> (default ∅ (threads a)))).
    { apply New_after_save; try assumption; reflexivity. }
    split; [exact E |].
    unfold getThread. apply String.eqb_neq in Hk. rewrite Hk, E.
    cbn [threadOf]. now rewrite lookup_insert_eq.
  - intros [t Hl] Hv. unfold clearThread.
    pose proof Hk as Hk'. apply String.eqb_neq in Hk'. rewrite Hk'.
    destruct (threads a) as [m|] eqn:Em; cbn [default from_option id] in Hl, Hv;
      [| now rewrite lookup_empty in Hl].
    rewrite Hl. cbv zeta.
    assert (E : threads (New (saveStateLocked (setThreads a (Some (delete key m))) os)
                           help cmd0 args0 dir0 logDir0).1
                = Some (delete key m)).
    { apply New_after_save; try assumption; reflexivity. }
    split; [exact E |].
    unfold getThread. rewrite Hk', E. cbn [threadOf]. now rewrite lookup_delete_eq.
Qed.

Lemma threads_survive_restart_witness :
  (let '(a1, os1) := setThread Sample.a0 Sample.os0 "42" "T1" in
   let b := (New os1 "" "codex" [] "/work" "logs").1 in
   threads b = threads a1 /\ getThread b "42" = "T1")
  /\ (let '(a1, os1) :=
        clearThread (setThread Sample.a0 Sample.os0 "42" "T1").1
          (setThread Sample.a0 Sample.os0 "42" "T1").2 "42" in
      let b := (New os1 "" "codex" [] "/work" "logs").1 in
      threads b = threads a1 /\ getThread b "42" = "").
Proof.
  split.
  - apply (threads_survive_restart Sample.a0 Sample.os0 "42" "T1" "" "codex" [] "/work" "logs").
    + discriminate.
    + vm_compute. reflexivity.
    + apply not_elem_of_empty.
    + apply not_elem_of_empty.
    + discriminate.
    + vm_compute. discriminate.
    + intros k v. cbn [threads Sample.a0 default from_option id].
      rewrite insert_empty. intros Hkv.
      apply lookup_singleton_Some in Hkv as [<- <-]. now split.
  - apply (threads_survive_restart (setThread Sample.a0 Sample.os0 "42" "T1").1
             (setThread Sample.a0 Sample.os0 "42" "T1").2 "42" "T1" "" "codex" []
             "/work" "logs").
    + discriminate.
    + vm_compute. reflexivity.
    + apply not_elem_of_empty.
    + apply not_elem_of_empty.
    + exists "T1".
      rewrite (proj1 (setThread_store Sample.a0 Sample.os0 "42" "T1" ltac:(discriminate)
                        ltac:(discriminate))).
      cbn [default from_option id]. apply lookup_insert_eq.
    + intros k v.
      rewrite (proj1 (setThread_store Sample.a0 Sample.os0 "42" "T1" ltac:(discriminate)
                        ltac:(discriminate))).
      cbn [default from_option id]. rewrite delete_insert_eq.
      cbn [threads Sample.a0 default from_option id].
      rewrite delete_empty. now rewrite lookup_empty.
Defined.

(** ** The flags read off the help text *)

Lemma elem_of_bool {A} `{EqDecision A} (x : A) (l : list A) (b : bool) :
  bool_decide (x ∈ l) = b -> (x ∈ l <-> b = true).
Proof. intros <-. symmetry. apply bool_decide_eq_true. Qed.

(** X19.  The flags [detectFixedArgs] returns: they are taken in order
    from [--no-color], [--color=never], [--no-ansi], [--ansi=never],
    [--no-progress], none twice; a [--no-...] flag is returned exactly
    when the help text names it, a [...=never] flag exactly when the
    help text does not name the [--no-...] form but names the option
    and the word [never]. *)
Theorem detectFixedArgs_flags (help : string) :
  let r := detectFixedArgs help in
  r `sublist_of` ["--no-color"; "--color=never"; "--no-ansi"; "--ansi=never"; "--no-progress"]
  /\ ("--no-color" ∈ r <-> Go.Contains help "--no-color" = true)
  /\ ("--color=never" ∈ r <->
      negb (Go.Contains help "--no-color") && Go.Contains help "--color"
      && Go.Contains help "never" = true)
  /\ ("--no-ansi" ∈ r <-> Go.Contains help "--no-ansi" = true)
  /\ ("--ansi=never" ∈ r <->
      negb (Go.Contains help "--no-ansi") && Go.Contains help "--ansi"
      && Go.Contains help "never" = true)
  /\ ("--no-progress" ∈ r <-> Go.Contains help "--no-progress" = true).
Proof.
  cbv zeta. unfold detectFixedArgs.
  destruct (String.eqb help "") eqn:E.
  - apply String.eqb_eq in E. subst help.
    split; [apply sublist_nil_l |].
    repeat split; intros H; solve [inversion H | discriminate H].
  - clear E.
    destruct (Go.Contains help "--no-color"), (Go.Contains help "--color"),
      (Go.Contains help "never"), (Go.Contains help "--no-ansi"),
      (Go.Contains help "--ansi"), (Go.Contains help "--no-progress");
      (split;
       [ vm_compute; eauto 12 using sublist_nil, sublist_skip, sublist_cons
       | repeat split; (apply elem_of_bool; vm_compute; reflexivity) ]).
Qed.

(** ** Sending to an interactive session *)

(** X20.  [Send] on an interactive handle changes neither the adapter
    nor the files.  Without an input stream it fails with
    [session not started] and writes nothing; with one it makes exactly
    one write, of the input when that ends in a newline and of the input
    followed by one newline otherwise, so what is written always ends in
    a newline, and it returns the error of the write.  A handle of
    another type fails with [unknown handle type]. *)
Theorem Send_interactive (a : Adapter) (os : OS.t) (hh : handle) (input : string)
    (c : child) (werr : option string) :
  (let '(e, h', a', os') := Send a os (PtyHandle hh) input c werr in
   a' = a /\ os' = os
   /\ match stdin hh with
      | None => e = Some "session not started" /\ h' = PtyHandle hh
      | Some w =>
          e = werr
          /\ exists text,
               h' = PtyHandle (mkHandle (hSessionID hh) (hLogDir hh)
                                 (Some (w ++ [list_byte_of_string text])))
               /\ Go.HasSuffix text nl = true
               /\ text = (if Go.HasSuffix input nl then input else input +:+ nl)
      end)
  /\ Send a os OtherHandle input c werr = (Some "unknown handle type", OtherHandle, a, os).
Proof.
  split; [| reflexivity].
  unfold Send. destruct (stdin hh) as [w|].
  - split; [reflexivity |]. split; [reflexivity |]. split; [reflexivity |].
    destruct (Go.HasSuffix input nl) eqn:E; cbn [negb].
    + exists input. now rewrite E.
    + exists (input +:+ nl). split; [reflexivity |]. split; [apply HasSuffix_app | reflexivity].
  - now repeat split.
Qed.

(** ** The session manager *)

Lemma lookupSession_update {H Ch : Type} (m : Core.SessionManager H Ch) (p : nat)
    (f : Core.Session H Ch -> Core.Session H Ch) (c : Z) :
  Core.lookupSession (Core.update m p f) c
  = (fun qs : nat * Core.Session H Ch => (qs.1, if decide (qs.1 = p) then f qs.2 else qs.2))
      <$> Core.lookupSession m c.
Proof.
  unfold Core.lookupSession, Core.update. cbn [Core.sessions Core.heap].
  destruct (Core.sessions m !! c) as [q|]; [| reflexivity].
  destruct (decide (q = p)) as [->|Hne].
  - rewrite list_lookup_alter_eq. destruct (Core.heap m !! p); cbn; [| reflexivity].
    now rewrite decide_True.
  - rewrite list_lookup_alter_ne by congruence.
    destruct (Core.heap m !! q); cbn; [| reflexivity]. now rewrite decide_False.
Qed.

Lemma registered_update {H Ch : Type} (m : Core.SessionManager H Ch) (p : nat)
    (f : Core.Session H Ch -> Core.Session H Ch) :
  (forall s, Core.ChatID (f s) = Core.ChatID s) ->
  registered m -> registered (Core.update m p f).
Proof.
  intros Hf Hr c q Hq. cbn [Core.update Core.sessions Core.heap] in *.
  destruct (Hr c q Hq) as (s & Hs & Hc).
  destruct (decide (q = p)) as [->|Hne].
  - exists (f s). rewrite list_lookup_alter_eq, Hs. split; [reflexivity |]. now rewrite Hf.
  - exists s. rewrite list_lookup_alter_ne by congruence. now split.
Qed.

Lemma registered_lookup {H Ch : Type} (m : Core.SessionManager H Ch) (c : Z) (p : nat) :
  registered m -> Core.sessions m !! c = Some p ->
  exists s, Core.lookupSession m c = Some (p, s) /\ Core.ChatID s = c
            /\ (p < length (Core.heap m))%nat.
Proof.
  intros Hr Hp. destruct (Hr c p Hp) as (s & Hs & Hc). exists s.
  unfold Core.lookupSession. rewrite Hp, Hs. repeat split; [exact Hc |].
  now apply lookup_lt_Some in Hs.
Qed.

Lemma lookupSession_Some {H Ch : Type} (m : Core.SessionManager H Ch) (c : Z) (p : nat)
    (s : Core.Session H Ch) :
  Core.lookupSession m c = Some (p, s) ->
  Core.sessions m !! c = Some p /\ Core.heap m !! p = Some s.
Proof.
  unfold Core.lookupSession. destruct (Core.sessions m !! c) as [q|]; [| discriminate].
  destruct (Core.heap m !! q) as [s'|] eqn:E; [| discriminate].
  intros [= <- <-]. now split.
Qed.

Lemma registered_alloc {H Ch : Type} (m : Core.SessionManager H Ch) (c : Z)
    (s : Core.Session H Ch) :
  Core.ChatID s = c -> registered m ->
  registered (Core.mkManager (Core.heap m ++ [s])
                (<[c := length (Core.heap m)]> (Core.sessions m))).
Proof.
  intros Hc Hr c' q. cbn [Core.sessions Core.heap].
  destruct (decide (c' = c)) as [->|Hne].
  - rewrite lookup_insert_eq. intros [= <-]. exists s.
    rewrite lookup_app_r by lia. now rewrite Nat.sub_diag.
  - rewrite lookup_insert_ne by congruence. intros Hq.
    destruct (Hr c' q Hq) as (s' & Hs & Hc'). exists s'.
    rewrite lookup_app_l by now apply lookup_lt_Some in Hs. now split.
Qed.

Lemma lookupSession_alloc {H Ch : Type} (m : Core.SessionManager H Ch) (c c' : Z)
    (s : Core.Session H Ch) :
  registered m ->
  Core.lookupSession (Core.mkManager (Core.heap m ++ [s])
                        (<[c := length (Core.heap m)]> (Core.sessions m))) c'
  = if decide (c' = c) then Some (length (Core.heap m), s) else Core.lookupSession m c'.
Proof.
  intros Hr. unfold Core.lookupSession. cbn [Core.sessions Core.heap].
  destruct (decide (c' = c)) as [->|Hne].
  - rewrite lookup_insert_eq, lookup_app_r by lia. now rewrite Nat.sub_diag.
  - rewrite lookup_insert_ne by congruence.
    destruct (Core.sessions m !! c') as [q|] eqn:Hq; [| reflexivity].
    destruct (Hr c' q Hq) as (s' & Hs & _).
    rewrite lookup_app_l by now apply lookup_lt_Some in Hs. reflexivity.
Qed.

(** What [newWithID] returns, after a start that succeeds. *)
Lemma newWithID_ok {A H Ch : Type} `{!Core.AdapterOps A H Ch}
    (m : Core.SessionManager H Ch) (a : A) (os : OS.t) (chatID : Z) (sid : string)
    (hd : H) (a1 : A) (os1 : OS.t) :
  Core.adapterStart a os sid = (Core.Ok hd, a1, os1) ->
  let s := Core.mkSession chatID sid (OS.Now os1).1 hd (Core.adapterEvents hd) ""
             (OS.Now (OS.Now os1).2).1 true in
  let os3 := (OS.Now (OS.Now os1).2).2 in
  let m1 := Core.mkManager (Core.heap m ++ [s])
              (<[chatID := length (Core.heap m)]> (Core.sessions m)) in
  Core.newWithID m a os chatID sid
  = match Core.lookupSession m chatID with
    | Some (_, old) =>
        (Core.Ok (length (Core.heap m), s), m1,
         (Core.adapterStop a1 os3 (Core.h old)).1.2, (Core.adapterStop a1 os3 (Core.h old)).2)
    | None => (Core.Ok (length (Core.heap m), s), m1, a1, os3)
    end.
Proof.
  intros Hs. cbv zeta. unfold Core.newWithID. rewrite Hs.
  cbn [OS.Now fst snd Core.setRunning Core.ChatID Core.SessionID Core.CreatedAt Core.h
       Core.events Core.lastErr Core.lastSeen].
  destruct (Core.lookupSession m chatID) as [[q old]|]; cbn [fmap option_fmap option_map snd];
    [| reflexivity].
  now destruct (Core.adapterStop _ _ _) as [[e a2] os4].
Qed.

Lemma newWithID_err {A H Ch : Type} `{!Core.AdapterOps A H Ch}
    (m : Core.SessionManager H Ch) (a : A) (os : OS.t) (chatID : Z) (sid : string)
    (e : string) (a1 : A) (os1 : OS.t) :
  Core.adapterStart a os sid = (Core.Err e, a1, os1) ->
  Core.newWithID m a os chatID sid = (Core.Err e, m, a1, os1).
Proof. intros Hs. unfold Core.newWithID. now rewrite Hs. Qed.

Lemma registered_one {H Ch : Type} (c : Z) (s : Core.Session H Ch) :
  Core.ChatID s = c -> registered (Core.mkManager [s] {[c := 0%nat]}).
Proof.
  intros Hc c' p Hp. cbn [Core.sessions Core.heap] in *.
  apply lookup_singleton_Some in Hp as [<- <-]. now exists s.
Qed.

(** X21.  [newWithID] on a manager whose map is in order.  When [Start]
    fails the manager is unchanged and nothing but [Start] was called.
    When it succeeds, a new session is allocated after the existing
    ones, running, without error, with the conversation, the identifier
    and the handle of [Start]; the map sends the conversation to it and
    every other conversation where it went before; the handle of the
    session the conversation had before, if any, is stopped after the
    start; and [GetOrCreate] then returns the new session without
    calling the adapter.  The map stays in order. *)
Theorem newWithID_replaces {A H Ch : Type} `{!Core.AdapterOps A H Ch}
    (m : Core.SessionManager H Ch) (a : A) (os : OS.t) (chatID : Z) (sid : string) :
  registered m ->
  let '(r, m', a', os') := Core.newWithID m a os chatID sid in
  registered m'
  /\ match r with
     | Core.Err e => m' = m /\ Core.adapterStart a os sid = (Core.Err e, a', os')
     | Core.Ok (p, s) =>
         exists hd a1 os1,
           Core.adapterStart a os sid = (Core.Ok hd, a1, os1)
           /\ p = length (Core.heap m)
           /\ Core.heap m' = Core.heap m ++ [s]
           /\ Core.lookupSession m' chatID = Some (p, s)
           /\ (forall c, c <> chatID -> Core.lookupSession m' c = Core.lookupSession m c)
           /\ (Core.ChatID s, Core.SessionID s, Core.h s, Core.running s, Core.lastErr s)
              = (chatID, sid, hd, true, "")
           /\ (a', os')
              = match Core.lookupSession m chatID with
                | Some (_, old) =>
                    ((Core.adapterStop a1 (OS.Now (OS.Now os1).2).2 (Core.h old)).1.2,
                     (Core.adapterStop a1 (OS.Now (OS.Now os1).2).2 (Core.h old)).2)
                | None => (a1, (OS.Now (OS.Now os1).2).2)
                end
           /\ (forall a2 os2, Core.GetOrCreate m' a2 os2 chatID = (Core.Ok (p, s), m', a2, os2))
     end.
Proof.
  intros Hr.
  destruct (Core.adapterStart a os sid) as [[[hd|e] a1] os1] eqn:Hs.
  - rewrite (newWithID_ok m a os chatID sid hd a1 os1 Hs). cbv zeta.
    set (s := Core.mkSession _ _ _ _ _ _ _ _).
    set (m1 := Core.mkManager _ _).
    assert (Hm1 : registered m1) by now apply registered_alloc.
    assert (Hl : Core.lookupSession m1 chatID = Some (length (Core.heap m), s)).
    { unfold m1. rewrite lookupSession_alloc by exact Hr. now rewrite decide_True. }
    assert (Hrest : (exists hd0 a0 os0,
               (Core.Ok hd, a1, os1) = (Core.Ok hd0, a0, os0)
               /\ length (Core.heap m) = length (Core.heap m)
               /\ Core.heap m1 = Core.heap m ++ [s]
               /\ Core.lookupSession m1 chatID = Some (length (Core.heap m), s)
               /\ (forall c, c <> chatID -> Core.lookupSession m1 c = Core.lookupSession m c)
               /\ (Core.ChatID s, Core.SessionID s, Core.h s, Core.running s, Core.lastErr s)
                  = (chatID, sid, hd0, true, "")
               /\ (forall a2 os2, Core.GetOrCreate m1 a2 os2 chatID
                                  = (Core.Ok (length (Core.heap m), s), m1, a2, os2)))).
    { exists hd, a1, os1. repeat split; try reflexivity; try exact Hl.
      - intros c Hc. unfold m1. rewrite lookupSession_alloc by exact Hr.
        now rewrite decide_False.
      - intros a2 os2. unfold Core.GetOrCreate. now rewrite Hl. }
    destruct Hrest as (hd0 & a0 & os0 & E & R1 & R2 & R3 & R4 & R5 & R6).
    injection E as <- <- <-.
    destruct (Core.lookupSession m chatID) as [[q old]|];
      (split; [exact Hm1 |]); exists hd, a1, os1; repeat split; assumption || reflexivity.
  - rewrite (newWithID_err m a os chatID sid e a1 os1 Hs). now repeat split.
Qed.

Lemma newWithID_replaces_witness :
  let '(r, m', a', os') :=
    Core.newWithID CoreSample.m0 [] Sample.os0 42
      "chat-42-7" in
  registered m'
  /\ match r with
     | Core.Err e =>
         m' = CoreSample.m0
         /\ Core.adapterStart [] Sample.os0 "chat-42-7" = (Core.Err e, a', os')
     | Core.Ok (p, s) =>
         exists hd a1 os1,
           Core.adapterStart [] Sample.os0 "chat-42-7" = (Core.Ok hd, a1, os1)
           /\ p = length (Core.heap CoreSample.m0)
           /\ Core.heap m' = Core.heap CoreSample.m0 ++ [s]
           /\ Core.lookupSession m' 42 = Some (p, s)
           /\ (forall c, c <> 42 ->
                 Core.lookupSession m' c = Core.lookupSession CoreSample.m0 c)
           /\ (Core.ChatID s, Core.SessionID s, Core.h s, Core.running s, Core.lastErr s)
              = (42, "chat-42-7", hd, true, "")
           /\ (a', os')
              = match Core.lookupSession CoreSample.m0
                        42 with
                | Some (_, old) =>
                    ((Core.adapterStop a1 (OS.Now (OS.Now os1).2).2 (Core.h old)).1.2,
                     (Core.adapterStop a1 (OS.Now (OS.Now os1).2).2 (Core.h old)).2)
                | None => (a1, (OS.Now (OS.Now os1).2).2)
                end
           /\ (forall a2 os2, Core.GetOrCreate m' a2 os2 42 = (Core.Ok (p, s), m', a2, os2))
     end.
Proof.
  apply (newWithID_replaces CoreSample.m0 [] Sample.os0 42
           "chat-42-7").
  intros c p Hp. cbn in Hp. now rewrite lookup_empty in Hp.
Defined.

Lemma alter_as_insert {T : Type} (f : T -> T) (l : list T) (i : nat) (x : T) :
  l !! i = Some x -> alter f i l = <[i := f x]> l.
Proof.
  intros Hx. apply list_eq. intros j. destruct (decide (j = i)) as [->|Hne].
  - rewrite list_lookup_alter_eq, Hx. cbn.
    symmetry. apply list_lookup_insert_eq. now apply lookup_lt_Some in Hx.
  - rewrite list_lookup_alter_ne, list_lookup_insert_ne by congruence. reflexivity.
Qed.

Lemma registered_insert {H Ch : Type} (m : Core.SessionManager H Ch) (p : nat)
    (s s' : Core.Session H Ch) :
  Core.heap m !! p = Some s -> Core.ChatID s' = Core.ChatID s ->
  registered m -> registered (Core.mkManager (<[p := s']> (Core.heap m)) (Core.sessions m)).
Proof.
  intros Hp Hc Hr c q Hq. cbn [Core.sessions Core.heap] in *.
  destruct (Hr c q Hq) as (s0 & Hs & Hc0).
  destruct (decide (q = p)) as [->|Hne].
  - exists s'. rewrite list_lookup_insert_eq by now apply lookup_lt_Some in Hp.
    split; [reflexivity |]. congruence.
  - exists s0. rewrite list_lookup_insert_ne by congruence. now split.
Qed.

(** X22.  [Send] to a conversation whose session is running reads the
    clock once and calls [Send] of the adapter once, on the handle of
    that session; it starts and stops nothing.  The session gets the
    reading as its [lastSeen] and, when the adapter fails, the message
    of the error as its [lastErr]; the map and every other session stay
    as they were, and the error of the adapter is returned. *)
Theorem Send_to_running_session {A H Ch : Type} `{!Core.AdapterOps A H Ch}
    (m : Core.SessionManager H Ch) (a : A) (os : OS.t) (chatID : Z) (input : string)
    (p : nat) (s : Core.Session H Ch) :
  Core.lookupSession m chatID = Some (p, s) -> Core.running s = true ->
  let '(now, os1) := OS.Now os in
  let '(err, a2, os2) := Core.adapterSend a os1 (Core.h s) input in
  let s' := match err with
            | Some e => Core.setLastErr e (Core.setLastSeen now s)
            | None => Core.setLastSeen now s
            end in
  Core.Send m a os chatID input
  = (Some (p, s'), err, Core.mkManager (<[p := s']> (Core.heap m)) (Core.sessions m), a2, os2)
  /\ (registered m ->
      registered (Core.mkManager (<[p := s']> (Core.heap m)) (Core.sessions m))).
Proof.
  intros Hl Hrun. destruct (lookupSession_Some m chatID p s Hl) as [Hp Hs].
  unfold Core.Send, Core.GetOrCreate. rewrite Hl.
  destruct (OS.Now os) as [now os1].
  change (Core.running (Core.setLastSeen now s)) with (Core.running s).
  rewrite Hrun. cbn [negb].
  change (Core.h (Core.setLastSeen now s)) with (Core.h s).
  destruct (Core.adapterSend a os1 (Core.h s) input) as [[[e|] a2] os2]; cbv zeta.
  - split.
    + f_equal. f_equal. f_equal. unfold Core.update. cbn [Core.heap Core.sessions].
      f_equal. rewrite (alter_as_insert _ _ _ s Hs).
      rewrite (alter_as_insert _ _ _ (Core.setLastSeen now s))
        by (apply list_lookup_insert_eq; now apply lookup_lt_Some in Hs).
      now rewrite list_insert_insert_eq.
    + intros Hr. now apply (registered_insert m p s).
  - split.
    + f_equal. f_equal. unfold Core.update. cbn [Core.heap Core.sessions].
      f_equal. now rewrite (alter_as_insert _ _ _ s Hs).
    + intros Hr. now apply (registered_insert m p s).
Qed.

Lemma Send_to_running_session_witness :
  let '(now, os1) := OS.Now Sample.os0 in
  let '(err, a2, os2) := Core.adapterSend [] os1 (Core.h CoreSample.s1) "hi" in
  let s' := match err with
            | Some e => Core.setLastErr e (Core.setLastSeen now CoreSample.s1)
            | None => Core.setLastSeen now CoreSample.s1
            end in
  Core.Send CoreSample.m1 [] Sample.os0 42 "hi"
  = (Some (0%nat, s'), err,
     Core.mkManager (<[0%nat := s']> (Core.heap CoreSample.m1)) (Core.sessions CoreSample.m1),
     a2, os2)
  /\ (registered CoreSample.m1 ->
      registered (Core.mkManager (<[0%nat := s']> (Core.heap CoreSample.m1))
                    (Core.sessions CoreSample.m1))).
Proof.
  apply (Send_to_running_session CoreSample.m1 [] Sample.os0 42 "hi" 0 CoreSample.s1);
    reflexivity.
Defined.

Lemma alter_app_last {T : Type} (f : T -> T) (l : list T) (x : T) (n : nat) :
  n = length l -> alter f n (l ++ [x]) = l ++ [f x].
Proof.
  intros ->. apply list_eq. intros j. destruct (decide (j = length l)) as [->|Hne].
  - rewrite list_lookup_alter_eq, !lookup_app_r by lia. now rewrite Nat.sub_diag.
  - rewrite list_lookup_alter_ne by congruence.
    destruct (decide (j < length l)%nat).
    + now rewrite !lookup_app_l by lia.
    + rewrite !lookup_app_r by lia.
      destruct (j - length l)%nat as [|k] eqn:E; [lia | reflexivity].
Qed.

(** X23.  [Send] to a conversation whose session is stopped restarts
    it.  The stopped session gets the clock reading as its [lastSeen];
    a session that may resume is then started, with the identifier
    [resumeID] makes from the next reading.  When [Start] fails its
    error is returned, nothing is sent and the conversation keeps the
    stopped session.  When it succeeds the new session is allocated
    after the existing ones and takes the conversation, the handle of
    the stopped session is stopped, the input is sent to the new handle,
    and an error of that is returned and noted in the new session; the
    stopped session stays stopped. *)
Theorem Send_restarts_stopped_session {A H Ch : Type} `{!Core.AdapterOps A H Ch}
    (m : Core.SessionManager H Ch) (a : A) (os : OS.t) (chatID : Z) (input : string)
    (p : nat) (s : Core.Session H Ch) :
  registered m ->
  Core.lookupSession m chatID = Some (p, s) -> Core.running s = false ->
  let '(now, os1) := OS.Now os in
  let heap1 := <[p := Core.setLastSeen now s]> (Core.heap m) in
  let '(sid, os2) := resumeID chatID os1 in
  match Core.adapterStart a os2 sid with
  | (Core.Err e, a1, os3) =>
      Core.Send m a os chatID input
      = (None, Some e, Core.mkManager heap1 (Core.sessions m), a1, os3)
  | (Core.Ok hd, a1, os3) =>
      let '(created, os4) := OS.Now os3 in
      let '(seen, os5) := OS.Now os4 in
      let '(_, a2, os6) := Core.adapterStop a1 os5 (Core.h s) in
      let '(err, a3, os7) := Core.adapterSend a2 os6 hd input in
      let s0 := Core.mkSession chatID sid created hd (Core.adapterEvents hd) "" seen true in
      let s2 := match err with Some e => Core.setLastErr e s0 | None => s0 end in
      let m' := Core.mkManager (heap1 ++ [s2])
                  (<[chatID := length (Core.heap m)]> (Core.sessions m)) in
      Core.Send m a os chatID input = (Some (length (Core.heap m), s2), err, m', a3, os7)
      /\ Core.lookupSession m' chatID = Some (length (Core.heap m), s2)
      /\ Core.heap m' !! p = Some (Core.setLastSeen now s)
      /\ registered m'
  end.
Proof.
  intros Hr Hl Hrun. destruct (lookupSession_Some m chatID p s Hl) as [Hp Hs].
  pose proof (lookup_lt_Some _ _ _ Hs) as Hlt.
  unfold Core.Send, Core.GetOrCreate. rewrite Hl.
  destruct (OS.Now os) as [now os1]. cbv zeta.
  change (Core.running (Core.setLastSeen now s)) with (Core.running s).
  rewrite Hrun. cbn [negb].
  set (m2 := Core.update m p (Core.setLastSeen now)).
  assert (Hm2 : m2 = Core.mkManager (<[p := Core.setLastSeen now s]> (Core.heap m))
                       (Core.sessions m)).
  { unfold m2, Core.update. now rewrite (alter_as_insert _ _ _ s Hs). }
  assert (Hr2 : registered m2) by (apply registered_update; [reflexivity | exact Hr]).
  assert (Hl2 : Core.lookupSession m2 chatID = Some (p, Core.setLastSeen now s)).
  { unfold m2. rewrite lookupSession_update, Hl. cbn. now rewrite decide_True. }
  assert (Hlen : length (Core.heap m2) = length (Core.heap m)).
  { rewrite Hm2. cbn [Core.heap]. apply length_insert. }
  unfold Core.NewResume. destruct (resumeID chatID os1) as [sid os2].
  destruct (Core.adapterStart a os2 sid) as [[[hd|e] a1] os3] eqn:Hstart.
  - rewrite (newWithID_ok m2 a os2 chatID sid hd a1 os3 Hstart), Hl2. cbv zeta.
    change (Core.h (Core.setLastSeen now s)) with (Core.h s).
    destruct (OS.Now os3) as [created os4]. cbn [fst snd].
    destruct (OS.Now os4) as [seen os5]. cbn [fst snd]. rewrite Hlen.
    set (s0 := Core.mkSession chatID sid created hd (Core.adapterEvents hd) "" seen true).
    destruct (Core.adapterStop a1 os5 (Core.h s)) as [[e0 a2] os6]. cbn [fst snd].
    change (Core.h s0) with hd.
    assert (Hfacts : forall s2 : Core.Session H Ch, Core.ChatID s2 = chatID ->
              let m' := Core.mkManager (<[p := Core.setLastSeen now s]> (Core.heap m) ++ [s2])
                          (<[chatID := length (Core.heap m)]> (Core.sessions m)) in
              Core.lookupSession m' chatID = Some (length (Core.heap m), s2)
              /\ Core.heap m' !! p = Some (Core.setLastSeen now s)
              /\ registered m').
    { intros s2 Hc2. cbv zeta.
      pose proof (registered_alloc m2 chatID s2 Hc2 Hr2) as Halloc.
      pose proof (lookupSession_alloc m2 chatID chatID s2 Hr2) as Hlk.
      rewrite decide_True in Hlk by reflexivity.
      rewrite Hlen in Halloc, Hlk.
      rewrite Hm2 in Halloc, Hlk. cbn [Core.heap Core.sessions] in Halloc, Hlk.
      split; [exact Hlk |]. split; [| exact Halloc].
      cbn [Core.heap]. rewrite lookup_app_l by (rewrite length_insert; exact Hlt).
      now apply list_lookup_insert_eq. }
    destruct (Core.adapterSend a2 os6 hd input) as [[[e|] a3] os7].
    + split; [| now apply Hfacts].
      f_equal. f_equal. unfold Core.update. cbn [Core.heap Core.sessions].
      rewrite (alter_app_last _ _ _ _ (eq_sym Hlen)). now rewrite Hm2.
    + split; [| now apply Hfacts]. now rewrite Hm2.
  - rewrite (newWithID_err m2 a os2 chatID sid e a1 os3 Hstart). now rewrite Hm2.
Qed.

Lemma Send_restarts_stopped_session_witness :
  let '(now, os1) := OS.Now Sample.os0 in
  let heap1 := <[0%nat := Core.setLastSeen now CoreSample.s2]> (Core.heap CoreSample.m2) in
  let '(sid, os2) := resumeID 42 os1 in
  match Core.adapterStart [] os2 sid with
  | (Core.Err e, a1, os3) =>
      Core.Send CoreSample.m2 [] Sample.os0 42 "hi"
      = (None, Some e, Core.mkManager heap1 (Core.sessions CoreSample.m2), a1, os3)
  | (Core.Ok hd, a1, os3) =>
      let '(created, os4) := OS.Now os3 in
      let '(seen, os5) := OS.Now os4 in
      let '(_, a2, os6) := Core.adapterStop a1 os5 (Core.h CoreSample.s2) in
      let '(err, a3, os7) := Core.adapterSend a2 os6 hd "hi" in
      let s0 := Core.mkSession 42 sid created hd (Core.adapterEvents hd) "" seen true in
      let s2 := match err with Some e => Core.setLastErr e s0 | None => s0 end in
      let m' := Core.mkManager (heap1 ++ [s2])
                  (<[42 := length (Core.heap CoreSample.m2)]> (Core.sessions CoreSample.m2)) in
      Core.Send CoreSample.m2 [] Sample.os0 42 "hi"
      = (Some (length (Core.heap CoreSample.m2), s2), err, m', a3, os7)
      /\ Core.lookupSession m' 42 = Some (length (Core.heap CoreSample.m2), s2)
      /\ Core.heap m' !! 0%nat = Some (Core.setLastSeen now CoreSample.s2)
      /\ registered m'
  end.
Proof.
  apply (Send_restarts_stopped_session CoreSample.m2 [] Sample.os0 42 "hi" 0 CoreSample.s2);
    [now apply registered_one | reflexivity | reflexivity].
Defined.

(** X24.  [Send] to a conversation without a session starts one that
    may resume, with the identifier [resumeID] makes.  When [Start]
    fails its error is returned, nothing is sent and the manager is
    unchanged.  When it succeeds the new session takes the
    conversation, nothing is stopped, the input is sent to the new
    handle, and an error of that is returned and noted in the
    session. *)
Theorem Send_starts_session {A H Ch : Type} `{!Core.AdapterOps A H Ch}
    (m : Core.SessionManager H Ch) (a : A) (os : OS.t) (chatID : Z) (input : string) :
  registered m ->
  Core.lookupSession m chatID = None ->
  let '(sid, os1) := resumeID chatID os in
  match Core.adapterStart a os1 sid with
  | (Core.Err e, a1, os2) => Core.Send m a os chatID input = (None, Some e, m, a1, os2)
  | (Core.Ok hd, a1, os2) =>
      let '(created, os3) := OS.Now os2 in
      let '(seen, os4) := OS.Now os3 in
      let '(now, os5) := OS.Now os4 in
      let '(err, a2, os6) := Core.adapterSend a1 os5 hd input in
      let s0 := Core.mkSession chatID sid created hd (Core.adapterEvents hd) "" now true in
      let s2 := match err with Some e => Core.setLastErr e s0 | None => s0 end in
      let m' := Core.mkManager (Core.heap m ++ [s2])
                  (<[chatID := length (Core.heap m)]> (Core.sessions m)) in
      Core.Send m a os chatID input = (Some (length (Core.heap m), s2), err, m', a2, os6)
      /\ Core.lookupSession m' chatID = Some (length (Core.heap m), s2)
      /\ registered m'
  end.
Proof.
  intros Hr Hl. unfold Core.Send, Core.GetOrCreate. rewrite Hl.
  unfold Core.NewResume. destruct (resumeID chatID os) as [sid os1].
  destruct (Core.adapterStart a os1 sid) as [[[hd|e] a1] os2] eqn:Hstart.
  - rewrite (newWithID_ok m a os1 chatID sid hd a1 os2 Hstart), Hl. cbv zeta.
    destruct (OS.Now os2) as [created os3]. cbn [fst snd].
    destruct (OS.Now os3) as [seen os4]. cbn [fst snd].
    destruct (OS.Now os4) as [now os5].
    set (s1 := Core.mkSession chatID sid created hd (Core.adapterEvents hd) "" seen true).
    change (Core.running (Core.setLastSeen now s1)) with true. cbn [negb].
    change (Core.h (Core.setLastSeen now s1)) with hd.
    change (Core.setLastSeen now s1)
      with (Core.mkSession chatID sid created hd (Core.adapterEvents hd) "" now true).
    set (s0 := Core.mkSession chatID sid created hd (Core.adapterEvents hd) "" now true).
    assert (Hm1 : Core.update
                    (Core.mkManager (Core.heap m ++ [s1])
                       (<[chatID := length (Core.heap m)]> (Core.sessions m)))
                    (length (Core.heap m)) (Core.setLastSeen now)
                  = Core.mkManager (Core.heap m ++ [s0])
                      (<[chatID := length (Core.heap m)]> (Core.sessions m))).
    { unfold Core.update. cbn [Core.heap Core.sessions].
      now rewrite (alter_app_last _ _ _ _ eq_refl). }
    rewrite Hm1.
    assert (Hfacts : forall s2 : Core.Session H Ch, Core.ChatID s2 = chatID ->
              let m' := Core.mkManager (Core.heap m ++ [s2])
                          (<[chatID := length (Core.heap m)]> (Core.sessions m)) in
              Core.lookupSession m' chatID = Some (length (Core.heap m), s2)
              /\ registered m').
    { intros s2 Hc2. cbv zeta. split.
      - rewrite lookupSession_alloc by exact Hr. now rewrite decide_True.
      - now apply registered_alloc. }
    destruct (Core.adapterSend a1 os5 hd input) as [[[e|] a2] os6].
    + split; [| now apply Hfacts].
      f_equal. f_equal. unfold Core.update. cbn [Core.heap Core.sessions].
      now rewrite (alter_app_last _ _ _ _ eq_refl).
    + split; [reflexivity | now apply Hfacts].
  - now rewrite (newWithID_err m a os1 chatID sid e a1 os2 Hstart).
Qed.

Lemma Send_starts_session_witness :
  let '(sid, os1) := resumeID 42 Sample.os0 in
  match Core.adapterStart [] os1 sid with
  | (Core.Err e, a1, os2) =>
      Core.Send CoreSample.m0 [] Sample.os0 42 "hi"
      = (None, Some e, CoreSample.m0, a1, os2)
  | (Core.Ok hd, a1, os2) =>
      let '(created, os3) := OS.Now os2 in
      let '(seen, os4) := OS.Now os3 in
      let '(now, os5) := OS.Now os4 in
      let '(err, a2, os6) := Core.adapterSend a1 os5 hd "hi" in
      let s0 := Core.mkSession 42 sid created hd (Core.adapterEvents hd) "" now true in
      let s2 := match err with Some e => Core.setLastErr e s0 | None => s0 end in
      let m' := Core.mkManager (Core.heap CoreSample.m0 ++ [s2])
                  (<[42 := length (Core.heap CoreSample.m0)]>
                     (Core.sessions CoreSample.m0)) in
      Core.Send CoreSample.m0 [] Sample.os0 42 "hi"
      = (Some (length (Core.heap CoreSample.m0), s2),
         err, m', a2, os6)
      /\ Core.lookupSession m' 42
         = Some (length (Core.heap CoreSample.m0), s2)
      /\ registered m'
  end.
Proof.
  apply (Send_starts_session CoreSample.m0 [] Sample.os0 42 "hi");
    [| reflexivity].
  intros c p Hp. cbn in Hp. now rewrite lookup_empty in Hp.
Defined.

(** X25.  [MarkStopped] through a pointer, seen from a conversation
    that has a session.  When the pointer is that of the session of the
    conversation, [Status] reports the session stopped, with the reason
    as its last error, or with the last error it had when the reason is
    empty.  When it is another pointer, such as that of a session the
    conversation had before, the session of the conversation and what
    [Status] reports for it are unchanged.  The map stays in order. *)
Theorem MarkStopped_Status {H Ch : Type} (m : Core.SessionManager H Ch) (p : nat)
    (reason : string) (chatID : Z) (q : nat) (s : Core.Session H Ch) :
  Core.lookupSession m chatID = Some (q, s) ->
  let m' := Core.MarkStopped m p reason in
  (q = p ->
   let err := if String.eqb reason "" then Core.lastErr s else reason in
   Core.Status m' chatID
   = (if String.eqb err "" then (Core.SessionID s +:+ " (" +:+ "stopped" +:+ ")", true)
      else (Core.SessionID s +:+ " (" +:+ "stopped" +:+ ") lastErr=" +:+ err, true))
   /\ Core.IsRunning m' p = false)
  /\ (q <> p ->
      Core.lookupSession m' chatID = Some (q, s)
      /\ Core.Status m' chatID = Core.Status m chatID
      /\ Core.IsRunning m' q = Core.running s)
  /\ (registered m -> registered m').
Proof.
  intros Hl. destruct (lookupSession_Some m chatID q s Hl) as [Hq Hs]. cbv zeta.
  assert (Hl' : Core.lookupSession (Core.MarkStopped m p reason) chatID
                = Some (q, if decide (q = p)
                           then (let s1 := Core.setRunning false s in
                                 if negb (String.eqb reason "")
                                 then Core.setLastErr reason s1 else s1)
                           else s)).
  { unfold Core.MarkStopped. now rewrite lookupSession_update, Hl. }
  split; [| split].
  - intros ->. rewrite decide_True in Hl' by reflexivity. split.
    + unfold Core.Status. rewrite Hl'. cbv zeta.
      destruct (String.eqb reason "") eqn:Er; cbn [negb].
      * cbn [Core.setRunning Core.running Core.lastErr Core.SessionID].
        now destruct (String.eqb (Core.lastErr s) "").
      * cbn [Core.setRunning Core.setLastErr Core.running Core.lastErr Core.SessionID].
        rewrite Er. reflexivity.
    + unfold Core.IsRunning, Core.MarkStopped, Core.update. cbn [Core.heap].
      rewrite list_lookup_alter_eq, Hs. cbn.
      now destruct (negb (String.eqb reason "")).
  - intros Hne. rewrite decide_False in Hl' by exact Hne.
    split; [exact Hl' |]. split.
    + unfold Core.Status. now rewrite Hl', Hl.
    + unfold Core.IsRunning, Core.MarkStopped, Core.update. cbn [Core.heap].
      rewrite list_lookup_alter_ne by congruence. now rewrite Hs.
  - apply registered_update. intros s0. now destruct (negb (String.eqb reason "")).
Qed.

Lemma MarkStopped_Status_witness :
  let m' := Core.MarkStopped CoreSample.m1 0 "exit" in
  (0%nat = 0%nat ->
   let err := if String.eqb "exit" "" then Core.lastErr CoreSample.s1 else "exit" in
   Core.Status m' 42
   = (if String.eqb err ""
      then (Core.SessionID CoreSample.s1 +:+ " (" +:+ "stopped" +:+ ")", true)
      else (Core.SessionID CoreSample.s1 +:+ " (" +:+ "stopped" +:+ ") lastErr=" +:+ err,
            true))
   /\ Core.IsRunning m' 0 = false)
  /\ (0%nat <> 0%nat ->
      Core.lookupSession m' 42 = Some (0%nat, CoreSample.s1)
      /\ Core.Status m' 42 = Core.Status CoreSample.m1 42
      /\ Core.IsRunning m' 0 = Core.running CoreSample.s1)
  /\ (registered CoreSample.m1 -> registered m').
Proof.
  apply (MarkStopped_Status CoreSample.m1 0 "exit" 42 0 CoreSample.s1). reflexivity.
Defined.

(** ** The loader of the .env file *)

Lemma loadLine_assignment (override : bool) (env : gmap string string) (text : string) :
  Config.loadLine override env text
  = match assignment text with
    | None => env
    | Some (k, v) =>
        if override then Config.Setenv (delete k env) k v
        else if bool_decide (is_Some (env !! k)) then env
             else Config.Setenv env k v
    end.
Proof.
  unfold Config.loadLine, assignment.
  destruct (String.eqb (Go.TrimSpace text) "" || Go.HasPrefix (Go.TrimSpace text) "#");
    [reflexivity |].
  destruct (Config.Cut _ "=") as [[k v] ok].
  destruct ok; cbn [negb]; [| reflexivity].
  destruct (String.eqb (Go.TrimSpace k) ""); [reflexivity |].
  destruct override; cbn [negb andb].
  - now rewrite andb_false_r.
  - destruct (bool_decide (is_Some (env !! Go.TrimSpace k))) eqn:E; [reflexivity |].
    cbn [andb]. reflexivity.
Qed.

Lemma Setenv_lookup (env : gmap string string) (k v k' : string) :
  Config.Setenv env k v !! k'
  = if String.eqb k k' && Config.validSetenv k v then Some v else env !! k'.
Proof.
  unfold Config.Setenv. destruct (Config.validSetenv k v).
  - destruct (String.eqb k k') eqn:E; cbn [andb].
    + apply String.eqb_eq in E. subst k'. apply lookup_insert_eq.
    + apply String.eqb_neq in E. now rewrite lookup_insert_ne.
  - now rewrite andb_false_r.
Qed.

Lemma loadLine_keep (env : gmap string string) (text k : string) :
  Config.loadLine false env text !! k
  = match env !! k with
    | Some v => Some v
    | None =>
        match valueFor k text with
        | Some v => if Config.validSetenv k v then Some v else None
        | None => None
        end
    end.
Proof.
  rewrite loadLine_assignment. unfold valueFor.
  destruct (assignment text) as [[k' v]|]; [| now destruct (env !! k)].
  destruct (String.eqb k' k) eqn:E.
  - apply String.eqb_eq in E. subst k'.
    destruct (env !! k) as [v0|] eqn:Ek.
    + rewrite bool_decide_eq_true_2 by eauto. exact Ek.
    + rewrite bool_decide_eq_false_2 by (intros [? ?]; discriminate).
      rewrite Setenv_lookup, String.eqb_refl, Ek. cbn [andb].
      reflexivity.
  - destruct (bool_decide (is_Some (env !! k'))); [now destruct (env !! k) |].
    rewrite Setenv_lookup, E. cbn [andb]. now destruct (env !! k).
Qed.


Lemma loadLines_keep (lines : list string) (env : gmap string string) (k : string) :
  foldl (Config.loadLine false) env lines !! k
  = match env !! k with
    | Some v => Some v
    | None => head (filter (fun v => Config.validSetenv k v = true) (valuesFor k lines))
    end.
Proof.
  revert env. induction lines as [|t ls IH]; intros env; cbn [foldl].
  - now destruct (env !! k).
  - rewrite IH, loadLine_keep. unfold valuesFor. cbn [omap list_omap].
    destruct (env !! k) as [v0|]; [reflexivity |].
    destruct (valueFor k t) as [v|]; [| reflexivity].
    rewrite filter_cons. destruct (Config.validSetenv k v) eqn:Ev.
    + rewrite decide_True by reflexivity. reflexivity.
    + rewrite decide_False by discriminate. reflexivity.
Qed.


Lemma setEnv_same (os : OS.t) : Config.setEnv os (OS.env os) = os.
Proof. now destruct os. Qed.

(** X26.  [LoadDotEnv] changes nothing but the environment.  Unless
    [DOTENV_OVERRIDE] is switched on, every variable that is set when
    it is called keeps its value.  When the file cannot be opened the
    call fails and changes nothing; when there is no file it succeeds
    and changes nothing. *)
Theorem LoadDotEnv_keeps_existing (Clean : string -> string) (textOf : JSON.value -> string)
    (os : OS.t) (path : string) :
  let p := Clean (if String.eqb (Go.TrimSpace path) "" then ".env" else path) in
  let '(err, os') := Config.LoadDotEnv Clean textOf os path in
  os' = Config.setEnv os (OS.env os')
  /\ (envBool os "DOTENV_OVERRIDE" false = false ->
      forall k v, OS.env os !! k = Some v -> OS.env os' !! k = Some v)
  /\ (p ∈ OS.faulty os -> err = Some Config.OpenFailed /\ os' = os)
  /\ (p ∉ OS.faulty os -> OS.files os !! p = None -> err = None /\ os' = os).
Proof.
  cbv zeta. unfold Config.LoadDotEnv.
  set (p := Clean (if String.eqb (Go.TrimSpace path) "" then ".env" else path)).
  destruct (bool_decide (p ∈ OS.faulty os)) eqn:Ef.
  - apply bool_decide_eq_true in Ef.
    split; [now rewrite setEnv_same |]. split; [tauto |]. split; [tauto | contradiction].
  - apply bool_decide_eq_false in Ef.
    destruct (OS.files os !! p) as [f|] eqn:Ep.
    + destruct (Config.scanLines _) as [lines long].
      split; [reflexivity |]. split; [| split; [contradiction | discriminate]].
      intros Hov k v Hk. rewrite Hov. cbn [Config.setEnv OS.env].
      rewrite loadLines_keep. now rewrite Hk.
    + split; [now rewrite setEnv_same |]. split; [tauto |]. split; [contradiction | tauto].
Qed.


